(** * Intel NPU plugin: execution pipeline, graph artifact and compiler adapter

    A shallow embedding of

      - [backend/src/zero_pipeline.cpp]                 (module [ZeroPipeline])
      - [compiler_adapter/src/plugin_graph.cpp]         (module [PluginGraph])
      - [compiler_adapter/src/plugin_compiler_adapter.cpp]
                       (modules [PluginCompilerAdapter], [AdapterConstruction])
      - [compiler_adapter/include/compiler_adapter_factory.hpp]
                                                (module [CompilerAdapterFactory])

    C++ code that throws or mutates driver-side state is written in a small
    state-and-exception monad; [size_t] and [uint32_t] arithmetic is carried
    out on [Z] with the wrap-around written out.  The wrappers around the
    driver ([zero_wrappers], [ZeGraphExtWrappers], [ZeroExecutor]) are not
    among these sources; what the code above needs of them is modelled
    from the specification and marked so.

    The embedding comes first, then the predicates the statements are
    written with ([PipelineSpec], [GraphSpec], [AdapterSpec], [ExportSpec]
    and, for the further properties, [PipelineUse], [GraphUse],
    [ExportUse], [AdapterUse], [FactoryUse]), then the lemmas and
    theorems: the claims C1 to C10 in [PipelineProofs], [GraphProofs],
    [AdapterProofs] and [ExportProofs], the further properties X1 to X28
    in [PipelineLaws], [GraphLaws], [ExportLaws], [AdapterLaws],
    [FactoryLaws] and [CompileLaws]. *)

From Stdlib Require Import ZArith Lia String.
From Stdlib.Strings Require Import Byte.
From Stdlib Require Import DecimalN DecimalPos.
From stdpp Require Import base option list gmap.

Open Scope Z_scope.

(* ===================================================================== *)
(** ** C++ control effects                                               *)
(* ===================================================================== *)

Module Cpp.

(** Driver status codes ([ze_result_t]): success or an error code. *)
Inductive ze_result_t : Type :=
| ZE_RESULT_SUCCESS
| ZE_RESULT_ERROR (code : Z).

(** The ways a call can fail to return normally. *)
Inductive exception : Type :=
| ov_Exception (msg : string) (detail : string)
    (* OPENVINO_THROW / a failed OPENVINO_ASSERT *)
| ze_failure (call : string) (status : ze_result_t)
    (* THROW_ON_FAIL_FOR_LEVELZERO: a driver call returned an error *)
| out_of_range (what : string)
    (* std::vector::at past the end *)
| undefined_behavior (what : string)
    (* not a C++ exception: operator[] / back() past the end, a null
       shared_ptr or an empty optional dereferenced.  The language
       defines no behaviour from there on (a run may stop or go on with
       any value); the outcome records that the access [what] is
       reached, and nothing is stated about what follows it *)
| never_returns (what : string).
    (* a host wait on a primitive that nothing will signal *)

Inductive outcome (A : Type) : Type :=
| Ok (a : A)
| Throw (e : exception).
Arguments Ok {A} a.
Arguments Throw {A} e.

(** Computations over a mutable state [S]; what was written to the state
    before a throw stays written. *)
Definition M (S A : Type) : Type := S -> outcome A * S.

Definition ret {S A} (a : A) : M S A := fun s => (Ok a, s).
Definition throw {S A} (e : exception) : M S A := fun s => (Throw e, s).
Definition bind {S A B} (m : M S A) (k : A -> M S B) : M S B :=
  fun s => match m s with
           | (Ok a, s') => k a s'
           | (Throw e, s') => (Throw e, s')
           end.
Definition get {S} : M S S := fun s => (Ok s, s).
Definition modify {S} (f : S -> S) : M S unit := fun s => (Ok tt, f s).
Definition lift {S A} (o : outcome A) : M S A := fun s => (o, s).

(** [try { m } catch (...) { h }]: C++ exceptions are caught, undefined
    behaviour and a blocked wait are not. *)
Definition catchable (e : exception) : bool :=
  match e with
  | undefined_behavior _ | never_returns _ => false
  | _ => true
  end.
Definition try_catch {S A} (m : M S A) (h : M S A) : M S A :=
  fun s => match m s with
           | (Ok a, s') => (Ok a, s')
           | (Throw e, s') => if catchable e then h s' else (Throw e, s')
           end.

Declare Scope cpp_scope.
Delimit Scope cpp_scope with cpp.
Notation "x <- c1 ;; c2" := (bind c1 (fun x => c2))
  (at level 100, c1 at next level, right associativity) : cpp_scope.
Notation "c1 ;;; c2" := (bind c1 (fun _ => c2))
  (at level 100, right associativity) : cpp_scope.
Open Scope cpp_scope.

(** [for (size_t i = start; i < start + count; ++i) body(i)], threading a
    loop-carried value. *)
Fixpoint for_range {S X} (start count : nat) (body : nat -> X -> M S X)
         (x : X) : M S X :=
  match count with
  | O => ret x
  | Datatypes.S c => x' <- body start x ;; for_range (Datatypes.S start) c body x'
  end.

(** [for (const auto& a : v) body(a)] *)
Fixpoint for_each {S A X} (v : list A) (body : A -> X -> M S X) (x : X)
  : M S X :=
  match v with
  | [] => ret x
  | a :: v' => x' <- body a x ;; for_each v' body x'
  end.

(** [v.at(i)] *)
Definition vector_at {A} (what : string) (v : list A) (i : nat) : outcome A :=
  match v !! i with
  | Some a => Ok a
  | None => Throw (out_of_range what)
  end.

(** [v[i]], undefined past the end *)
Definition vector_index {A} (what : string) (v : list A) (i : nat) : outcome A :=
  match v !! i with
  | Some a => Ok a
  | None => Throw (undefined_behavior what)
  end.

(** [v.back()], undefined on an empty vector *)
Definition vector_back {A} (what : string) (v : list A) : outcome A :=
  match last v with
  | Some a => Ok a
  | None => Throw (undefined_behavior what)
  end.

(** [*p] / [p->] on a [shared_ptr] or an [optional] *)
Definition deref {A} (what : string) (p : option A) : outcome A :=
  match p with
  | Some a => Ok a
  | None => Throw (undefined_behavior what)
  end.

(** The double quote character (byte 0x22), which a C++ string literal
    writes with a backslash before it, and a word between two of them. *)
Definition quotation_mark : string :=
  String (Ascii.ascii_of_byte x22) EmptyString.
Definition quoted (word : string) : string :=
  String.append quotation_mark (String.append word quotation_mark).

(** [size_t] is 64 bits wide. *)
Definition size_t_max : Z := 2 ^ 64.
Definition size_t_mul (a b : Z) : Z := (a * b) mod size_t_max.
(** [static_cast<uint32_t>(n)] *)
Definition to_uint32 (n : Z) : Z := n mod 2 ^ 32.

End Cpp.
Import Cpp.

(* ===================================================================== *)
(** ** backend/src/zero_pipeline.cpp                                     *)
(* ===================================================================== *)

Module ZeroPipeline.

(** [TensorData]: base address ([void* mem]) and byte size ([size_t]). *)
Record TensorData : Type := { mem : Z; size : Z }.

(** [ArgumentDescriptor]: the pipeline reads the driver argument index
    [idx] ([uint32_t]) only. *)
Record ArgumentDescriptor : Type := { idx : N }.

(** What a command list records. *)
Inductive Instruction : Type :=
| Barrier
| NpuTimestamp (dst : Z)
| GraphExecute (graph : nat) (args : gmap N Z) (query : option nat)
| SignalEvent (event : nat).

Record CommandList : Type :=
  { cl_handle : nat;
    cl_mutable : bool;
    cl_instructions : list Instruction;
    cl_closed : bool }.

Record Event : Type :=
  { ev_handle : nat; ev_pool : nat; ev_index : Z; ev_signaled : bool }.

Record Fence : Type := { fence_handle : nat; fence_signaled : bool }.

Record EventPool : Type := { pool_handle : nat; pool_count : Z }.

(** A command list handed to the queue, with the fence paired to it. *)
Record Submission : Type :=
  { sub_instructions : list Instruction; sub_fence : option nat }.

(** The driver-side state a pipeline works on: the argument table of
    the executor's graph, the handle allocator and the command queue of
    the executor, shared by all command lists. *)
Record Driver : Type :=
  { graph_arguments : gmap N Z;
    next_handle : nat;
    queue : list Submission }.

Definition set_graph_arguments (args : gmap N Z) (d : Driver) : Driver :=
  {| graph_arguments := args; next_handle := next_handle d; queue := queue d |}.

(** [ZeroExecutor], as far as the pipeline uses it. *)
Record ZeroExecutor : Type :=
  { input_descriptors : list ArgumentDescriptor;
    output_descriptors : list ArgumentDescriptor;
    graph : nat;
    group_ordinal : Z;
    MutableCommandListVersion : Z }.

Record NpuInferProfiling : Type :=
  { npu_ts_infer_start : Z; npu_ts_infer_end : Z }.

(** [zeroProfiling::ProfilingPool]: whether [create()] succeeds. *)
Record ProfilingPool : Type := { create_succeeds : bool }.

Record Pipeline : Type :=
  { _event_pool : EventPool;
    _npu_profiling : option NpuInferProfiling;
    _command_lists : list CommandList;
    _events : list Event;
    _fences : list Fence;
    sync_output_with_fences_ : bool }.

Definition with_command_lists (p : Pipeline) (l : list CommandList) : Pipeline :=
  {| _event_pool := _event_pool p; _npu_profiling := _npu_profiling p;
     _command_lists := l; _events := _events p; _fences := _fences p;
     sync_output_with_fences_ := sync_output_with_fences_ p |}.
Definition with_events (p : Pipeline) (l : list Event) : Pipeline :=
  {| _event_pool := _event_pool p; _npu_profiling := _npu_profiling p;
     _command_lists := _command_lists p; _events := l; _fences := _fences p;
     sync_output_with_fences_ := sync_output_with_fences_ p |}.
Definition with_fences (p : Pipeline) (l : list Fence) : Pipeline :=
  {| _event_pool := _event_pool p; _npu_profiling := _npu_profiling p;
     _command_lists := _command_lists p; _events := _events p; _fences := l;
     sync_output_with_fences_ := sync_output_with_fences_ p |}.

(** *** The wrappers of [zero_wrappers.hpp] and the executor *)

(** Modelled from the spec: a driver object is created under a fresh
    handle (the wrappers' constructors are not part of the sources). *)
Definition allocate : M Driver nat :=
  fun d => (Ok (next_handle d),
            {| graph_arguments := graph_arguments d;
               next_handle := Datatypes.S (next_handle d);
               queue := queue d |}).

(** Modelled from the spec: [CommandList]'s constructor gives an open,
    empty command list. *)
Definition CommandList_new (mutable_list : bool) : M Driver CommandList :=
  h <- allocate ;;
  ret {| cl_handle := h; cl_mutable := mutable_list;
         cl_instructions := []; cl_closed := false |}.

(** Modelled from the spec: an event is taken from a pool at an index and
    starts unsignaled. *)
Definition Event_new (pool : nat) (index : Z) : M Driver Event :=
  h <- allocate ;;
  ret {| ev_handle := h; ev_pool := pool; ev_index := index;
         ev_signaled := false |}.

(** Modelled from the spec: a fence is bound to the queue and starts
    unsignaled. *)
Definition Fence_new : M Driver Fence :=
  h <- allocate ;;
  ret {| fence_handle := h; fence_signaled := false |}.

Definition EventPool_new (count : Z) : M Driver EventPool :=
  h <- allocate ;;
  ret {| pool_handle := h; pool_count := count |}.

(** Modelled from the spec: [ZeroExecutor::setArgumentValue] sets the
    value of one argument slot of the executor's graph. *)
Definition setArgumentValue (argi : N) (argv : Z) : M Driver unit :=
  modify (fun d => set_graph_arguments (<[argi := argv]> (graph_arguments d)) d).

Definition append (ins : Instruction) (cl : CommandList) : CommandList :=
  {| cl_handle := cl_handle cl; cl_mutable := cl_mutable cl;
     cl_instructions := cl_instructions cl ++ [ins];
     cl_closed := cl_closed cl |}.

Definition appendBarrier : CommandList -> CommandList := append Barrier.
Definition appendNpuTimestamp (dst : Z) : CommandList -> CommandList :=
  append (NpuTimestamp dst).

(** Modelled from the spec: the graph-execute instruction is recorded with
    the argument values the graph holds when it is appended. *)
Definition appendGraphExecute (g : nat) (query : option nat) (cl : CommandList)
  : M Driver CommandList :=
  d <- get ;;
  ret (append (GraphExecute g (graph_arguments d) query) cl).

Definition AppendSignalEvent (ev : Event) : CommandList -> CommandList :=
  append (SignalEvent (ev_handle ev)).

(** Modelled from the spec: [close] seals the list. *)
Definition close (cl : CommandList) : CommandList :=
  {| cl_handle := cl_handle cl; cl_mutable := cl_mutable cl;
     cl_instructions := cl_instructions cl; cl_closed := true |}.

Definition patch (arg_index : N) (arg_value : Z) (ins : Instruction) : Instruction :=
  match ins with
  | GraphExecute g args query => GraphExecute g (<[arg_index := arg_value]> args) query
  | _ => ins
  end.

(** Modelled from the spec: the mutable update patches the one recorded
    binding of [arg_index] in place; the list has to be closed again
    before it is submitted. *)
Definition updateMutableCommandList (arg_index : N) (arg_value : Z)
           (cl : CommandList) : CommandList :=
  {| cl_handle := cl_handle cl; cl_mutable := cl_mutable cl;
     cl_instructions := patch arg_index arg_value <$> cl_instructions cl;
     cl_closed := false |}.

(** The argument values list [cl] runs the graph with. *)
Fixpoint recorded_arguments (l : list Instruction) : option (gmap N Z) :=
  match l with
  | [] => None
  | GraphExecute _ args _ :: _ => Some args
  | _ :: l' => recorded_arguments l'
  end.
Definition bound_argument (cl : CommandList) (argi : N) : option Z :=
  args ← recorded_arguments (cl_instructions cl); args !! argi.

Definition ZE_RESULT_ERROR_INVALID_ARGUMENT : ze_result_t :=
  ZE_RESULT_ERROR 0x78000004.

(** Modelled from the spec: the queue consumes closed command lists; a
    submission is pending until the device has run it. *)
Definition executeCommandList (cl : CommandList) (fence : option Fence)
  : M Driver unit :=
  if cl_closed cl then
    modify (fun d =>
              {| graph_arguments := graph_arguments d;
                 next_handle := next_handle d;
                 queue := queue d ++
                          [{| sub_instructions := cl_instructions cl;
                              sub_fence := fence_handle <$> fence |}] |})
  else throw (ze_failure "zeCommandQueueExecuteCommandLists"
                         ZE_RESULT_ERROR_INVALID_ARGUMENT).

Definition signal_event (h : nat) (e : Event) : Event :=
  if Nat.eqb (ev_handle e) h
  then {| ev_handle := ev_handle e; ev_pool := ev_pool e;
          ev_index := ev_index e; ev_signaled := true |}
  else e.
Definition signal_fence (h : nat) (f : Fence) : Fence :=
  if Nat.eqb (fence_handle f) h
  then {| fence_handle := fence_handle f; fence_signaled := true |}
  else f.

Definition run_instruction (ins : Instruction) (p : Pipeline) : Pipeline :=
  match ins with
  | SignalEvent h => with_events p (signal_event h <$> _events p)
  | _ => p
  end.
Definition run_submission (s : Submission) (p : Pipeline) : Pipeline :=
  let p' := fold_left (fun q ins => run_instruction ins q) (sub_instructions s) p in
  match sub_fence s with
  | Some h => with_fences p' (signal_fence h <$> _fences p')
  | None => p'
  end.

(** Modelled from the spec: by the time a host wait is answered the
    device has run what was submitted, in submission order; running a
    list signals the events it names and then the fence paired with it. *)
Definition device_completes (p : Pipeline) : M Driver Pipeline :=
  fun d => (Ok (fold_left (fun q s => run_submission s q) (queue d) p),
            {| graph_arguments := graph_arguments d;
               next_handle := next_handle d;
               queue := [] |}).

Definition Fence_reset (f : Fence) : Fence :=
  {| fence_handle := fence_handle f; fence_signaled := false |}.
Definition Event_reset (e : Event) : Event :=
  {| ev_handle := ev_handle e; ev_pool := ev_pool e;
     ev_index := ev_index e; ev_signaled := false |}.

(** *** [Pipeline]

    The [_logger.debug] calls of the pipeline are left out. *)

(** [_command_lists.at(i)->f(...)] *)
Definition at_command_list (i : nat) (f : CommandList -> M Driver CommandList)
           (p : Pipeline) : M Driver Pipeline :=
  cl <- lift (vector_at "_command_lists" (_command_lists p) i) ;;
  cl' <- f cl ;;
  ret (with_command_lists p (<[i := cl']> (_command_lists p))).

(** The address bound for command list [i] of [n]:
    [static_cast<const unsigned char*>(t.mem) + (i * t.size) / n]. *)
Definition slice_address (t : TensorData) (i n : nat) : Z :=
  mem t + size_t_mul (Z.of_nat i) (size t) / Z.of_nat n.

(** [for (const auto& desc : descriptors) { setArgumentValue(desc.idx,
    tensors.at(ioIndex)->mem + (i * tensors.at(ioIndex)->size) / n);
    ++ioIndex; }] *)
Definition bind_arguments (what : string) (descriptors : list ArgumentDescriptor)
           (tensors : list (option TensorData)) (i n : nat) : M Driver nat :=
  for_each descriptors
    (fun desc ioIndex =>
       slot <- lift (vector_at what tensors ioIndex) ;;
       t <- lift (deref what slot) ;;
       setArgumentValue (idx desc) (slice_address t i n) ;;;
       ret (Datatypes.S ioIndex))
    O.

(** The first loop of the constructor. *)
Definition emplace_back_primitives (executor : ZeroExecutor) (i : nat)
           (p : Pipeline) : M Driver Pipeline :=
  cl <- CommandList_new (negb (MutableCommandListVersion executor =? 0)) ;;
  ev <- Event_new (pool_handle (_event_pool p)) (to_uint32 (Z.of_nat i)) ;;
  fe <- Fence_new ;;
  ret {| _event_pool := _event_pool p;
         _npu_profiling := _npu_profiling p;
         _command_lists := _command_lists p ++ [cl];
         _events := _events p ++ [ev];
         _fences := _fences p ++ [fe];
         sync_output_with_fences_ := sync_output_with_fences_ p |}.

(** The second loop of the constructor. *)
Definition record_command_list (executor : ZeroExecutor)
           (query : option nat)
           (inputTensorsData outputTensorsData : list (option TensorData))
           (numberOfCommandLists : nat) (i : nat) (p : Pipeline)
  : M Driver Pipeline :=
  bind_arguments "inputTensorsData" (input_descriptors executor)
                 inputTensorsData i numberOfCommandLists ;;;
  bind_arguments "outputTensorsData" (output_descriptors executor)
                 outputTensorsData i numberOfCommandLists ;;;
  p <- match _npu_profiling p with
       | Some prof =>
           p <- at_command_list i (fun cl => ret (appendBarrier cl)) p ;;
           at_command_list i
             (fun cl => ret (appendNpuTimestamp (npu_ts_infer_start prof) cl)) p
       | None => ret p
       end ;;
  p <- at_command_list i (appendGraphExecute (graph executor) query) p ;;
  p <- match _npu_profiling p with
       | Some prof =>
           p <- at_command_list i (fun cl => ret (appendBarrier cl)) p ;;
           at_command_list i
             (fun cl => ret (appendNpuTimestamp (npu_ts_infer_end prof) cl)) p
       | None => ret p
       end ;;
  p <- (if sync_output_with_fences_ p then ret p
        else
          p <- at_command_list i (fun cl => ret (appendBarrier cl)) p ;;
          ev <- lift (vector_at "_events" (_events p) i) ;;
          at_command_list i (fun cl => ret (AppendSignalEvent ev cl)) p) ;;
  at_command_list i (fun cl => ret (close cl)) p.

(** [Pipeline::Pipeline].  [sync_output_with_fences] is the value the
    class declaration gives the member [sync_output_with_fences_]. *)
Definition Pipeline_new (executor : ZeroExecutor)
           (profiling_pool : ProfilingPool)
           (npu_profiling : option NpuInferProfiling)
           (inputTensorsData outputTensorsData : list (option TensorData))
           (numberOfCommandLists : nat)
           (sync_output_with_fences : bool) : M Driver Pipeline :=
  pool <- EventPool_new (if Nat.eqb numberOfCommandLists 0 then 1
                         else to_uint32 (Z.of_nat numberOfCommandLists)) ;;
  query <- (if create_succeeds profiling_pool
            then h <- allocate ;; ret (Some h)
            else ret None) ;;
  p <- for_range 0 numberOfCommandLists (emplace_back_primitives executor)
         {| _event_pool := pool; _npu_profiling := npu_profiling;
            _command_lists := []; _events := []; _fences := [];
            sync_output_with_fences_ := sync_output_with_fences |} ;;
  for_range 0 numberOfCommandLists
    (record_command_list executor query inputTensorsData outputTensorsData
                         numberOfCommandLists) p.

(** [Pipeline::push] *)
Definition push (p : Pipeline) : M Driver unit :=
  for_range 0 (length (_command_lists p))
    (fun i _ =>
       cl <- lift (vector_at "_command_lists" (_command_lists p) i) ;;
       if sync_output_with_fences_ p then
         fe <- lift (vector_at "_fences" (_fences p) i) ;;
         executeCommandList cl (Some fe)
       else executeCommandList cl None)
    tt.

(** [_fences.at(i)->hostSynchronize()]: returns once the fence is
    signaled. *)
Definition Fence_hostSynchronize (i : nat) (p : Pipeline) : M Driver Pipeline :=
  lift (vector_at "_fences" (_fences p) i) ;;;
  p' <- device_completes p ;;
  match _fences p' !! i with
  | Some fe => if fence_signaled fe then ret p'
               else throw (never_returns "zeFenceHostSynchronize")
  | None => throw (out_of_range "_fences")
  end.

(** [_events.at(i)->hostSynchronize()] *)
Definition Event_hostSynchronize (i : nat) (p : Pipeline) : M Driver Pipeline :=
  lift (vector_at "_events" (_events p) i) ;;;
  p' <- device_completes p ;;
  match _events p' !! i with
  | Some ev => if ev_signaled ev then ret p'
               else throw (never_returns "zeEventHostSynchronize")
  | None => throw (out_of_range "_events")
  end.

(** [Pipeline::pull]; sampling the profiling timestamps reads device
    memory and changes nothing that is modelled here. *)
Definition pull (p : Pipeline) : M Driver Pipeline :=
  for_range 0 (length (_command_lists p))
    (fun i p =>
       if sync_output_with_fences_ p then Fence_hostSynchronize i p
       else Event_hostSynchronize i p)
    p.

(** [Pipeline::reset] *)
Definition reset (p : Pipeline) : M Driver Pipeline :=
  for_range 0 (length (_command_lists p))
    (fun i p =>
       if sync_output_with_fences_ p then
         fe <- lift (vector_at "_fences" (_fences p) i) ;;
         ret (with_fences p (<[i := Fence_reset fe]> (_fences p)))
       else
         ev <- lift (vector_at "_events" (_events p) i) ;;
         ret (with_events p (<[i := Event_reset ev]> (_events p))))
    p.

(** [Pipeline::updateCommandList] *)
Definition updateCommandList (tensorsData : TensorData) (index : N)
           (p : Pipeline) : M Driver Pipeline :=
  let numberOfCommandLists := length (_command_lists p) in
  for_range 0 numberOfCommandLists
    (fun i p =>
       p <- at_command_list i
              (fun cl => ret (updateMutableCommandList
                                index
                                (slice_address tensorsData i numberOfCommandLists)
                                cl)) p ;;
       at_command_list i (fun cl => ret (close cl)) p)
    p.

(** One round of reuse: [reset(); push(); pull();] *)
Definition reset_push_pull (p : Pipeline) : M Driver Pipeline :=
  p <- reset p ;;
  push p ;;;
  pull p.

Fixpoint repeat_reset_push_pull (rounds : nat) (p : Pipeline) : M Driver Pipeline :=
  match rounds with
  | O => ret p
  | Datatypes.S r => p <- reset_push_pull p ;; repeat_reset_push_pull r p
  end.

End ZeroPipeline.

(* ===================================================================== *)
(** ** What the adapter and the graph see of the world                   *)
(* ===================================================================== *)

Module Runtime.

(** [ov::log::Level] *)
Inductive Level : Type := NO | ERR | WARNING | INFO | DEBUG | TRACE.
Definition level_rank (l : Level) : Z :=
  match l with
  | NO => -1 | ERR => 0 | WARNING => 1 | INFO => 2 | DEBUG => 3 | TRACE => 4
  end.

(** A call on a [Logger]: the level of the call and the message; the
    two sized reports of the export functions keep their numbers. *)
Inductive LogEntry : Type :=
| log (l : Level) (msg : string)
| log_blob_size (blob_size : Z) (hash : Z)
| log_split_blob_size (blob_size : Z) (with_weights : Z).

(** Calls that leave the object, in the order they are made. *)
Inductive Call : Type :=
| call_getGraphHandle (blob : list byte)
| call_setGraphArgumentValue (handle : option nat) (argi : N) (argv : Z)
| call_destroyGraph (handle : nat)
| call_initializeGraph (handle : nat) (ordinal : Z)
| call_compileWS_v2
| call_compileWS_v3 (fresh_clone : bool) (i : Z)
| release_last_submitted_event (slots : nat)
| release_command_queue (queue_handle : nat).

Record World : Type := { logged : list LogEntry; calls : list Call }.

Definition emit (e : LogEntry) : M World unit :=
  modify (fun w => {| logged := logged w ++ [e]; calls := calls w |}).
Definition debug (msg : string) : M World unit := emit (log DEBUG msg).
Definition info (msg : string) : M World unit := emit (log INFO msg).
Definition error (msg : string) : M World unit := emit (log ERR msg).
Definition record (c : Call) : M World unit :=
  modify (fun w => {| logged := logged w; calls := calls w ++ [c] |}).

(** [THROW_ON_FAIL_FOR_LEVELZERO_EXT(call, result, ddi)] *)
Definition THROW_ON_FAIL {S} (call : string) (result : ze_result_t) : M S unit :=
  match result with
  | ZE_RESULT_SUCCESS => ret tt
  | _ => throw (ze_failure call result)
  end.

Inductive ze_graph_argument_type_t : Type :=
| ZE_GRAPH_ARGUMENT_TYPE_INPUT
| ZE_GRAPH_ARGUMENT_TYPE_OUTPUT.

Inductive BatchMode : Type := AUTO | COMPILER | PLUGIN.

(** The options read from [Config]; [has<OPT>()] is [is_Some]. *)
Record Config : Type :=
  { CREATE_EXECUTOR : bool;
    DEFER_WEIGHTS_LOAD : bool;
    LOG_LEVEL : Level;
    TURBO : option bool;
    MODEL_PRIORITY : Z;
    WORKLOAD_TYPE : option Z;
    BATCH_MODE : BatchMode;
    RUN_INFERENCES_SEQUENTIALLY : bool;
    SEPARATE_WEIGHTS_VERSION : Z }.

(** The driver behind [ZeGraphExtWrappers] and the graph DDI table: the
    status, and the value where there is one, that each entry point
    answers with. *)
Record ZeGraphExtWrappers : Type :=
  { pfnCreate : list byte -> ze_result_t * nat;
    pfnSetArgumentValue : option nat -> N -> Z -> ze_result_t;
    pfnGraphInitialize : nat -> Z -> ze_result_t;
    pfnDestroy : nat -> ze_result_t;
    pfnGetProperties : nat -> ze_result_t * nat;
    pfnGetArgumentProperties3 : nat -> nat -> ze_result_t * ze_graph_argument_type_t;
    zeDeviceGetCommandQueueGroupProperties : ze_result_t * Z;
    zeCommandQueueCreate : Z -> Z -> bool -> ze_result_t * nat;
    zeSetWorkloadType : Z -> ze_result_t }.

(** Modelled from the spec: [ZeGraphExtWrappers::getGraphHandle] creates
    the graph handle from the compiled bytes and throws when the driver
    reports a failure. *)
Definition getGraphHandle (ext : ZeGraphExtWrappers) (blob : list byte)
  : M World nat :=
  record (call_getGraphHandle blob) ;;;
  THROW_ON_FAIL "pfnCreate2" (fst (pfnCreate ext blob)) ;;;
  ret (snd (pfnCreate ext blob)).

(** Modelled from the spec: [ZeGraphExtWrappers::setGraphArgumentValue]
    passes the handle to the driver and throws on a failure status. *)
Definition setGraphArgumentValue (ext : ZeGraphExtWrappers)
           (handle : option nat) (argi : N) (argv : Z) : M World unit :=
  record (call_setGraphArgumentValue handle argi argv) ;;;
  THROW_ON_FAIL "zeGraphSetArgumentValue" (pfnSetArgumentValue ext handle argi argv).

(** Modelled from the spec: [ZeGraphExtWrappers::initializeGraph]. *)
Definition initializeGraph (ext : ZeGraphExtWrappers) (handle : nat)
           (ordinal : Z) : M World unit :=
  record (call_initializeGraph handle ordinal) ;;;
  THROW_ON_FAIL "pfnGraphInitialize" (pfnGraphInitialize ext handle ordinal).

(** Modelled from the spec: [ZeGraphExtWrappers::destroyGraph] hands the
    driver's status back to its caller. *)
Definition destroyGraph (ext : ZeGraphExtWrappers) (handle : nat)
  : M World ze_result_t :=
  record (call_destroyGraph handle) ;;;
  ret (pfnDestroy ext handle).

End Runtime.
Import Runtime.

(* ===================================================================== *)
(** ** compiler_adapter/src/plugin_graph.cpp                             *)
(* ===================================================================== *)

Module PluginGraph.

(** *** [std::ostream] *)

(** The bytes the sink has taken, how many more it takes ([None]: no
    limit) and whether [failbit] or [badbit] is set ([!stream]). *)
Record ostream : Type :=
  { written : list byte; room : option nat; failed : bool }.

(** [stream.write(ptr, n)]: nothing is written once the stream has
    failed; a sink that runs full takes what fits and fails. *)
Definition write (bs : list byte) (s : ostream) : ostream :=
  if failed s then s
  else match room s with
       | None => {| written := written s ++ bs; room := None; failed := false |}
       | Some r =>
           if (length bs <=? r)%nat
           then {| written := written s ++ bs;
                   room := Some (r - length bs)%nat; failed := false |}
           else {| written := written s ++ take r bs;
                   room := Some O; failed := true |}
       end.

(** [stream << buf.rdbuf()]: inserts the characters of the buffer and
    sets [failbit] when none was inserted. *)
Definition insert_streambuf (content : list byte) (s : ostream) : ostream :=
  if failed s then s
  else match content with
       | [] => {| written := written s; room := room s; failed := true |}
       | _ => write content s
       end.

Fixpoint uint_bytes (u : Decimal.uint) : list byte :=
  match u with
  | Decimal.Nil => []
  | Decimal.D0 u => x30 :: uint_bytes u
  | Decimal.D1 u => x31 :: uint_bytes u
  | Decimal.D2 u => x32 :: uint_bytes u
  | Decimal.D3 u => x33 :: uint_bytes u
  | Decimal.D4 u => x34 :: uint_bytes u
  | Decimal.D5 u => x35 :: uint_bytes u
  | Decimal.D6 u => x36 :: uint_bytes u
  | Decimal.D7 u => x37 :: uint_bytes u
  | Decimal.D8 u => x38 :: uint_bytes u
  | Decimal.D9 u => x39 :: uint_bytes u
  end.

(** The characters [operator<<] formats an unsigned integer to, under the
    flags a stream starts with: its decimal digits, most significant
    first. *)
Definition decimal (n : Z) : list byte := uint_bytes (N.to_uint (Z.to_N n)).

(** [stream << n] for [uint32_t n] *)
Definition insert_uint32 (n : Z) (s : ostream) : ostream := write (decimal n) s.

(** [stream << c] for [char c] *)
Definition insert_char (c : byte) (s : ostream) : ostream := write [c] s.

(** *** The graph object *)

Record NetworkMetadata : Type :=
  { name : string;
    (** what [IGraph::get_batch_size] derives from the shapes *)
    batch_size_from_shapes : option Z }.

Record ArgumentDescriptor : Type :=
  { info : ze_graph_argument_type_t; idx : N }.

Record PluginGraph : Type :=
  { _zeGraphExt : option ZeGraphExtWrappers;
    _handle : option nat;
    _metadata : NetworkMetadata;
    _blobPtr : list byte;
    _logger_level : Level;
    _input_descriptors : list ArgumentDescriptor;
    _output_descriptors : list ArgumentDescriptor;
    _command_queue_group_ordinal : Z;
    _command_queue : option nat;
    _batch_size : option Z;
    _last_submitted_event : list (option nat) }.

Definition blob_size (g : PluginGraph) : Z := Z.of_nat (length (_blobPtr g)).

Definition set_handle (h : option nat) (g : PluginGraph) : PluginGraph :=
  {| _zeGraphExt := _zeGraphExt g; _handle := h; _metadata := _metadata g;
     _blobPtr := _blobPtr g; _logger_level := _logger_level g;
     _input_descriptors := _input_descriptors g;
     _output_descriptors := _output_descriptors g;
     _command_queue_group_ordinal := _command_queue_group_ordinal g;
     _command_queue := _command_queue g; _batch_size := _batch_size g;
     _last_submitted_event := _last_submitted_event g |}.
Definition set_descriptors (ins outs : list ArgumentDescriptor)
           (g : PluginGraph) : PluginGraph :=
  {| _zeGraphExt := _zeGraphExt g; _handle := _handle g; _metadata := _metadata g;
     _blobPtr := _blobPtr g; _logger_level := _logger_level g;
     _input_descriptors := ins; _output_descriptors := outs;
     _command_queue_group_ordinal := _command_queue_group_ordinal g;
     _command_queue := _command_queue g; _batch_size := _batch_size g;
     _last_submitted_event := _last_submitted_event g |}.
Definition set_command_queue_group_ordinal (ordinal : Z)
           (g : PluginGraph) : PluginGraph :=
  {| _zeGraphExt := _zeGraphExt g; _handle := _handle g; _metadata := _metadata g;
     _blobPtr := _blobPtr g; _logger_level := _logger_level g;
     _input_descriptors := _input_descriptors g;
     _output_descriptors := _output_descriptors g;
     _command_queue_group_ordinal := ordinal;
     _command_queue := _command_queue g; _batch_size := _batch_size g;
     _last_submitted_event := _last_submitted_event g |}.
Definition set_command_queue (q : option nat) (g : PluginGraph) : PluginGraph :=
  {| _zeGraphExt := _zeGraphExt g; _handle := _handle g; _metadata := _metadata g;
     _blobPtr := _blobPtr g; _logger_level := _logger_level g;
     _input_descriptors := _input_descriptors g;
     _output_descriptors := _output_descriptors g;
     _command_queue_group_ordinal := _command_queue_group_ordinal g;
     _command_queue := q; _batch_size := _batch_size g;
     _last_submitted_event := _last_submitted_event g |}.
Definition set_batch_size (b : option Z) (g : PluginGraph) : PluginGraph :=
  {| _zeGraphExt := _zeGraphExt g; _handle := _handle g; _metadata := _metadata g;
     _blobPtr := _blobPtr g; _logger_level := _logger_level g;
     _input_descriptors := _input_descriptors g;
     _output_descriptors := _output_descriptors g;
     _command_queue_group_ordinal := _command_queue_group_ordinal g;
     _command_queue := _command_queue g; _batch_size := b;
     _last_submitted_event := _last_submitted_event g |}.
Definition set_last_submitted_event (l : list (option nat))
           (g : PluginGraph) : PluginGraph :=
  {| _zeGraphExt := _zeGraphExt g; _handle := _handle g; _metadata := _metadata g;
     _blobPtr := _blobPtr g; _logger_level := _logger_level g;
     _input_descriptors := _input_descriptors g;
     _output_descriptors := _output_descriptors g;
     _command_queue_group_ordinal := _command_queue_group_ordinal g;
     _command_queue := _command_queue g; _batch_size := _batch_size g;
     _last_submitted_event := l |}.

(** [PluginGraph::initialize].  Modelled from the spec: every driver call
    answers with a status and a status other than success is thrown;
    this holds for [findCommandQueueGroupOrdinal], the constructor of
    [CommandQueue] and [set_workload_type] as for the calls checked in
    place. *)
Definition initialize (config : Config) (g : PluginGraph) : M World PluginGraph :=
  match _zeGraphExt g, _handle g with
  | Some ext, Some h =>
      debug "Graph initialize start" ;;;
      debug "performing pfnGetProperties" ;;;
      THROW_ON_FAIL "pfnGetProperties" (fst (pfnGetProperties ext h)) ;;;
      let numGraphArgs := snd (pfnGetProperties ext h) in
      debug "performing pfnGetArgumentProperties3" ;;;
      g <- for_range 0 numGraphArgs
             (fun index g =>
                THROW_ON_FAIL "pfnGetArgumentProperties3"
                              (fst (pfnGetArgumentProperties3 ext h index)) ;;;
                let arg3 := snd (pfnGetArgumentProperties3 ext h index) in
                let d := {| info := arg3; idx := N.of_nat index |} in
                match arg3 with
                | ZE_GRAPH_ARGUMENT_TYPE_INPUT =>
                    ret (set_descriptors (_input_descriptors g ++ [d])
                                         (_output_descriptors g) g)
                | _ =>
                    ret (set_descriptors (_input_descriptors g)
                                         (_output_descriptors g ++ [d]) g)
                end)
             g ;;
      THROW_ON_FAIL "zeDeviceGetCommandQueueGroupProperties"
                    (fst (zeDeviceGetCommandQueueGroupProperties ext)) ;;;
      let ordinal := snd (zeDeviceGetCommandQueueGroupProperties ext) in
      let g := set_command_queue_group_ordinal ordinal g in
      let turbo := match TURBO config with Some t => t | None => false end in
      THROW_ON_FAIL "zeCommandQueueCreate"
                    (fst (zeCommandQueueCreate ext (MODEL_PRIORITY config) ordinal turbo)) ;;;
      let g := set_command_queue
                 (Some (snd (zeCommandQueueCreate ext (MODEL_PRIORITY config)
                                                  ordinal turbo))) g in
      match WORKLOAD_TYPE config with
      | Some wt => THROW_ON_FAIL "zeSetWorkloadType" (zeSetWorkloadType ext wt)
      | None => ret tt
      end ;;;
      initializeGraph ext h ordinal ;;;
      let g := match BATCH_MODE config with
               | COMPILER => g
               | _ => set_batch_size (batch_size_from_shapes (_metadata g)) g
               end in
      let g := if RUN_INFERENCES_SEQUENTIALLY config then
                 let number_of_command_lists :=
                   match _batch_size g with Some b => b | None => 1 end in
                 set_last_submitted_event
                   (take (Z.to_nat number_of_command_lists) (_last_submitted_event g)
                    ++ replicate (Z.to_nat number_of_command_lists
                                  - length (_last_submitted_event g))%nat None) g
               else g in
      debug "Graph initialize finish" ;;;
      ret g
  | _, _ => ret g
  end.

(** The notice of the constructor; the source puts the word Graph in
    double quotes. *)
Definition deferred_message : string :=
  String.append "Graph initialize is deferred from the "
                (String.append (quoted "Graph") " constructor").

(** [PluginGraph::PluginGraph] *)
Definition PluginGraph_new (zeGraphExt : option ZeGraphExtWrappers)
           (graphHandle : option nat) (metadata : NetworkMetadata)
           (blobPtr : list byte) (config : Config) : M World PluginGraph :=
  let g := {| _zeGraphExt := zeGraphExt; _handle := graphHandle;
              _metadata := metadata; _blobPtr := blobPtr;
              _logger_level := LOG_LEVEL config;
              _input_descriptors := []; _output_descriptors := [];
              _command_queue_group_ordinal := 0; _command_queue := None;
              _batch_size := None; _last_submitted_event := [] |} in
  if negb (CREATE_EXECUTOR config) || DEFER_WEIGHTS_LOAD config then
    Runtime.info deferred_message ;;;
    ret g
  else initialize config g.

(** *** Export *)

Definition size_t_add (a b : Z) : Z := (a + b) mod size_t_max.

Definition level_at_least_INFO (g : PluginGraph) : bool :=
  level_rank INFO <=? level_rank (_logger_level g).

(** [PluginGraph::custom_export].  [xmlContent] and [binContent] are
    what the [Serialize] pass wrote for [initModel]. *)
Definition custom_export (g : PluginGraph) (stream : ostream)
           (initGraph : PluginGraph) (xmlContent binContent : list byte)
  : M World ostream :=
  let xmlSize := to_uint32 (Z.of_nat (length xmlContent)) in
  let binSize := to_uint32 (Z.of_nat (length binContent)) in
  let stream := insert_uint32 xmlSize stream in
  let stream := insert_streambuf xmlContent stream in
  let stream := insert_uint32 binSize stream in
  let stream := insert_streambuf binContent stream in
  let mainBlobSize := to_uint32 (blob_size g) in
  let stream := insert_uint32 mainBlobSize stream in
  let stream := write (_blobPtr g) stream in
  let initBlobSize := to_uint32 (blob_size initGraph) in
  let stream := insert_uint32 initBlobSize stream in
  let stream := write (_blobPtr initGraph) stream in
  if failed stream then
    error "Write blob to stream failed. Blob is broken!" ;;; ret stream
  else
    (if level_at_least_INFO g then
       emit (log_split_blob_size
               (size_t_add (blob_size g) (blob_size initGraph))
               (size_t_add (size_t_add (size_t_add (size_t_add
                  (blob_size g) (blob_size initGraph)) (4 * 4)) xmlSize) binSize))
     else ret tt) ;;;
    Runtime.info "Write blob to stream successfully." ;;;
    ret stream.

(** The loop of [custom_export_split_init]; the flag says that the
    function returned from inside the loop. *)
Fixpoint write_init_blobs (initGraphs : list PluginGraph) (stream : ostream)
  : M World (ostream * bool) :=
  match initGraphs with
  | [] => ret (stream, false)
  | initGraph :: rest =>
      let initBlobSize := to_uint32 (blob_size initGraph) in
      let stream := insert_uint32 initBlobSize stream in
      let stream := write (_blobPtr initGraph) stream in
      if failed stream then
        error "Write blob to stream failed. Blob is broken!" ;;;
        ret (stream, true)
      else write_init_blobs rest stream
  end.

(** [PluginGraph::custom_export_split_init] *)
Definition custom_export_split_init (g : PluginGraph) (stream : ostream)
           (initGraphs : list PluginGraph) (xmlContent binContent : list byte)
  : M World ostream :=
  let xmlSize := to_uint32 (Z.of_nat (length xmlContent)) in
  let binSize := to_uint32 (Z.of_nat (length binContent)) in
  let stream := insert_uint32 xmlSize stream in
  let stream := insert_streambuf xmlContent stream in
  let stream := insert_uint32 binSize stream in
  let stream := insert_streambuf binContent stream in
  let mainBlobSize := to_uint32 (blob_size g) in
  let stream := insert_uint32 mainBlobSize stream in
  let stream := write (_blobPtr g) stream in
  let initCount := to_uint32 (Z.of_nat (length initGraphs)) in
  let stream := insert_uint32 initCount stream in
  let stream := insert_char x3a stream in
  r <- write_init_blobs initGraphs stream ;;
  let '(stream, returned) := r in
  if returned then ret stream
  else
    (if level_at_least_INFO g then
       let totalInitBlobSize :=
         fold_left (fun i graph => size_t_add i (blob_size graph)) initGraphs 0 in
       emit (log_split_blob_size
               (size_t_add (blob_size g) totalInitBlobSize)
               (size_t_add (size_t_add (size_t_add (size_t_add
                  (size_t_add (blob_size g) totalInitBlobSize)
                  (size_t_mul (size_t_add 4 (Z.of_nat (length initGraphs))) 4))
                  1) xmlSize) binSize)) ;;;
       Runtime.info "Write blob to stream successfully."
     else ret tt) ;;;
    ret stream.

Definition byte_value (b : byte) : Z := Z.of_N (Byte.to_N b).

(** [PluginGraph::export_blob] *)
Definition export_blob (g : PluginGraph) (stream : ostream)
  : M World (Z * ostream) :=
  let stream := write (_blobPtr g) stream in
  if failed stream then
    error "Write blob to stream failed. Blob is broken!" ;;;
    ret (0, stream)
  else
    (if level_at_least_INFO g then
       let result :=
         fold_left (fun result it =>
                      to_uint32 (to_uint32 (to_uint32 (Z.shiftl result 7) + result)
                                 + byte_value it))
                   (_blobPtr g) 1171117 in
       emit (log_blob_size (blob_size g) result)
     else ret tt) ;;;
    Runtime.info "Write blob to stream successfully." ;;;
    ret (blob_size g, stream).

(** [PluginGraph::set_argument_value] *)
Definition set_argument_value (g : PluginGraph) (argi : N) (argv : Z)
  : M World unit :=
  match _zeGraphExt g with
  | None => throw (ov_Exception "Zero compiler adapter wasn't initialized" "")
  | Some ext => setGraphArgumentValue ext (_handle g) argi argv
  end.

(** [PluginGraph::~PluginGraph] *)
Definition PluginGraph_destructor (g : PluginGraph) : M World PluginGraph :=
  g <- match _handle g with
       | Some h =>
           ext <- lift (deref "_zeGraphExt" (_zeGraphExt g)) ;;
           result <- destroyGraph ext h ;;
           match result with
           | ZE_RESULT_SUCCESS => ret (set_handle None g)
           | _ => ret g
           end
       | None => ret g
       end ;;
  g <- match length (_last_submitted_event g) with
       | O => ret g
       | n => record (release_last_submitted_event n) ;;;
              ret (set_last_submitted_event [] g)
       end ;;
  match _command_queue g with
  | Some q => record (release_command_queue q) ;;; ret (set_command_queue None g)
  | None => ret g
  end.

End PluginGraph.

(* ===================================================================== *)
(** ** compiler_adapter/src/plugin_compiler_adapter.cpp                  *)
(* ===================================================================== *)

Module PluginCompilerAdapter.
Import PluginGraph.

(** [ov::Model] is opaque to the adapter. *)
Inductive Model : Type := ov_Model (id : nat).

Record NetworkDescription : Type :=
  { compiledNetwork : list byte; metadata : NetworkMetadata }.

(** The compiler behind [ICompiler], taken to return from every call.
    [compileWS_v2] and [compileWS_v3] are called repeatedly: the list
    holds the segments successive calls answer with, every later call
    answers with a null pointer. *)
Record ICompiler : Type :=
  { compile_model : Model -> Config -> NetworkDescription;
    compileWS_v1 : Model -> Config -> list NetworkDescription;
    compileWS_v2 : Model -> Config -> list NetworkDescription;
    compileWS_v3 : Model -> Config -> list NetworkDescription;
    parse_blob : list byte -> Config -> NetworkMetadata;
    get_compiler_version : Z }.

Record PluginCompilerAdapter : Type :=
  { _compiler : ICompiler;
    _zeGraphExt : option ZeGraphExtWrappers }.

(** [OPENVINO_ASSERT(cond, msg, detail)] *)
Definition OPENVINO_ASSERT {S} (cond : bool) (msg detail : string) : M S unit :=
  if cond then ret tt else throw (ov_Exception msg detail).

Definition handle_failure_message : string :=
  "Failed to obtain the level zero graph handle. Inference requests for this model are not allowed. Only exports are available".

(** [if (_zeGraphExt) { try { graphHandle = _zeGraphExt->getGraphHandle(blob); }
    catch (...) { _logger.info(...); } }] with [graphHandle] null before. *)
Definition try_getGraphHandle (a : PluginCompilerAdapter) (blob : list byte)
  : M World (option nat) :=
  match _zeGraphExt a with
  | Some ext =>
      try_catch (h <- getGraphHandle ext blob ;; ret (Some h))
                (Runtime.info handle_failure_message ;;; ret None)
  | None => ret None
  end.

(** [PluginCompilerAdapter::compile] *)
Definition compile (a : PluginCompilerAdapter) (model : Model) (config : Config)
  : M World PluginGraph :=
  debug "compile start" ;;;
  let networkDesc := compile_model (_compiler a) model config in
  debug "compile end" ;;;
  graphHandle <- try_getGraphHandle a (compiledNetwork networkDesc) ;;
  PluginGraph_new (_zeGraphExt a) graphHandle (metadata networkDesc)
                  (compiledNetwork networkDesc) config.

(** [str.substr(0, prefix.size()) == prefix] *)
Definition starts_with (str : string) (prefix : string) : bool :=
  String.eqb (String.substring 0 (String.length prefix) str) prefix.
Definition isInit (name : string) : bool := starts_with name "init".
Definition isMain (name : string) : bool := starts_with name "main".

(** The loop of [case 2]: the descriptions collected as "init" and the
    one kept as "main" (null when the compiler stopped answering). *)
Fixpoint collect_v2 (replies : list NetworkDescription)
         (initDscrs : list NetworkDescription)
  : M World (list NetworkDescription * option NetworkDescription) :=
  record call_compileWS_v2 ;;;
  match replies with
  | [] => ret (initDscrs, None)
  | networkDescription :: replies' =>
      if isInit (name (metadata networkDescription)) then
        collect_v2 replies' (initDscrs ++ [networkDescription])
      else
        OPENVINO_ASSERT (isMain (name (metadata networkDescription)))
                        "Unexpected network name: "
                        (name (metadata networkDescription)) ;;;
        ret (initDscrs, Some networkDescription)
  end.

(** The loop of [case 3]: [fresh_clone] says that [targetModel] is a
    clone of the original model rather than the caller's model, [i] is
    the counter passed to the compiler. *)
Fixpoint collect_v3 (replies : list NetworkDescription)
         (fresh_clone : bool) (i : Z)
         (initDscrs : list NetworkDescription)
  : M World (list NetworkDescription * option NetworkDescription) :=
  record (call_compileWS_v3 fresh_clone i) ;;;
  match replies with
  | [] => ret (initDscrs, None)
  | networkDescription :: replies' =>
      if isInit (name (metadata networkDescription)) then
        collect_v3 replies' true (size_t_add i 1) (initDscrs ++ [networkDescription])
      else
        OPENVINO_ASSERT (isMain (name (metadata networkDescription)))
                        "Unexpected network name: "
                        (name (metadata networkDescription)) ;;;
        ret (initDscrs, Some networkDescription)
  end.

(** The body of the loop of [case 1]. *)
Definition wrap_segment (a : PluginCompilerAdapter) (config : Config)
           (networkDesc : NetworkDescription)
           (results : list PluginGraph) : M World (list PluginGraph) :=
  graphHandle <- try_getGraphHandle a (compiledNetwork networkDesc) ;;
  g <- PluginGraph_new (_zeGraphExt a) graphHandle (metadata networkDesc)
                       (compiledNetwork networkDesc) config ;;
  ret (results ++ [g]).

(** What follows the [switch] for [case 2] and [case 3]. *)
Definition wrap_init_main (a : PluginCompilerAdapter) (config : Config)
           (initNetworkDescription : NetworkDescription)
           (mainNetworkDescription : option NetworkDescription)
  : M World (list PluginGraph) :=
  debug "compile end" ;;;
  (* one try block in the source: the assignment to initGraphHandle
     stays when the second call throws *)
  handles <-
    match _zeGraphExt a with
    | Some ext =>
        try_catch
          (initGraphHandle <-
             getGraphHandle ext (compiledNetwork initNetworkDescription) ;;
           main <- lift (deref "mainNetworkDescription" mainNetworkDescription) ;;
           try_catch
             (mainGraphHandle <- getGraphHandle ext (compiledNetwork main) ;;
              ret (Some initGraphHandle, Some mainGraphHandle))
             (Runtime.info handle_failure_message ;;;
              ret (Some initGraphHandle, None)))
          (Runtime.info handle_failure_message ;;; ret (None, None))
    | None => ret (None, None)
    end ;;
  let '(initGraphHandle, mainGraphHandle) := handles in
  initPluginGraph <-
    PluginGraph_new (_zeGraphExt a) initGraphHandle
                    (metadata initNetworkDescription)
                    (compiledNetwork initNetworkDescription) config ;;
  main <- lift (deref "mainNetworkDescription" mainNetworkDescription) ;;
  mainPluginGraph <-
    PluginGraph_new (_zeGraphExt a) mainGraphHandle
                    (metadata main) (compiledNetwork main) config ;;
  ret [initPluginGraph; mainPluginGraph].

(** The message of the [default] label of [compileWS]; the source puts
    the name of the option and the name of the function in double
    quotes. *)
Definition invalid_version_message : string :=
  String.append
    "Invalid "
    (String.append
       (quoted "SEPARATE_WEIGHTS_VERSION")
       (String.append " value found within the "
                      (String.append (quoted "compileWS") " call"))).

(** [PluginCompilerAdapter::compileWS]; the elapsed time printed to
    [std::cout] is left out. *)
Definition compileWS (a : PluginCompilerAdapter) (model : Model) (config : Config)
  : M World (list PluginGraph) :=
  debug "compile start" ;;;
  match SEPARATE_WEIGHTS_VERSION config with
  | 1 =>
      let initMainNetworkDescriptions := compileWS_v1 (_compiler a) model config in
      last_one <- lift (vector_back "initMainNetworkDescriptions.back()"
                                    initMainNetworkDescriptions) ;;
      OPENVINO_ASSERT (isMain (name (metadata last_one)))
                      "Unexpected network name for main:"
                      (name (metadata last_one)) ;;;
      for_each initMainNetworkDescriptions (wrap_segment a config) []
  | 2 =>
      r <- collect_v2 (compileWS_v2 (_compiler a) model config) [] ;;
      let '(initDscrs, mainNetworkDescription) := r in
      (* FIXME (in the source) *)
      initNetworkDescription <- lift (vector_index "initDscrs[0]" initDscrs 0) ;;
      wrap_init_main a config initNetworkDescription mainNetworkDescription
  | 3 =>
      r <- collect_v3 (compileWS_v3 (_compiler a) model config) false 0 [] ;;
      let '(initDscrs, mainNetworkDescription) := r in
      (* FIXME (in the source) *)
      initNetworkDescription <- lift (vector_index "initDscrs[0]" initDscrs 0) ;;
      wrap_init_main a config initNetworkDescription mainNetworkDescription
  | _ =>
      throw (ov_Exception invalid_version_message "")
  end.

(** [PluginCompilerAdapter::parse] *)
Definition parse (a : PluginCompilerAdapter) (network : list byte) (config : Config)
  : M World PluginGraph :=
  debug "parse start" ;;;
  let networkMeta := parse_blob (_compiler a) network config in
  debug "parse end" ;;;
  graphHandle <- match _zeGraphExt a with
                 | Some ext => h <- getGraphHandle ext network ;; ret (Some h)
                 | None => ret None
                 end ;;
  PluginGraph_new (_zeGraphExt a) graphHandle networkMeta network config.

End PluginCompilerAdapter.

(* ===================================================================== *)
(** ** compiler_adapter/src/plugin_compiler_adapter.cpp: the constructor  *)
(* ===================================================================== *)

Module AdapterConstruction.
Import PluginGraph PluginCompilerAdapter.

(** [ZeroInitStructsHolder], as far as the adapter uses it: the graph
    extension of the driver and the version of its DDI table. *)
Record ZeroInitStructsHolder : Type :=
  { getGraphDdiTable : ZeGraphExtWrappers;
    graphExtVersion : Z }.

(** What [loadCompiler] finds when it loads the shared object of the MLIR
    compiler and calls its [CreateNPUCompiler]: loading throws when the
    library or the symbol is missing; the factory of the library is
    taken to give a compiler. *)
Record Platform : Type :=
  { loadCompiler : outcome ICompiler }.

(** [PluginCompilerAdapter::PluginCompilerAdapter]; the numbers formatted
    into the last message are left out.  Modelled from the spec: the
    constructor of [ZeGraphExtWrappers] wraps the graph extension of the
    driver and does not throw. *)
Definition PluginCompilerAdapter_new (platform : Platform)
           (zeroInitStruct : option ZeroInitStructsHolder)
  : M World PluginCompilerAdapter :=
  debug "initialize PluginCompilerAdapter start" ;;;
  Runtime.info "MLIR compiler will be used." ;;;
  compiler <- lift (loadCompiler platform) ;;
  match zeroInitStruct with
  | None => ret {| _compiler := compiler; _zeGraphExt := None |}
  | Some s =>
      Runtime.info "PluginCompilerAdapter creating adapter using graphExtVersion" ;;;
      let zeGraphExt := getGraphDdiTable s in
      Runtime.info
        "initialize PluginCompilerAdapter complete, using graphExtVersion: %d.%d" ;;;
      ret {| _compiler := compiler; _zeGraphExt := Some zeGraphExt |}
  end.

End AdapterConstruction.

(* ===================================================================== *)
(** ** compiler_adapter/include/compiler_adapter_factory.hpp             *)
(* ===================================================================== *)

Module CompilerAdapterFactory.
Import PluginGraph PluginCompilerAdapter AdapterConstruction.

(** [ov::intel_npu::CompilerType]; a value cast from another number
    falls to the [default] of the switch. *)
Inductive CompilerType : Type :=
| MLIR
| DRIVER
| CompilerType_of (n : Z).

(** [IEngineBackend], as far as the factory uses it. *)
Record IEngineBackend : Type :=
  { getName : string;
    getInitStructs : option ZeroInitStructsHolder }.

(** [CompilerAdapterFactory::getCompiler]; [compilerType] is
    [config.get<COMPILER_TYPE>()]. *)
Definition getCompiler (platform : Platform)
           (engineBackend : option IEngineBackend) (compilerType : CompilerType)
  : M World PluginCompilerAdapter :=
  match compilerType with
  | DRIVER | MLIR =>
      match engineBackend with
      | None => PluginCompilerAdapter_new platform None
      | Some backend =>
          if negb (String.eqb (getName backend) "LEVEL0")
          then PluginCompilerAdapter_new platform None
          else PluginCompilerAdapter_new platform (getInitStructs backend)
      end
  | CompilerType_of _ => throw (ov_Exception "Invalid NPU_COMPILER_TYPE" "")
  end.

End CompilerAdapterFactory.

(* ===================================================================== *)
(** ** Specification layer                                        *)
(* ===================================================================== *)

(** *** What a computation may throw and return *)

Module Effects.

(** [m] throws nothing but exceptions in [P]. *)
Definition throws_only {S A} (P : exception -> Prop) (m : M S A) : Prop :=
  forall s e s', m s = (Throw e, s') -> P e.

(** What [m] returns is in [Q]. *)
Definition returns {S A} (Q : A -> Prop) (m : M S A) : Prop :=
  forall s a s', m s = (Ok a, s') -> Q a.

End Effects.

(** *** The pipeline: what the claims are stated with *)

Module PipelineSpec.
Import ZeroPipeline.

(** Every descriptor has its tensor. *)
Definition tensors_cover (descriptors : list ArgumentDescriptor)
           (tensors : list (option TensorData)) : Prop :=
  forall k desc, descriptors !! k = Some desc ->
                 exists t, tensors !! k = Some (Some t).

(** The argument table after [bind_arguments]. *)
Fixpoint bound_table (descriptors : list ArgumentDescriptor)
         (tensors : list (option TensorData)) (i n : nat)
         (args : gmap N Z) : gmap N Z :=
  match descriptors, tensors with
  | desc :: descriptors', Some t :: tensors' =>
      bound_table descriptors' tensors' i n (<[idx desc := slice_address t i n]> args)
  | _, _ => args
  end.

Definition modify_list (i : nat) (f : CommandList -> CommandList)
           (p : Pipeline) : Pipeline :=
  with_command_lists p (alter f i (_command_lists p)).

(** What the second loop of the constructor makes of an open list. *)
Definition recorded_list (g : nat) (query : option nat)
           (prof : option NpuInferProfiling) (sync : bool) (ev : Event)
           (args : gmap N Z) (cl : CommandList) : CommandList :=
  let cl := match prof with
            | Some pr => appendNpuTimestamp (npu_ts_infer_start pr) (appendBarrier cl)
            | None => cl
            end in
  let cl := append (GraphExecute g args query) cl in
  let cl := match prof with
            | Some pr => appendNpuTimestamp (npu_ts_infer_end pr) (appendBarrier cl)
            | None => cl
            end in
  let cl := if sync then cl else AppendSignalEvent ev (appendBarrier cl) in
  close cl.

(** The pipeline after the first loop has run [i] times. *)
Definition fresh_primitives (pool : EventPool) (prof : option NpuInferProfiling)
           (sync : bool) (i : nat) (p : Pipeline) : Prop :=
  _event_pool p = pool /\ _npu_profiling p = prof
  /\ sync_output_with_fences_ p = sync
  /\ length (_command_lists p) = i /\ length (_events p) = i
  /\ length (_fences p) = i
  /\ (forall j cl, _command_lists p !! j = Some cl -> cl_instructions cl = [])
  /\ (forall j ev, _events p !! j = Some ev ->
                   ev_index ev = to_uint32 (Z.of_nat j)
                   /\ ev_pool ev = pool_handle pool).

(** The pipeline the constructor returns: every list holds what the
    second loop recorded, for some value [a0] of the argument table
    before the loop body ran. *)
Definition recorded (executor : ZeroExecutor) (prof : option NpuInferProfiling)
           (sync : bool) (inputs outputs : list (option TensorData))
           (n : nat) (p : Pipeline) : Prop :=
  _npu_profiling p = prof /\ sync_output_with_fences_ p = sync
  /\ length (_command_lists p) = n /\ length (_events p) = n
  /\ length (_fences p) = n
  /\ pool_count (_event_pool p)
     = (if Nat.eqb n 0 then 1 else to_uint32 (Z.of_nat n))
  /\ exists query,
    forall i, (i < n)%nat ->
      exists cl0 ev a0,
        _events p !! i = Some ev
        /\ ev_index ev = to_uint32 (Z.of_nat i)
        /\ ev_pool ev = pool_handle (_event_pool p)
        /\ cl_instructions cl0 = []
        /\ _command_lists p !! i
           = Some (recorded_list (graph executor) query prof sync ev
                     (bound_table (output_descriptors executor) outputs i n
                        (bound_table (input_descriptors executor) inputs i n a0))
                     cl0).

Definition example_executor : ZeroExecutor :=
  {| input_descriptors := [{| idx := 0%N |}];
     output_descriptors := [{| idx := 1%N |}];
     graph := 7%nat; group_ordinal := 0; MutableCommandListVersion := 1 |}.

Definition example_inputs : list (option TensorData) :=
  [Some {| mem := 4096; size := 64 |}].

Definition example_outputs : list (option TensorData) :=
  [Some {| mem := 8192; size := 30 |}].

Definition example_state : Driver :=
  {| graph_arguments := ∅; next_handle := 0; queue := [] |}.

(** What one round of the loop of [updateCommandList] makes of a list. *)
Definition updated_list (index : N) (value : Z) (cl : CommandList) : CommandList :=
  close (updateMutableCommandList index value cl).

(** The pipeline with the state of its events and fences forgotten: what
    is left are the objects it owns. *)
Definition forget_signals (p : Pipeline) : Pipeline :=
  with_fences (with_events p (Event_reset <$> _events p))
              (Fence_reset <$> _fences p).

(** [q] owns the very objects [p] owns. *)
Definition same_objects (p q : Pipeline) : Prop :=
  forget_signals p = forget_signals q.

(** A pipeline that can be submitted and waited for. *)
Definition reusable (p : Pipeline) : Prop :=
  length (_events p) = length (_command_lists p)
  /\ length (_fences p) = length (_command_lists p)
  /\ (forall i cl, _command_lists p !! i = Some cl -> cl_closed cl = true)
  /\ (sync_output_with_fences_ p = false ->
      forall i cl ev,
        _command_lists p !! i = Some cl -> _events p !! i = Some ev ->
        SignalEvent (ev_handle ev) ∈ cl_instructions cl).

(** What the wait of [pull] at index [i] looks at. *)
Definition waited_signal (p : Pipeline) (i : nat) : option bool :=
  if sync_output_with_fences_ p
  then fence_signaled <$> _fences p !! i
  else ev_signaled <$> _events p !! i.

Definition reset_result (p : Pipeline) : Pipeline :=
  if sync_output_with_fences_ p
  then with_fences p (Fence_reset <$> _fences p)
  else with_events p (Event_reset <$> _events p).

(** What the device makes of a pipeline by running a queue. *)
Definition drained (q : list Submission) (p : Pipeline) : Pipeline :=
  fold_left (fun q s => run_submission s q) q p.

Definition event_advanced (e e' : Event) : Prop :=
  Event_reset e' = Event_reset e
  /\ (ev_signaled e = true -> ev_signaled e' = true).

Definition fence_advanced (f f' : Fence) : Prop :=
  Fence_reset f' = Fence_reset f
  /\ (fence_signaled f = true -> fence_signaled f' = true).

(** [p'] is [p] with some more of its events and fences signaled. *)
Definition advanced (p p' : Pipeline) : Prop :=
  _event_pool p' = _event_pool p /\ _npu_profiling p' = _npu_profiling p
  /\ _command_lists p' = _command_lists p
  /\ sync_output_with_fences_ p' = sync_output_with_fences_ p
  /\ Forall2 event_advanced (_events p) (_events p')
  /\ Forall2 fence_advanced (_fences p) (_fences p').

Definition event_at (p : Pipeline) (i h : nat) (signaled : bool) : Prop :=
  exists e, _events p !! i = Some e /\ ev_handle e = h
            /\ (signaled = true -> ev_signaled e = true).

Definition fence_at (p : Pipeline) (i h : nat) (signaled : bool) : Prop :=
  exists f, _fences p !! i = Some f /\ fence_handle f = h
            /\ (signaled = true -> fence_signaled f = true).

(** Every wait of [pull] will be answered. *)
Definition ready (p : Pipeline) (d : Driver) : Prop :=
  forall i, (i < length (_command_lists p))%nat ->
            waited_signal (drained (queue d) p) i = Some true.

Definition example_pipeline : Pipeline :=
  match Pipeline_new example_executor {| create_succeeds := false |} None
                     example_inputs example_outputs 2 false example_state with
  | (Ok p, _) => p
  | _ => {| _event_pool := {| pool_handle := 0; pool_count := 0 |};
            _npu_profiling := None; _command_lists := []; _events := [];
            _fences := []; sync_output_with_fences_ := false |}
  end.

Definition example_state_after : Driver :=
  snd (Pipeline_new example_executor {| create_succeeds := false |} None
                    example_inputs example_outputs 2 false example_state).

Definition example_tensor : TensorData := {| mem := 12288; size := 64 |}.

End PipelineSpec.

(** *** The graph object: what the claims are stated with *)

Module GraphSpec.
Import PluginGraph.

(** What the constructor is given. *)
Definition given (g : PluginGraph) :
  option ZeGraphExtWrappers * option nat * NetworkMetadata * list byte :=
  (_zeGraphExt g, _handle g, _metadata g, _blobPtr g).

(** [m] only adds to the log: what was logged before stays, in place,
    whether [m] returns or throws. *)
Definition log_grows {A} (m : M World A) : Prop :=
  forall w r w', m w = (r, w') -> exists more, logged w' = logged w ++ more.


(** A failure of a driver call other than the creation of the handle. *)
Definition initialize_failure (e : exception) : Prop :=
  exists call status, e = ze_failure call status /\ call <> "pfnCreate2"%string.

(** The stream takes [bs] without failing. *)
Definition accepts (s : ostream) (bs : list byte) : Prop :=
  failed s = false
  /\ match room s with
     | None => True
     | Some r => (length bs <= r)%nat
     end.

Definition not_initialized : exception :=
  ov_Exception "Zero compiler adapter wasn't initialized" "".

Definition ZE_RESULT_ERROR_INVALID_NULL_HANDLE : ze_result_t :=
  ZE_RESULT_ERROR 0x78000005.

(** A driver that rejects a null graph handle and accepts all else. *)
Definition example_driver : ZeGraphExtWrappers :=
  {| pfnCreate := fun _ => (ZE_RESULT_ERROR 0x78000001, O);
     pfnSetArgumentValue :=
       fun h _ _ => match h with
                    | Some _ => ZE_RESULT_SUCCESS
                    | None => ZE_RESULT_ERROR_INVALID_NULL_HANDLE
                    end;
     pfnGraphInitialize := fun _ _ => ZE_RESULT_SUCCESS;
     pfnDestroy := fun _ => ZE_RESULT_SUCCESS;
     pfnGetProperties := fun _ => (ZE_RESULT_SUCCESS, 2%nat);
     pfnGetArgumentProperties3 :=
       fun _ i => (ZE_RESULT_SUCCESS,
                   match i with
                   | O => ZE_GRAPH_ARGUMENT_TYPE_INPUT
                   | _ => ZE_GRAPH_ARGUMENT_TYPE_OUTPUT
                   end);
     zeDeviceGetCommandQueueGroupProperties := (ZE_RESULT_SUCCESS, 0);
     zeCommandQueueCreate := fun _ _ _ => (ZE_RESULT_SUCCESS, 11%nat);
     zeSetWorkloadType := fun _ => ZE_RESULT_SUCCESS |}.

Definition example_metadata : NetworkMetadata :=
  {| name := "main"; batch_size_from_shapes := None |}.

(** The artifact [compile] returns when this driver refuses the handle. *)
Definition export_only_graph : PluginGraph :=
  {| _zeGraphExt := Some example_driver; _handle := None;
     _metadata := example_metadata; _blobPtr := [x7f; x45; x4c; x46];
     _logger_level := INFO;
     _input_descriptors := []; _output_descriptors := [];
     _command_queue_group_ordinal := 0; _command_queue := None;
     _batch_size := None; _last_submitted_event := [] |}.

Definition empty_world : World := {| logged := []; calls := [] |}.

Definition empty_stream : ostream :=
  {| written := []; room := None; failed := false |}.

(** What the destructor leaves in the call record after the handle. *)
Definition releases (g : PluginGraph) : list Call :=
  match length (_last_submitted_event g) with
  | O => []
  | n => [release_last_submitted_event n]
  end
  ++ match _command_queue g with
     | Some q => [release_command_queue q]
     | None => []
     end.

Definition realized_graph : PluginGraph :=
  {| _zeGraphExt := Some example_driver; _handle := Some 5%nat;
     _metadata := example_metadata; _blobPtr := [x7f; x45; x4c; x46];
     _logger_level := INFO;
     _input_descriptors := [{| info := ZE_GRAPH_ARGUMENT_TYPE_INPUT; idx := 0%N |}];
     _output_descriptors := [{| info := ZE_GRAPH_ARGUMENT_TYPE_OUTPUT; idx := 1%N |}];
     _command_queue_group_ordinal := 0; _command_queue := Some 11%nat;
     _batch_size := Some 2; _last_submitted_event := [None; None] |}.

End GraphSpec.

(** *** The compiler adapter: what the claims are stated with *)

Module AdapterSpec.
Import PluginGraph GraphSpec PluginCompilerAdapter.

(** The handle [try_getGraphHandle] ends with. *)
Definition realized (a : PluginCompilerAdapter) (blob : list byte) : option nat :=
  match _zeGraphExt a with
  | Some ext =>
      match fst (pfnCreate ext blob) with
      | ZE_RESULT_SUCCESS => Some (snd (pfnCreate ext blob))
      | _ => None
      end
  | None => None
  end.

(** The world [try_getGraphHandle] leaves. *)
Definition after_try (a : PluginCompilerAdapter) (blob : list byte) (w : World)
  : World :=
  match _zeGraphExt a with
  | Some ext =>
      {| logged := match fst (pfnCreate ext blob) with
                   | ZE_RESULT_SUCCESS => logged w
                   | _ => logged w ++ [log INFO handle_failure_message]
                   end;
         calls := calls w ++ [call_getGraphHandle blob] |}
  | None => w
  end.

Definition named_init (nd : NetworkDescription) : Prop :=
  isInit (name (metadata nd)) = true.

(** The adapter with this configuration builds a graph object from
    whatever it is given. *)
Definition constructs (a : PluginCompilerAdapter) (config : Config) : Prop :=
  forall h md blob w,
    exists g w', PluginGraph_new (_zeGraphExt a) h md blob config w = (Ok g, w').

(** The segments the compiler answers the repeated calls of protocol
    [version] with. *)
Definition replies (a : PluginCompilerAdapter) (model : Model) (config : Config)
           (version : Z) : list NetworkDescription :=
  if version =? 2 then compileWS_v2 (_compiler a) model config
  else compileWS_v3 (_compiler a) model config.

(** The collection loop of protocol [version]. *)
Definition collect (a : PluginCompilerAdapter) (model : Model) (config : Config)
           (version : Z)
  : M World (list NetworkDescription * option NetworkDescription) :=
  if version =? 2 then collect_v2 (compileWS_v2 (_compiler a) model config) []
  else collect_v3 (compileWS_v3 (_compiler a) model config) false 0 [].

Definition segment_of (g : PluginGraph) : NetworkMetadata * list byte :=
  (_metadata g, _blobPtr g).

Definition segment (nd : NetworkDescription) : NetworkMetadata * list byte :=
  (metadata nd, compiledNetwork nd).

(** Anything but the failure of the creation of the handle. *)
Definition not_handle_failure (e : exception) : Prop :=
  forall status, e <> ze_failure "pfnCreate2" status.

Definition invalid_version : exception :=
  ov_Exception invalid_version_message "".

(** The driver realizes no handle at all. *)
Definition rejects_all (ext : ZeGraphExtWrappers) : Prop :=
  forall blob, fst (pfnCreate ext blob) <> ZE_RESULT_SUCCESS.

Definition failure_logged (w : World) : Prop :=
  log INFO handle_failure_message ∈ logged w.

Definition export_only (g : PluginGraph) : Prop := _handle g = None.

Definition segment_named (n : string) (blob : list byte) : NetworkDescription :=
  {| compiledNetwork := blob;
     metadata := {| name := n; batch_size_from_shapes := None |} |}.

Definition init0 : NetworkDescription := segment_named "init0" [x01; x02].

Definition init1 : NetworkDescription := segment_named "init1" [x03].

Definition main0 : NetworkDescription := segment_named "main" [x7f; x45; x4c; x46].

Definition stray : NetworkDescription := segment_named "weights" [x09].

(** A compiler that emits two init segments, the main segment and a
    segment that is never asked for. *)
Definition example_compiler : ICompiler :=
  {| compile_model := fun _ _ => main0;
     compileWS_v1 := fun _ _ => [init0; main0];
     compileWS_v2 := fun _ _ => [init0; init1; main0; stray];
     compileWS_v3 := fun _ _ => [init0; init1; main0; stray];
     parse_blob := fun _ _ => metadata main0;
     get_compiler_version := 7 |}.

Definition example_adapter : PluginCompilerAdapter :=
  {| _compiler := example_compiler; _zeGraphExt := Some example_driver |}.

Definition example_config (version : Z) : Config :=
  {| CREATE_EXECUTOR := true; DEFER_WEIGHTS_LOAD := false; LOG_LEVEL := INFO;
     TURBO := None; MODEL_PRIORITY := 1; WORKLOAD_TYPE := None;
     BATCH_MODE := AUTO; RUN_INFERENCES_SEQUENTIALLY := false;
     SEPARATE_WEIGHTS_VERSION := version |}.

Definition example_model : Model := ov_Model 0.

(** The graph object of segment [nd] can be built with the handle the
    driver makes for its bytes: the initialization of that handle, when
    the configuration asks for it at once, goes through. *)
Definition constructible (a : PluginCompilerAdapter) (config : Config)
           (nd : NetworkDescription) : Prop :=
  forall h w,
    realized a (compiledNetwork nd) = Some h ->
    exists g w',
      PluginGraph_new (_zeGraphExt a) (Some h) (metadata nd) (compiledNetwork nd)
                      config w = (Ok g, w').

(** [g] is the artifact of segment [nd] with handle [h]. *)
Definition artifact_of (a : PluginCompilerAdapter) (nd : NetworkDescription)
           (h : option nat) (g : PluginGraph) : Prop :=
  given g = (_zeGraphExt a, h, metadata nd, compiledNetwork nd).

(** The driver refuses to make a handle for the bytes of [nd]. *)
Definition refuses_segment (ext : ZeGraphExtWrappers) (nd : NetworkDescription)
  : Prop :=
  fst (pfnCreate ext (compiledNetwork nd)) <> ZE_RESULT_SUCCESS.

(** A driver that realizes the blobs that start with the byte 0x7f and
    refuses the others. *)
Definition picky_driver : ZeGraphExtWrappers :=
  {| pfnCreate := fun blob => match blob with
                              | x7f :: _ => (ZE_RESULT_SUCCESS, 5%nat)
                              | _ => (ZE_RESULT_ERROR 0x78000001, O)
                              end;
     pfnSetArgumentValue := pfnSetArgumentValue example_driver;
     pfnGraphInitialize := pfnGraphInitialize example_driver;
     pfnDestroy := pfnDestroy example_driver;
     pfnGetProperties := pfnGetProperties example_driver;
     pfnGetArgumentProperties3 := pfnGetArgumentProperties3 example_driver;
     zeDeviceGetCommandQueueGroupProperties :=
       zeDeviceGetCommandQueueGroupProperties example_driver;
     zeCommandQueueCreate := zeCommandQueueCreate example_driver;
     zeSetWorkloadType := zeSetWorkloadType example_driver |}.

Definition picky_adapter : PluginCompilerAdapter :=
  {| _compiler := example_compiler; _zeGraphExt := Some picky_driver |}.

End AdapterSpec.

(** *** The split-init export: what the claims are stated with *)

Module ExportSpec.
Import PluginGraph GraphSpec.

(** A size field followed by its bytes. *)
Definition field (payload : list byte) : list byte :=
  decimal (to_uint32 (Z.of_nat (length payload))) ++ payload.

(** The bytes [custom_export_split_init] writes to a stream that takes
    them all. *)
Definition text_layout (xml bin main : list byte) (inits : list (list byte))
  : list byte :=
  field xml ++ field bin ++ field main
  ++ decimal (to_uint32 (Z.of_nat (length inits))) ++ x3a
  :: concat (field <$> inits).

(** If [s'] has not failed it is [s], which had not failed, with [bs]
    written after what it held. *)
Definition extends (s s' : ostream) (bs : list byte) : Prop :=
  failed s' = false -> failed s = false /\ written s' = written s ++ bs.

(** A stream that has not failed and whose sink takes everything. *)
Definition unlimited (s : ostream) : Prop :=
  failed s = false /\ room s = None.

Definition is_digit (b : byte) : bool :=
  (48 <=? byte_value b) && (byte_value b <=? 57).

(** The digits in front of [bs] and what follows them. *)
Fixpoint read_digits (bs : list byte) : list byte * list byte :=
  match bs with
  | c :: rest =>
      if is_digit c then
        let '(ds, r) := read_digits rest in (c :: ds, r)
      else ([], bs)
  | [] => ([], [])
  end.

Definition digits_value (ds : list byte) : Z :=
  fold_left (fun acc c => acc * 10 + (byte_value c - 48)) ds 0.

(** [stream >> n] for [uint32_t n]: fails without a digit and on a
    value that does not fit. *)
Definition read_uint32 (bs : list byte) : option (Z * list byte) :=
  let '(ds, rest) := read_digits bs in
  match ds with
  | [] => None
  | _ => if digits_value ds <? 2 ^ 32 then Some (digits_value ds, rest) else None
  end.

(** A size and that many bytes. *)
Definition read_field (bs : list byte) : option (list byte * list byte) :=
  '(n, rest) ← read_uint32 bs;
  if (length rest <? Z.to_nat n)%nat then None
  else Some (take (Z.to_nat n) rest, drop (Z.to_nat n) rest).

Fixpoint read_fields (count : nat) (bs : list byte) : option (list (list byte)) :=
  match count with
  | O => Some []
  | Datatypes.S c =>
      '(b, rest) ← read_field bs;
      more ← read_fields c rest;
      Some (b :: more)
  end.

Definition read_split_init (bs : list byte)
  : option (list byte * list byte * list byte * list (list byte)) :=
  '(xml, r) ← read_field bs;
  '(bin, r) ← read_field r;
  '(main, r) ← read_field r;
  '(count, r) ← read_uint32 r;
  match r with
  | c :: r =>
      if Byte.eqb c x3a then
        inits ← read_fields (Z.to_nat count) r;
        Some (xml, bin, main, inits)
      else None
  | [] => None
  end.

(** [bs] does not go on with a digit. *)
Definition no_digit_ahead (bs : list byte) : Prop :=
  match bs with
  | c :: _ => is_digit c = false
  | [] => True
  end.

(** [payload] has a first byte, and it is not a digit. *)
Definition delimited (payload : list byte) : Prop :=
  match payload with
  | c :: _ => is_digit c = false
  | [] => False
  end.

(** Follows the spec's words: every size is a [uint32], four bytes in
    some fixed encoding [uint32], and [':'] stands between the count
    and the first size. *)
Definition documented_layout (uint32 : Z -> list byte)
           (xml bin main : list byte) (inits : list (list byte)) : list byte :=
  uint32 (Z.of_nat (length xml)) ++ xml
  ++ uint32 (Z.of_nat (length bin)) ++ bin
  ++ uint32 (Z.of_nat (length main)) ++ main
  ++ uint32 (Z.of_nat (length inits)) ++ x3a
  :: concat ((fun b => uint32 (Z.of_nat (length b)) ++ b) <$> inits).

(** What the export leaves in a fresh stream. *)
Definition exported (g : PluginGraph) (initGraphs : list PluginGraph)
           (xml bin : list byte) : list byte * bool :=
  match fst (custom_export_split_init g empty_stream initGraphs xml bin empty_world) with
  | Ok s => (written s, failed s)
  | Throw _ => ([], true)
  end.

Definition graph_of_blob (blob : list byte) : PluginGraph :=
  {| _zeGraphExt := None; _handle := None;
     _metadata := example_metadata; _blobPtr := blob;
     _logger_level := INFO;
     _input_descriptors := []; _output_descriptors := [];
     _command_queue_group_ordinal := 0; _command_queue := None;
     _batch_size := None; _last_submitted_event := [] |}.

(** ["<net/>"] *)
Definition example_xml : list byte := [x3c; x6e; x65; x74; x2f; x3e].

Definition example_bin : list byte := [x00; x01].

(** ["\x7fELF"] *)
Definition example_blob : list byte := [x7f; x45; x4c; x46].

End ExportSpec.

(** *** The pipeline in use: what the further properties are stated with *)

Module PipelineUse.
Import ZeroPipeline PipelineSpec.



(** What [push] hands to the queue: the command lists in index order,
    each with its fence in fence-sync mode. *)
Definition submissions (p : Pipeline) : list Submission :=
  imap (fun i cl =>
          {| sub_instructions := cl_instructions cl;
             sub_fence := if sync_output_with_fences_ p
                          then fence_handle <$> _fences p !! i else None |})
       (_command_lists p).

(** The command lists after [updateCommandList]. *)
Definition updated (tensorsData : TensorData) (index : N) (p : Pipeline) : Pipeline :=
  with_command_lists p
    (imap (fun i => updated_list index
                      (slice_address tensorsData i (length (_command_lists p))))
          (_command_lists p)).

(** The argument value a submission runs the graph with. *)
Definition submitted_argument (s : Submission) (argi : N) : option Z :=
  args ← recorded_arguments (sub_instructions s); args !! argi.

(** What the constructor records in a command list, in order: the
    graph execution, between the two timestamps when profiling is on,
    and the signal of the list's event in event-sync mode. *)
Definition program (g : nat) (query : option nat) (prof : option NpuInferProfiling)
           (sync : bool) (ev : Event) (args : gmap N Z) : list Instruction :=
  match prof with
  | Some pr => [Barrier; NpuTimestamp (npu_ts_infer_start pr)]
  | None => []
  end
  ++ [GraphExecute g args query]
  ++ match prof with
     | Some pr => [Barrier; NpuTimestamp (npu_ts_infer_end pr)]
     | None => []
     end
  ++ (if sync then [] else [Barrier; SignalEvent (ev_handle ev)]).

End PipelineUse.

(** *** The graph object, further *)

Module GraphUse.
Import PluginGraph GraphSpec.

#[global] Instance ze_graph_argument_type_eq_dec :
  EqDecision ze_graph_argument_type_t := ltac:(solve_decision).

(** The descriptor [initialize] pushes for the argument at [index]. *)
Definition described (ext : ZeGraphExtWrappers) (h : nat) (index : nat)
  : ArgumentDescriptor :=
  {| info := snd (pfnGetArgumentProperties3 ext h index); idx := N.of_nat index |}.

Definition is_input (d : ArgumentDescriptor) : Prop :=
  info d = ZE_GRAPH_ARGUMENT_TYPE_INPUT.

(** The body of the loop of [initialize]. *)
Definition describe_argument (ext : ZeGraphExtWrappers) (h : nat)
           (index : nat) (g : PluginGraph) : M World PluginGraph :=
  THROW_ON_FAIL "pfnGetArgumentProperties3"
                (fst (pfnGetArgumentProperties3 ext h index)) ;;;
  let arg3 := snd (pfnGetArgumentProperties3 ext h index) in
  let d := {| info := arg3; idx := N.of_nat index |} in
  match arg3 with
  | ZE_GRAPH_ARGUMENT_TYPE_INPUT =>
      ret (set_descriptors (_input_descriptors g ++ [d])
                           (_output_descriptors g) g)
  | _ =>
      ret (set_descriptors (_input_descriptors g)
                           (_output_descriptors g ++ [d]) g)
  end.

(** The queue group [initialize] settles on and the queue it creates. *)
Definition queue_ordinal (ext : ZeGraphExtWrappers) : Z :=
  snd (zeDeviceGetCommandQueueGroupProperties ext).

Definition turbo_of (config : Config) : bool :=
  match TURBO config with Some t => t | None => false end.

Definition created_queue (ext : ZeGraphExtWrappers) (config : Config) : nat :=
  snd (zeCommandQueueCreate ext (MODEL_PRIORITY config) (queue_ordinal ext)
                            (turbo_of config)).

(** Every driver call [initialize] makes for handle [h] answers
    success. *)
Definition driver_accepts (ext : ZeGraphExtWrappers) (h : nat) (config : Config)
  : Prop :=
  fst (pfnGetProperties ext h) = ZE_RESULT_SUCCESS
  /\ (forall index, (index < snd (pfnGetProperties ext h))%nat ->
                    fst (pfnGetArgumentProperties3 ext h index) = ZE_RESULT_SUCCESS)
  /\ fst (zeDeviceGetCommandQueueGroupProperties ext) = ZE_RESULT_SUCCESS
  /\ fst (zeCommandQueueCreate ext (MODEL_PRIORITY config) (queue_ordinal ext)
                               (turbo_of config)) = ZE_RESULT_SUCCESS
  /\ (forall wt, WORKLOAD_TYPE config = Some wt ->
                 zeSetWorkloadType ext wt = ZE_RESULT_SUCCESS)
  /\ pfnGraphInitialize ext h (queue_ordinal ext) = ZE_RESULT_SUCCESS.

(** The slots [_last_submitted_event.resize(n)] leaves. *)
Definition resized (n : nat) (l : list (option nat)) : list (option nat) :=
  take n l ++ replicate (n - length l) None.

(** The graph [initialize] returns when every driver call succeeds. *)
Definition initialized (config : Config) (ext : ZeGraphExtWrappers) (h : nat)
           (g : PluginGraph) : PluginGraph :=
  let all := described ext h <$> seq 0 (snd (pfnGetProperties ext h)) in
  let g := set_descriptors
             (_input_descriptors g ++ filter is_input all)
             (_output_descriptors g ++ filter (fun d => ~ is_input d) all) g in
  let g := set_command_queue_group_ordinal (queue_ordinal ext) g in
  let g := set_command_queue (Some (created_queue ext config)) g in
  let g := match BATCH_MODE config with
           | COMPILER => g
           | _ => set_batch_size (batch_size_from_shapes (_metadata g)) g
           end in
  if RUN_INFERENCES_SEQUENTIALLY config then
    set_last_submitted_event
      (resized (Z.to_nat (match _batch_size g with Some b => b | None => 1 end))
               (_last_submitted_event g)) g
  else g.

(** What it leaves in the world. *)
Definition initialized_world (ext : ZeGraphExtWrappers) (h : nat) (w : World)
  : World :=
  {| logged := logged w ++ [log DEBUG "Graph initialize start";
                            log DEBUG "performing pfnGetProperties";
                            log DEBUG "performing pfnGetArgumentProperties3";
                            log DEBUG "Graph initialize finish"];
     calls := calls w ++ [call_initializeGraph h (queue_ordinal ext)] |}.

(** The object the constructor makes before it initializes it. *)
Definition constructed (zeGraphExt : option ZeGraphExtWrappers)
           (graphHandle : option nat) (metadata : NetworkMetadata)
           (blobPtr : list byte) (config : Config) : PluginGraph :=
  {| _zeGraphExt := zeGraphExt; _handle := graphHandle;
     _metadata := metadata; _blobPtr := blobPtr;
     _logger_level := LOG_LEVEL config;
     _input_descriptors := []; _output_descriptors := [];
     _command_queue_group_ordinal := 0; _command_queue := None;
     _batch_size := None; _last_submitted_event := [] |}.

(** A configuration that asks for the executor at once. *)
Definition eager_config : Config :=
  {| CREATE_EXECUTOR := true; DEFER_WEIGHTS_LOAD := false; LOG_LEVEL := INFO;
     TURBO := None; MODEL_PRIORITY := 1; WORKLOAD_TYPE := Some 0;
     BATCH_MODE := AUTO; RUN_INFERENCES_SEQUENTIALLY := true;
     SEPARATE_WEIGHTS_VERSION := 1 |}.

(** A configuration that defers the load of the weights. *)
Definition deferring_config : Config :=
  {| CREATE_EXECUTOR := true; DEFER_WEIGHTS_LOAD := true; LOG_LEVEL := INFO;
     TURBO := None; MODEL_PRIORITY := 1; WORKLOAD_TYPE := Some 0;
     BATCH_MODE := AUTO; RUN_INFERENCES_SEQUENTIALLY := true;
     SEPARATE_WEIGHTS_VERSION := 1 |}.

(** A graph with its handle, not initialized yet. *)
Definition fresh_graph : PluginGraph :=
  constructed (Some example_driver) (Some 5%nat)
              {| name := "main"; batch_size_from_shapes := Some 2 |}
              [x7f; x45; x4c; x46] eager_config.

End GraphUse.

(** *** The exports, further *)

Module ExportUse.
Import PluginGraph GraphSpec ExportSpec.

(** The value of the bytes read as digits in base 129 after the digit
    1171117, most significant first. *)
Definition base_129 (bs : list byte) : Z :=
  fold_left (fun r b => r * 129 + byte_value b) bs 1171117.

Definition write_failed : LogEntry :=
  log ERR "Write blob to stream failed. Blob is broken!".

Definition write_succeeded : LogEntry :=
  log INFO "Write blob to stream successfully.".

(** The sink cannot take [bs]: the stream has failed, or has room for
    [k] bytes, fewer than it is given. *)
Definition refuses (s : ostream) (bs : list byte) (k : nat) : Prop :=
  (failed s = true /\ k = O)
  \/ (failed s = false /\ room s = Some k /\ (k < length bs)%nat).

(** What the log gained from [w] to [w']. *)
Definition logged_since (w w' : World) (more : list LogEntry) : Prop :=
  logged w' = logged w ++ more /\ calls w' = calls w.

End ExportUse.

(** *** The adapter, further *)

Module AdapterUse.
Import PluginGraph GraphSpec PluginCompilerAdapter AdapterSpec.

(** A graph that holds a handle holds the adapter that made it. *)
Definition well_formed (g : PluginGraph) : Prop :=
  is_Some (_handle g) -> is_Some (PluginGraph._zeGraphExt g).

(** What the constructor is given for a segment whose handle is [h]. *)
Definition built_from (a : PluginCompilerAdapter) (h : option nat)
           (nd : NetworkDescription)
  : option ZeGraphExtWrappers * option nat * NetworkMetadata * list byte :=
  (_zeGraphExt a, h, metadata nd, compiledNetwork nd).

(** The handles the one [try] block of protocols 2 and 3 ends with: the
    main segment is asked for after the init segment only. *)
Definition init_main_handles (a : PluginCompilerAdapter)
           (init main : NetworkDescription) : option nat * option nat :=
  match realized a (compiledNetwork init) with
  | Some hi => (Some hi, realized a (compiledNetwork main))
  | None => (None, None)
  end.

(** The calls of the compiler that the loop of protocol 3 makes for
    [count] init segments and the segment after them. *)
Definition v3_calls (count : nat) : list Call :=
  call_compileWS_v3 false 0
  :: ((fun j => call_compileWS_v3 true (Z.of_nat j)) <$> seq 1 count).

(** The destructor of [g] returns. *)
Definition destructible (g : PluginGraph) : Prop :=
  forall w, exists g' w', PluginGraph_destructor g w = (Ok g', w').

End AdapterUse.

(** *** The factory *)

Module FactoryUse.
Import PluginGraph PluginCompilerAdapter AdapterConstruction CompilerAdapterFactory.
Import GraphSpec AdapterSpec.

(** The init structs the factory hands to the adapter. *)
Definition level_zero (engineBackend : option IEngineBackend)
  : option ZeroInitStructsHolder :=
  match engineBackend with
  | Some backend =>
      if String.eqb (getName backend) "LEVEL0" then getInitStructs backend else None
  | None => None
  end.

Definition valid_type (compilerType : CompilerType) : Prop :=
  compilerType = MLIR \/ compilerType = DRIVER.

Definition example_platform : Platform := {| loadCompiler := Ok example_compiler |}.

Definition example_backend : IEngineBackend :=
  {| getName := "LEVEL0";
     getInitStructs := Some {| getGraphDdiTable := example_driver;
                               graphExtVersion := 0x10005 |} |}.

Definition other_backend : IEngineBackend :=
  {| getName := "IMD";
     getInitStructs := Some {| getGraphDdiTable := example_driver;
                               graphExtVersion := 0x10005 |} |}.

End FactoryUse.

(* ===================================================================== *)
(** ** Lemmas and theorems                                             *)
(* ===================================================================== *)

(** *** Rules for the monad *)

Module EffectFacts.
Import Effects.

Lemma bind_Ok {S A B} (m : M S A) (k : A -> M S B) s a s' :
  m s = (Ok a, s') -> bind m k s = k a s'.
Proof. intros H. unfold bind. by rewrite H. Qed.

Lemma bind_Throw {S A B} (m : M S A) (k : A -> M S B) s e s' :
  m s = (Throw e, s') -> bind m k s = (Throw e, s').
Proof. intros H. unfold bind. by rewrite H. Qed.

Lemma bind_ret {S A B} (a : A) (k : A -> M S B) s : bind (ret a) k s = k a s.
Proof. reflexivity. Qed.

(** Hoare-style rule for a counted loop whose body never throws under the
    invariant. *)
Lemma for_range_invariant {S X} (I : nat -> X -> S -> Prop)
      (body : nat -> X -> M S X) count :
  forall start x s,
    I start x s ->
    (forall i x s, (start <= i < start + count)%nat -> I i x s ->
                   exists x' s', body i x s = (Ok x', s') /\ I (Datatypes.S i) x' s') ->
    exists x' s', for_range start count body x s = (Ok x', s')
                  /\ I (start + count)%nat x' s'.
Proof.
  induction count as [|c IH]; intros start x s HI Hbody; simpl.
  - exists x, s. rewrite Nat.add_0_r. done.
  - destruct (Hbody start x s) as (x1 & s1 & Hb & HI1); [lia | done |].
    destruct (IH (Datatypes.S start) x1 s1 HI1) as (x2 & s2 & Hr & HI2).
    { intros i y t Hi. apply Hbody. lia. }
    exists x2, s2. rewrite (bind_Ok _ _ _ _ _ Hb).
    split; [done|]. by replace (start + Datatypes.S c)%nat with (Datatypes.S start + c)%nat by lia.
Qed.

Lemma throws_only_ret {S A} P (a : A) : throws_only (S := S) P (ret a).
Proof. intros s e s' H. discriminate. Qed.

Lemma throws_only_throw {S A} (P : exception -> Prop) e :
  P e -> throws_only (S := S) (A := A) P (throw e).
Proof. intros HP s e' s' H. injection H as <- _. done. Qed.

Lemma throws_only_bind {S A B} P (m : M S A) (k : A -> M S B) :
  throws_only P m -> (forall a, throws_only P (k a)) ->
  throws_only P (bind m k).
Proof.
  intros Hm Hk s e s' H. unfold bind in H.
  destruct (m s) as [[a|e0] s0] eqn:Hms.
  - by eapply Hk.
  - injection H as <- <-. by eapply Hm.
Qed.

Lemma throws_only_modify {S} P (f : S -> S) : throws_only P (modify f).
Proof. intros s e s' H. discriminate. Qed.

Lemma throws_only_THROW_ON_FAIL {S} (P : exception -> Prop) call r :
  (forall status, P (ze_failure call status)) ->
  throws_only (S := S) P (THROW_ON_FAIL call r).
Proof.
  intros HP s e s' H. destruct r; simpl in H; [discriminate|].
  injection H as <- _. apply HP.
Qed.

Lemma throws_only_for_range {S X} P (body : nat -> X -> M S X) count :
  (forall i x, throws_only P (body i x)) ->
  forall start x, throws_only P (for_range start count body x).
Proof.
  intros Hb. induction count as [|c IH]; intros start x; simpl.
  - apply throws_only_ret.
  - apply throws_only_bind; [apply Hb | intros y; apply IH].
Qed.

Lemma throws_only_for_each {S A X} P (body : A -> X -> M S X) l :
  (forall a x, throws_only P (body a x)) ->
  forall x, throws_only P (for_each l body x).
Proof.
  intros Hb. induction l as [|a l IH]; intros x; simpl.
  - apply throws_only_ret.
  - apply throws_only_bind; [apply Hb | intros y; apply IH].
Qed.

Lemma throws_only_try_catch {S A} P (m h : M S A) :
  throws_only (fun e => catchable e = false -> P e) m -> throws_only P h ->
  throws_only P (try_catch m h).
Proof.
  intros Hm Hh s e s' H. unfold try_catch in H.
  destruct (m s) as [[a|e0] s0] eqn:Hms; [discriminate|].
  destruct (catchable e0) eqn:Hc.
  - by eapply Hh.
  - injection H as <- <-. by eapply Hm.
Qed.

Lemma returns_ret {S A} (Q : A -> Prop) a : Q a -> returns (S := S) Q (ret a).
Proof. intros HQ s a' s' H. by injection H as <- _. Qed.

Lemma returns_bind {S A B} (R : A -> Prop) (Q : B -> Prop)
      (m : M S A) (k : A -> M S B) :
  returns R m -> (forall a, R a -> returns Q (k a)) -> returns Q (bind m k).
Proof.
  intros Hm Hk s b s' H. unfold bind in H.
  destruct (m s) as [[a|e0] s0] eqn:Hms; [|discriminate].
  eapply Hk; [by eapply Hm | exact H].
Qed.

Lemma returns_any {S A} (m : M S A) : returns (fun _ => True) m.
Proof. by intros s a s' _. Qed.

Lemma returns_for_range {S X} (R : X -> Prop) (body : nat -> X -> M S X) count :
  (forall i x, R x -> returns R (body i x)) ->
  forall start x, R x -> returns R (for_range start count body x).
Proof.
  intros Hb. induction count as [|c IH]; intros start x Hx; simpl.
  - by apply returns_ret.
  - eapply returns_bind; [by apply Hb | intros y Hy; by apply IH].
Qed.

End EffectFacts.

(** *** zero_pipeline.cpp: construction, update and reuse *)

Module PipelineProofs.
Import ZeroPipeline Effects EffectFacts PipelineSpec.

Lemma bind_arguments_from what descriptors tensors i n :
  forall k0 d,
    (forall k desc, descriptors !! k = Some desc ->
                    exists t, tensors !! (k0 + k)%nat = Some (Some t)) ->
    for_each descriptors
      (fun desc ioIndex =>
         slot <- lift (vector_at what tensors ioIndex) ;;
         t <- lift (deref what slot) ;;
         setArgumentValue (idx desc) (slice_address t i n) ;;;
         ret (Datatypes.S ioIndex)) k0 d
    = (Ok (k0 + length descriptors)%nat,
       set_graph_arguments
         (bound_table descriptors (drop k0 tensors) i n (graph_arguments d)) d).
Proof.
  induction descriptors as [|desc ds IH]; intros k0 d Hcover; simpl.
  - rewrite Nat.add_0_r. destruct d; reflexivity.
  - destruct (Hcover O desc eq_refl) as [t Ht]. rewrite Nat.add_0_r in Ht.
    unfold bind at 1, lift at 1, vector_at. rewrite Ht. simpl.
    unfold bind at 1. simpl.
    rewrite IH.
    + rewrite (drop_S _ _ _ Ht). simpl.
      f_equal. f_equal. lia.
    + intros k desc' Hk. replace (Datatypes.S k0 + k)%nat with (k0 + Datatypes.S k)%nat by lia.
      by apply (Hcover (Datatypes.S k) desc').
Qed.

Lemma bind_arguments_Ok what descriptors tensors i n d :
  tensors_cover descriptors tensors ->
  bind_arguments what descriptors tensors i n d
  = (Ok (length descriptors),
     set_graph_arguments (bound_table descriptors tensors i n (graph_arguments d)) d).
Proof.
  intros Hcover. unfold bind_arguments.
  rewrite bind_arguments_from; [done|]. intros k desc Hk. apply (Hcover k desc Hk).
Qed.

Lemma bound_table_other descriptors : forall tensors i n args a,
  a ∉ idx <$> descriptors ->
  bound_table descriptors tensors i n args !! a = args !! a.
Proof.
  induction descriptors as [|desc ds IH]; intros tensors i n args a Ha; simpl; [done|].
  destruct tensors as [|[t|] ts]; try done.
  rewrite fmap_cons in Ha. apply not_elem_of_cons in Ha as [Hne Ha].
  rewrite IH by done. by rewrite lookup_insert_ne.
Qed.

Lemma bound_table_lookup descriptors : forall tensors i n args k desc t,
  NoDup (idx <$> descriptors) ->
  tensors_cover descriptors tensors ->
  descriptors !! k = Some desc ->
  tensors !! k = Some (Some t) ->
  bound_table descriptors tensors i n args !! idx desc = Some (slice_address t i n).
Proof.
  induction descriptors as [|d0 ds IH]; intros tensors i n args k desc t Hnd Hcov Hk Ht;
    [done|].
  rewrite fmap_cons in Hnd. apply NoDup_cons in Hnd as [Hfresh Hnd].
  destruct (Hcov O d0 eq_refl) as [t0 Ht0].
  destruct tensors as [|o ts]; [done|]. simpl in Ht0. injection Ht0 as ->.
  simpl. destruct k as [|k]; simpl in *.
  - injection Hk as ->. injection Ht as ->.
    rewrite bound_table_other by done. by rewrite lookup_insert_eq.
  - eapply IH; eauto. intros j dj Hj. apply (Hcov (Datatypes.S j) dj Hj).
Qed.

Lemma insert_alter {A} (f : A -> A) (l : list A) : forall i x,
  l !! i = Some x -> <[i := f x]> l = alter f i l.
Proof.
  induction l as [|y l IH]; intros [|i] x H; try done; simpl in *.
  - by injection H as ->.
  - f_equal. by apply IH.
Qed.

Lemma at_command_list_pure i f p d :
  (i < length (_command_lists p))%nat ->
  at_command_list i (fun cl => ret (f cl)) p d = (Ok (modify_list i f p), d).
Proof.
  intros Hi. apply lookup_lt_is_Some_2 in Hi as [cl Hcl].
  unfold at_command_list, bind, lift, vector_at. rewrite Hcl. simpl.
  unfold ret, modify_list. by rewrite (insert_alter f _ _ _ Hcl).
Qed.

Lemma at_command_list_execute i g q p d :
  (i < length (_command_lists p))%nat ->
  at_command_list i (appendGraphExecute g q) p d
  = (Ok (modify_list i (append (GraphExecute g (graph_arguments d) q)) p), d).
Proof.
  intros Hi. apply lookup_lt_is_Some_2 in Hi as [cl Hcl].
  unfold at_command_list, bind, lift, vector_at. rewrite Hcl. simpl.
  unfold ret, modify_list.
  by rewrite (insert_alter (append (GraphExecute g (graph_arguments d) q)) _ _ _ Hcl).
Qed.

Lemma modify_list_compose i f g p :
  modify_list i g (modify_list i f p) = modify_list i (g ∘ f) p.
Proof.
  unfold modify_list, with_command_lists. simpl. by rewrite list_alter_alter_eq.
Qed.

Lemma modify_list_length i f p :
  length (_command_lists (modify_list i f p)) = length (_command_lists p).
Proof. unfold modify_list. simpl. apply length_alter. Qed.

Lemma modify_list_profiling i f p :
  _npu_profiling (modify_list i f p) = _npu_profiling p.
Proof. reflexivity. Qed.

Lemma modify_list_sync i f p :
  sync_output_with_fences_ (modify_list i f p) = sync_output_with_fences_ p.
Proof. reflexivity. Qed.

Lemma modify_list_events i f p : _events (modify_list i f p) = _events p.
Proof. reflexivity. Qed.

Lemma modify_list_fences i f p : _fences (modify_list i f p) = _fences p.
Proof. reflexivity. Qed.

Lemma run_bind {S A B} (m : M S A) (k : A -> M S B) s a s1 r :
  m s = (Ok a, s1) -> k a s1 = r -> bind m k s = r.
Proof. intros H <-. by apply bind_Ok. Qed.

(** Runs the straight-line code of a loop body on command list [i]. *)
Ltac run_pipeline Hi Hev Hprof Hsync :=
  repeat first
    [ rewrite modify_list_profiling
    | rewrite modify_list_sync
    | rewrite modify_list_events
    | rewrite Hprof
    | rewrite Hsync
    | lazymatch goal with
      | |- at_command_list _ (appendGraphExecute _ _) _ _ = _ =>
          apply at_command_list_execute; rewrite ?modify_list_length; exact Hi
      | |- at_command_list _ _ _ _ = _ =>
          apply at_command_list_pure; rewrite ?modify_list_length; exact Hi
      | |- lift (vector_at _ _ _) _ = _ =>
          unfold lift, vector_at; rewrite Hev; reflexivity
      | |- ret _ _ = _ => reflexivity
      | |- bind _ _ _ = _ => eapply run_bind
      end ].

Lemma record_command_list_Ok executor query inputs outputs n i p d ev :
  (i < length (_command_lists p))%nat ->
  _events p !! i = Some ev ->
  tensors_cover (input_descriptors executor) inputs ->
  tensors_cover (output_descriptors executor) outputs ->
  let args := bound_table (output_descriptors executor) outputs i n
                (bound_table (input_descriptors executor) inputs i n
                             (graph_arguments d)) in
  record_command_list executor query inputs outputs n i p d
  = (Ok (modify_list i (recorded_list (graph executor) query (_npu_profiling p)
                                      (sync_output_with_fences_ p) ev args) p),
     set_graph_arguments args d).
Proof.
  intros Hi Hev Hin Hout args. unfold record_command_list.
  rewrite (bind_Ok _ _ _ _ _ (bind_arguments_Ok _ _ _ i n d Hin)).
  rewrite (bind_Ok _ _ _ _ _ (bind_arguments_Ok _ _ _ i n _ Hout)).
  simpl graph_arguments. fold args.
  set (d' := set_graph_arguments args _).
  assert (Hd' : d' = set_graph_arguments args d) by (by destruct d).
  clearbody d'. subst d'.
  unfold recorded_list.
  destruct (_npu_profiling p) as [pr|] eqn:Hprof;
    destruct (sync_output_with_fences_ p) eqn:Hsync;
    (etransitivity;
     [ run_pipeline Hi Hev Hprof Hsync
     | rewrite ?modify_list_compose; reflexivity ]).
Qed.

Lemma emplace_back_primitives_Ok executor i p d :
  emplace_back_primitives executor i p d
  = (Ok {| _event_pool := _event_pool p;
           _npu_profiling := _npu_profiling p;
           _command_lists :=
             _command_lists p ++
             [{| cl_handle := next_handle d;
                 cl_mutable := negb (MutableCommandListVersion executor =? 0);
                 cl_instructions := []; cl_closed := false |}];
           _events :=
             _events p ++
             [{| ev_handle := Datatypes.S (next_handle d);
                 ev_pool := pool_handle (_event_pool p);
                 ev_index := to_uint32 (Z.of_nat i);
                 ev_signaled := false |}];
           _fences :=
             _fences p ++
             [{| fence_handle := Datatypes.S (Datatypes.S (next_handle d));
                 fence_signaled := false |}];
           sync_output_with_fences_ := sync_output_with_fences_ p |},
     {| graph_arguments := graph_arguments d;
        next_handle := Datatypes.S (Datatypes.S (Datatypes.S (next_handle d)));
        queue := queue d |}).
Proof. reflexivity. Qed.

Lemma emplace_loop executor pool prof sync n d :
  exists p d',
    for_range 0 n (emplace_back_primitives executor)
      {| _event_pool := pool; _npu_profiling := prof;
         _command_lists := []; _events := []; _fences := [];
         sync_output_with_fences_ := sync |} d = (Ok p, d')
    /\ fresh_primitives pool prof sync n p.
Proof.
  apply (for_range_invariant
           (fun i p _ => fresh_primitives pool prof sync i p)).
  - repeat split; try done.
  - intros i p s _ (Hpool & Hprof & Hsync & Hl & He & Hf & Hcl & Hev).
    rewrite emplace_back_primitives_Ok. eexists _, _. split; [reflexivity|].
    unfold fresh_primitives. simpl. rewrite !length_app. simpl.
    split_and!; try done; try lia.
    + intros j cl [[_ H]|[_ <-]]%lookup_snoc_Some; [by eapply Hcl | done].
    + intros j ev [[_ H]|[-> <-]]%lookup_snoc_Some; [by eapply Hev|].
      simpl. by rewrite He, Hpool.
Qed.

Lemma Pipeline_new_recorded executor pool prof inputs outputs n sync d :
  ((1 <= n)%nat ->
   tensors_cover (input_descriptors executor) inputs
   /\ tensors_cover (output_descriptors executor) outputs) ->
  exists p d',
    Pipeline_new executor pool prof inputs outputs n sync d = (Ok p, d')
    /\ recorded executor prof sync inputs outputs n p.
Proof.
  intros Hcover. unfold Pipeline_new.
  set (count := if Nat.eqb n 0 then 1 else to_uint32 (Z.of_nat n)).
  unfold bind at 1. simpl.
  set (pool0 := {| pool_handle := next_handle d; pool_count := count |}).
  assert (Hquery : exists query d1,
             (if create_succeeds pool
              then h <- allocate ;; ret (Some h) else ret None)
               {| graph_arguments := graph_arguments d;
                  next_handle := Datatypes.S (next_handle d);
                  queue := queue d |} = (Ok query, d1)).
  { destruct (create_succeeds pool); eexists _, _; reflexivity. }
  destruct Hquery as (query & d1 & Hq). rewrite (bind_Ok _ _ _ _ _ Hq).
  destruct (emplace_loop executor pool0 prof sync n d1)
    as (p1 & d2 & Hloop1 & Hpool & Hprof & Hsync & Hl & He & Hf & Hcl & Hev).
  rewrite (bind_Ok _ _ _ _ _ Hloop1).
  destruct (for_range_invariant
              (fun i p (_ : Driver) =>
                 _event_pool p = pool0 /\ _npu_profiling p = prof
                 /\ sync_output_with_fences_ p = sync
                 /\ _events p = _events p1 /\ _fences p = _fences p1
                 /\ length (_command_lists p) = n
                 /\ (forall j, (j < i)%nat ->
                       exists cl0 ev a0,
                         _command_lists p1 !! j = Some cl0
                         /\ _events p1 !! j = Some ev
                         /\ _command_lists p !! j
                            = Some (recorded_list (graph executor) query prof sync ev
                                      (bound_table (output_descriptors executor) outputs j n
                                         (bound_table (input_descriptors executor) inputs j n a0))
                                      cl0))
                 /\ (forall j, (i <= j)%nat ->
                       _command_lists p !! j = _command_lists p1 !! j))
              (record_command_list executor query inputs outputs n)
              n 0%nat p1 d2)
    as (p2 & d3 & Hloop2 & Hpool2 & Hprof2 & Hsync2 & He2 & Hf2 & Hl2 & Hdone & _).
  - repeat split; try done. intros j Hj. lia.
  - intros i p s Hi (Hpool' & Hprof' & Hsync' & He' & Hf' & Hl' & Hdone & Hrest).
    destruct (lookup_lt_is_Some_2 (_events p1) i) as [ev Hevi]; [lia|].
    destruct (lookup_lt_is_Some_2 (_command_lists p1) i) as [cl0 Hcl0]; [lia|].
    destruct Hcover as [Hin Hout]; [lia|].
    eexists _, _. split.
    { apply record_command_list_Ok with (ev := ev); try done; [lia | by rewrite He']. }
    rewrite Hprof', Hsync'.
    repeat split; try done.
    + by rewrite modify_list_length.
    + intros j Hj. destruct (decide (j = i)) as [->|Hne].
      * exists cl0, ev, (graph_arguments s). repeat split; try done.
        unfold modify_list. simpl. rewrite list_lookup_alter_eq.
        rewrite (Hrest i) by lia. by rewrite Hcl0.
      * destruct (Hdone j) as (c & e & a & H1 & H2 & H3); [lia|].
        exists c, e, a. repeat split; try done.
        unfold modify_list. simpl. by rewrite list_lookup_alter_ne.
    + intros j Hj. unfold modify_list. simpl.
      rewrite list_lookup_alter_ne by lia. apply Hrest. lia.
  - exists p2, d3. split; [done|].
    repeat split; try done; try congruence.
    + by rewrite Hpool2.
    + exists query. intros i Hi.
      destruct (Hdone i) as (c & e & a & H1 & H2 & H3); [lia|].
      destruct (Hev i e H2) as [Hix Hpl].
      exists c, e, a. rewrite He2, Hpool2. repeat split; try done.
      by eapply Hcl.
Qed.

Lemma bind_Ok_inv {S A B} (m : M S A) (k : A -> M S B) s b s' :
  bind m k s = (Ok b, s') ->
  exists a s1, m s = (Ok a, s1) /\ k a s1 = (Ok b, s').
Proof.
  unfold bind. destruct (m s) as [[a|e] s1]; [eauto | discriminate].
Qed.

Lemma bind_arguments_from_inv what descriptors tensors i n :
  forall k0 d r d',
    for_each descriptors
      (fun desc ioIndex =>
         slot <- lift (vector_at what tensors ioIndex) ;;
         t <- lift (deref what slot) ;;
         setArgumentValue (idx desc) (slice_address t i n) ;;;
         ret (Datatypes.S ioIndex)) k0 d = (Ok r, d') ->
    forall k desc, descriptors !! k = Some desc ->
                   exists t, tensors !! (k0 + k)%nat = Some (Some t).
Proof.
  induction descriptors as [|d0 ds IH]; intros k0 d r d' Hrun k desc Hk; [done|].
  simpl in Hrun. apply bind_Ok_inv in Hrun as (k1 & d1 & Hstep & Hrun).
  apply bind_Ok_inv in Hstep as (slot & s1 & Hslot & Hstep).
  apply bind_Ok_inv in Hstep as (t & s2 & Ht & Hstep).
  unfold lift, vector_at in Hslot.
  destruct (tensors !! k0) as [o|] eqn:Hk0; [|discriminate].
  injection Hslot as <- <-. unfold lift, deref in Ht.
  destruct o as [t0|]; [|discriminate]. injection Ht as <- <-.
  unfold bind, setArgumentValue, modify, ret in Hstep. injection Hstep as <- <-.
  destruct k as [|k].
  - rewrite Nat.add_0_r. eauto.
  - replace (k0 + Datatypes.S k)%nat with (Datatypes.S k0 + k)%nat by lia.
    eapply IH; eauto.
Qed.

Lemma Pipeline_new_Ok_cover executor pool prof inputs outputs n sync d p d' :
  Pipeline_new executor pool prof inputs outputs n sync d = (Ok p, d') ->
  (1 <= n)%nat ->
  tensors_cover (input_descriptors executor) inputs
  /\ tensors_cover (output_descriptors executor) outputs.
Proof.
  intros Hnew Hn. unfold Pipeline_new in Hnew.
  apply bind_Ok_inv in Hnew as (pool0 & d0 & _ & Hnew).
  apply bind_Ok_inv in Hnew as (query & d1 & _ & Hnew).
  apply bind_Ok_inv in Hnew as (p1 & d2 & _ & Hnew).
  destruct n as [|n]; [lia|]. simpl in Hnew.
  apply bind_Ok_inv in Hnew as (p2 & d3 & Hbody & _).
  unfold record_command_list in Hbody.
  apply bind_Ok_inv in Hbody as (k1 & d4 & Hin & Hbody).
  apply bind_Ok_inv in Hbody as (k2 & d5 & Hout & _).
  split; intros k desc Hk.
  - apply (bind_arguments_from_inv _ _ _ _ _ _ _ _ _ Hin k desc Hk).
  - apply (bind_arguments_from_inv _ _ _ _ _ _ _ _ _ Hout k desc Hk).
Qed.

(** Every pipeline the constructor returns has the recorded shape. *)
Lemma Pipeline_new_Ok_recorded executor pool prof inputs outputs n sync d p d' :
  Pipeline_new executor pool prof inputs outputs n sync d = (Ok p, d') ->
  recorded executor prof sync inputs outputs n p.
Proof.
  intros Hnew.
  destruct (Pipeline_new_recorded executor pool prof inputs outputs n sync d)
    as (p' & d'' & Hnew' & Hrec).
  - intros Hn. by eapply Pipeline_new_Ok_cover.
  - rewrite Hnew in Hnew'. by injection Hnew' as <- <-.
Qed.

Lemma recorded_arguments_app_None l l' :
  recorded_arguments l = None ->
  recorded_arguments (l ++ l') = recorded_arguments l'.
Proof.
  induction l as [|ins l IH]; [done|]. destruct ins; simpl; auto; discriminate.
Qed.

Lemma recorded_list_arguments g query prof sync ev args cl0 :
  cl_instructions cl0 = [] ->
  recorded_arguments
    (cl_instructions (recorded_list g query prof sync ev args cl0)) = Some args.
Proof.
  intros H0. unfold recorded_list.
  destruct prof as [pr|], sync; simpl; rewrite H0; reflexivity.
Qed.

Lemma recorded_list_closed g query prof sync ev args cl0 :
  cl_closed (recorded_list g query prof sync ev args cl0) = true.
Proof. reflexivity. Qed.

Lemma recorded_list_signals g query prof ev args cl0 :
  SignalEvent (ev_handle ev)
  ∈ cl_instructions (recorded_list g query prof false ev args cl0).
Proof.
  unfold recorded_list. destruct prof; simpl; set_solver.
Qed.

Lemma slice_address_exact t i n :
  0 <= size t -> Z.of_nat i * size t < size_t_max ->
  slice_address t i n = mem t + (Z.of_nat i * size t) / Z.of_nat n.
Proof.
  intros H0 H1. unfold slice_address, size_t_mul.
  rewrite Z.mod_small; [done|]. split; [|done]. apply Z.mul_nonneg_nonneg; lia.
Qed.

(** C1.  For every [n >= 1] the constructor returns a pipeline with
    exactly [n] command lists, [n] events and [n] fences; event [i] is
    taken from the pipeline's pool at index [i]; every command list is
    closed; and in command list [i < n] every declared input and output
    argument is bound to the base address of its tensor plus
    [(i * size) / n], the product taken in [size_t] ([slice_address]),
    which is the exact quotient whenever [i * size] does not wrap.  The
    tensors are there for every descriptor and the argument indices are
    distinct. *)
Theorem Pipeline_new_slices executor pool prof inputs outputs n sync d :
  (1 <= n)%nat ->
  tensors_cover (input_descriptors executor) inputs ->
  tensors_cover (output_descriptors executor) outputs ->
  NoDup (idx <$> (input_descriptors executor ++ output_descriptors executor)) ->
  exists p d',
    Pipeline_new executor pool prof inputs outputs n sync d = (Ok p, d')
    /\ length (_command_lists p) = n
    /\ length (_events p) = n
    /\ length (_fences p) = n
    /\ forall i, (i < n)%nat ->
         exists cl ev,
           _command_lists p !! i = Some cl
           /\ _events p !! i = Some ev
           /\ ev_index ev = to_uint32 (Z.of_nat i)
           /\ ev_pool ev = pool_handle (_event_pool p)
           /\ cl_closed cl = true
           /\ forall k desc t,
                (input_descriptors executor !! k = Some desc
                 /\ inputs !! k = Some (Some t))
                \/ (output_descriptors executor !! k = Some desc
                    /\ outputs !! k = Some (Some t)) ->
                bound_argument cl (idx desc) = Some (slice_address t i n)
                /\ (0 <= size t -> Z.of_nat i * size t < size_t_max ->
                    bound_argument cl (idx desc)
                    = Some (mem t + (Z.of_nat i * size t) / Z.of_nat n)).
Proof.
  intros Hn Hin Hout Hnd.
  destruct (Pipeline_new_recorded executor pool prof inputs outputs n sync d)
    as (p & d' & Hnew & _ & _ & Hl & He & Hf & _ & query & Hlists); [done|].
  exists p, d'. split_and!; try done.
  intros i Hi. destruct (Hlists i Hi) as (cl0 & ev & a0 & Hev & Hix & Hpl & H0 & Hcl).
  eexists _, ev. split_and!; [exact Hcl | done | done | done | done |].
  intros k desc t Hdesc.
  assert (Hb : bound_argument
                 (recorded_list (graph executor) query prof sync ev
                    (bound_table (output_descriptors executor) outputs i n
                       (bound_table (input_descriptors executor) inputs i n a0))
                    cl0) (idx desc) = Some (slice_address t i n)).
  { unfold bound_argument. rewrite recorded_list_arguments by done. simpl.
    rewrite fmap_app in Hnd. apply NoDup_app in Hnd as (Hnd1 & Hdisj & Hnd2).
    destruct Hdesc as [[Hk Ht]|[Hk Ht]].
    - rewrite bound_table_other.
      + by eapply bound_table_lookup.
      + apply Hdisj. apply list_elem_of_fmap. exists desc. split; [done|].
        by eapply list_elem_of_lookup_2.
    - by eapply bound_table_lookup. }
  split; [done|]. intros H1 H2. rewrite Hb. f_equal. by apply slice_address_exact.
Qed.

Lemma example_inputs_cover :
  tensors_cover (input_descriptors example_executor) example_inputs.
Proof. intros [|k] desc H; [eexists; reflexivity | done]. Qed.

Lemma example_outputs_cover :
  tensors_cover (output_descriptors example_executor) example_outputs.
Proof. intros [|k] desc H; [eexists; reflexivity | done]. Qed.

Lemma example_NoDup :
  NoDup (idx <$> (input_descriptors example_executor
                  ++ output_descriptors example_executor)).
Proof. simpl. apply NoDup_cons. split; [|apply NoDup_singleton]. by intros ?%list_elem_of_singleton. Qed.

(** C1 at two command lists, one input and one output tensor. *)
Lemma Pipeline_new_slices_witness :
  exists p d',
    Pipeline_new example_executor {| create_succeeds := false |} None
                 example_inputs example_outputs 2 false example_state = (Ok p, d')
    /\ length (_command_lists p) = 2%nat
    /\ length (_events p) = 2%nat
    /\ length (_fences p) = 2%nat
    /\ forall i, (i < 2)%nat ->
         exists cl ev,
           _command_lists p !! i = Some cl
           /\ _events p !! i = Some ev
           /\ ev_index ev = to_uint32 (Z.of_nat i)
           /\ ev_pool ev = pool_handle (_event_pool p)
           /\ cl_closed cl = true
           /\ forall k desc t,
                (input_descriptors example_executor !! k = Some desc
                 /\ example_inputs !! k = Some (Some t))
                \/ (output_descriptors example_executor !! k = Some desc
                    /\ example_outputs !! k = Some (Some t)) ->
                bound_argument cl (idx desc) = Some (slice_address t i 2)
                /\ (0 <= size t -> Z.of_nat i * size t < size_t_max ->
                    bound_argument cl (idx desc)
                    = Some (mem t + (Z.of_nat i * size t) / Z.of_nat 2)).
Proof.
  apply (Pipeline_new_slices example_executor {| create_succeeds := false |} None
           example_inputs example_outputs 2 false example_state).
  - lia.
  - exact example_inputs_cover.
  - exact example_outputs_cover.
  - exact example_NoDup.
Defined.

Example Pipeline_new_example :
  (p ← match Pipeline_new example_executor {| create_succeeds := false |} None
               example_inputs example_outputs 2 false example_state with
       | (Ok p, _) => Some p | _ => None end;
   cl ← _command_lists p !! 1%nat;
   a ← bound_argument cl 0%N; b ← bound_argument cl 1%N;
   Some (a, b, cl_closed cl, length (cl_instructions cl)))
  = Some (4096 + 32, 8192 + 15, true, 3%nat).
Proof. vm_compute. reflexivity. Qed.

Lemma recorded_arguments_patch index value l :
  recorded_arguments (patch index value <$> l)
  = (fun args => <[index := value]> args) <$> recorded_arguments l.
Proof. induction l as [|ins l IH]; [done|]. destruct ins; simpl; auto. Qed.

Lemma updated_list_index index value cl :
  is_Some (recorded_arguments (cl_instructions cl)) ->
  bound_argument (updated_list index value cl) index = Some value.
Proof.
  intros [args Hargs]. unfold bound_argument, updated_list. simpl.
  rewrite recorded_arguments_patch, Hargs. simpl. apply lookup_insert_eq.
Qed.

Lemma updated_list_other index value cl a :
  a <> index ->
  bound_argument (updated_list index value cl) a = bound_argument cl a.
Proof.
  intros Hne. unfold bound_argument, updated_list. simpl.
  rewrite recorded_arguments_patch.
  destruct (recorded_arguments (cl_instructions cl)) as [args|]; [|done].
  simpl. by rewrite lookup_insert_ne.
Qed.

Lemma updateCommandList_Ok tensorsData index p d :
  exists p',
    updateCommandList tensorsData index p d = (Ok p', d)
    /\ _event_pool p' = _event_pool p
    /\ _npu_profiling p' = _npu_profiling p
    /\ sync_output_with_fences_ p' = sync_output_with_fences_ p
    /\ _events p' = _events p /\ _fences p' = _fences p
    /\ length (_command_lists p') = length (_command_lists p)
    /\ forall i, _command_lists p' !! i
                 = updated_list index
                     (slice_address tensorsData i (length (_command_lists p)))
                   <$> _command_lists p !! i.
Proof.
  unfold updateCommandList.
  set (n := length (_command_lists p)).
  destruct (for_range_invariant
              (fun i q s =>
                 s = d
                 /\ _event_pool q = _event_pool p
                 /\ _npu_profiling q = _npu_profiling p
                 /\ sync_output_with_fences_ q = sync_output_with_fences_ p
                 /\ _events q = _events p /\ _fences q = _fences p
                 /\ length (_command_lists q) = n
                 /\ (forall j, (j < i)%nat ->
                       _command_lists q !! j
                       = updated_list index (slice_address tensorsData j n)
                         <$> _command_lists p !! j)
                 /\ (forall j, (i <= j)%nat ->
                       _command_lists q !! j = _command_lists p !! j))
              (fun i p =>
                 p <- at_command_list i
                        (fun cl => ret (updateMutableCommandList
                                          index (slice_address tensorsData i n) cl)) p ;;
                 at_command_list i (fun cl => ret (close cl)) p)
              n 0%nat p d)
    as (p' & d' & Hrun & -> & Hpool & Hprof & Hsync & He & Hf & Hl & Hdone & _).
  - split_and!; try done. intros j Hj. lia.
  - intros i q s Hi (-> & Hpool & Hprof & Hsync & He & Hf & Hl & Hdone & Hrest).
    eexists _, _. split.
    { eapply run_bind.
      - apply at_command_list_pure. lia.
      - apply at_command_list_pure. rewrite modify_list_length. lia. }
    rewrite modify_list_compose.
    split_and!; try done.
    + by rewrite modify_list_length.
    + intros j Hj. unfold modify_list. simpl.
      destruct (decide (j = i)) as [->|Hne].
      * rewrite list_lookup_alter_eq. rewrite (Hrest i) by lia. done.
      * rewrite list_lookup_alter_ne by done. apply Hdone. lia.
    + intros j Hj. unfold modify_list. simpl.
      rewrite list_lookup_alter_ne by lia. apply Hrest. lia.
  - exists p'. split_and!; try done.
    intros i. destruct (decide (i < n)%nat) as [Hi|Hi]; [by apply Hdone|].
    rewrite !lookup_ge_None_2; [done| fold n; lia | lia].
Qed.

(** C3.  [updateCommandList(tensorsData, index)] returns for every
    pipeline, whatever its number [n] of command lists, and leaves the
    driver state, the events and the fences as they were.  In every
    command list [i < n] the recorded binding of argument [index] becomes
    [tensorsData.mem + (i * tensorsData.size) / n], the bindings of all
    other argument indices are unchanged, the list is the same driver
    object and it is closed afterwards. *)
Theorem updateCommandList_frame tensorsData index p d :
  exists p',
    updateCommandList tensorsData index p d = (Ok p', d)
    /\ length (_command_lists p') = length (_command_lists p)
    /\ _events p' = _events p /\ _fences p' = _fences p
    /\ forall i cl,
         _command_lists p !! i = Some cl ->
         exists cl',
           _command_lists p' !! i = Some cl'
           /\ cl_handle cl' = cl_handle cl
           /\ cl_closed cl' = true
           /\ (is_Some (bound_argument cl index) ->
               bound_argument cl' index
               = Some (slice_address tensorsData i (length (_command_lists p)))
               /\ (0 <= size tensorsData ->
                   Z.of_nat i * size tensorsData < size_t_max ->
                   bound_argument cl' index
                   = Some (mem tensorsData
                           + (Z.of_nat i * size tensorsData)
                             / Z.of_nat (length (_command_lists p)))))
           /\ (forall a, a <> index -> bound_argument cl' a = bound_argument cl a).
Proof.
  destruct (updateCommandList_Ok tensorsData index p d)
    as (p' & Hrun & _ & _ & _ & He & Hf & Hl & Hlists).
  exists p'. split_and!; try done.
  intros i cl Hcl. eexists. rewrite Hlists, Hcl. split; [reflexivity|].
  split_and!; try done.
  - intros [v Hv].
    assert (Hb : bound_argument
                   (updated_list index
                      (slice_address tensorsData i (length (_command_lists p))) cl)
                   index
                 = Some (slice_address tensorsData i (length (_command_lists p)))).
    { apply updated_list_index. unfold bound_argument in Hv.
      destruct (recorded_arguments (cl_instructions cl)); [eauto | done]. }
    split; [done|]. intros H0 H1. rewrite Hb. f_equal.
    by apply slice_address_exact.
  - intros a Ha. by apply updated_list_other.
Qed.

Lemma same_objects_refl p : same_objects p p.
Proof. reflexivity. Qed.

Lemma same_objects_trans p q r :
  same_objects p q -> same_objects q r -> same_objects p r.
Proof. unfold same_objects. congruence. Qed.

Lemma same_objects_fields p q :
  same_objects p q ->
  _event_pool p = _event_pool q /\ _npu_profiling p = _npu_profiling q
  /\ _command_lists p = _command_lists q
  /\ sync_output_with_fences_ p = sync_output_with_fences_ q
  /\ Event_reset <$> _events p = Event_reset <$> _events q
  /\ Fence_reset <$> _fences p = Fence_reset <$> _fences q.
Proof.
  unfold same_objects, forget_signals, with_fences, with_events. simpl.
  intros H. injection H. intros. split_and!; done.
Qed.

Lemma same_objects_intro p q :
  _event_pool p = _event_pool q -> _npu_profiling p = _npu_profiling q ->
  _command_lists p = _command_lists q ->
  sync_output_with_fences_ p = sync_output_with_fences_ q ->
  Event_reset <$> _events p = Event_reset <$> _events q ->
  Fence_reset <$> _fences p = Fence_reset <$> _fences q ->
  same_objects p q.
Proof.
  unfold same_objects, forget_signals, with_fences, with_events. simpl.
  by intros -> -> -> -> -> ->.
Qed.

Lemma fmap_eq_lookup {A B} (f : A -> B) (l k : list A) i x :
  f <$> l = f <$> k -> l !! i = Some x ->
  exists y, k !! i = Some y /\ f y = f x.
Proof.
  intros Heq Hx.
  assert (H : (f <$> k) !! i = Some (f x)) by (by rewrite <- Heq, list_lookup_fmap, Hx).
  rewrite list_lookup_fmap in H. destruct (k !! i) as [y|]; [|done].
  injection H as H. eauto.
Qed.

Lemma fmap_eq_length {A B} (f : A -> B) (l k : list A) :
  f <$> l = f <$> k -> length l = length k.
Proof. intros H. by rewrite <- (length_fmap f l), H, length_fmap. Qed.

Lemma reusable_same_objects p q :
  same_objects p q -> reusable p -> reusable q.
Proof.
  intros (_ & _ & Hl & Hs & He & Hf)%same_objects_fields (H1 & H2 & H3 & H4).
  unfold reusable. rewrite <- Hl, <- Hs.
  rewrite <- (fmap_eq_length _ _ _ He), <- (fmap_eq_length _ _ _ Hf).
  split_and!; try done.
  intros Hsync i cl ev Hcl Hev.
  destruct (fmap_eq_lookup _ _ _ _ _ (eq_sym He) Hev) as (ev' & Hev' & Heq).
  replace (ev_handle ev) with (ev_handle ev').
  - by eapply H4.
  - by injection Heq.
Qed.

Lemma recorded_reusable executor prof sync inputs outputs n p :
  recorded executor prof sync inputs outputs n p -> reusable p.
Proof.
  intros (Hprof & Hsync & Hl & He & Hf & _ & query & Hlists).
  unfold reusable. rewrite He, Hf, Hl. split_and!; try done.
  - intros i cl Hcl.
    destruct (Hlists i) as (cl0 & ev & a0 & _ & _ & _ & _ & Hcl').
    { apply lookup_lt_Some in Hcl. lia. }
    rewrite Hcl in Hcl'. by injection Hcl' as ->.
  - intros Hs i cl ev Hcl Hev.
    destruct (Hlists i) as (cl0 & ev' & a0 & Hev' & _ & _ & _ & Hcl').
    { apply lookup_lt_Some in Hcl. lia. }
    rewrite Hcl in Hcl'. injection Hcl' as ->.
    rewrite Hev in Hev'. injection Hev' as <-.
    rewrite <- Hsync, Hs. apply recorded_list_signals.
Qed.

(** *** [reset] *)

Lemma pointwise_reset {A} (f : A -> A) (l k : list A) :
  (forall j, k !! j = f <$> l !! j) -> k = f <$> l.
Proof. intros H. apply list_eq. intros j. by rewrite list_lookup_fmap. Qed.

Lemma reset_Ok p d :
  length (_events p) = length (_command_lists p) ->
  length (_fences p) = length (_command_lists p) ->
  reset p d = (Ok (reset_result p), d).
Proof.
  intros He Hf. unfold reset, reset_result.
  destruct (sync_output_with_fences_ p) eqn:Hsync.
  - destruct (for_range_invariant
                (fun i q s =>
                   s = d /\ with_fences q (_fences p) = p
                   /\ forall j, _fences q !! j
                                = if decide (j < i)%nat
                                  then Fence_reset <$> _fences p !! j
                                  else _fences p !! j)
                (fun i p =>
                   if sync_output_with_fences_ p then
                     fe <- lift (vector_at "_fences" (_fences p) i) ;;
                     ret (with_fences p (<[i := Fence_reset fe]> (_fences p)))
                   else
                     ev <- lift (vector_at "_events" (_events p) i) ;;
                     ret (with_events p (<[i := Event_reset ev]> (_events p))))
                (length (_command_lists p)) 0%nat p d)
      as (q & s & Hrun & -> & Hq & Hall).
    + split_and!; [done | by destruct p |]. intros j. by case_decide; [lia|].
    + intros i q s Hi (-> & Hq & Hall).
      assert (Hsq : sync_output_with_fences_ q = true)
        by (by rewrite <- Hq in Hsync).
      rewrite Hsq.
      destruct (lookup_lt_is_Some_2 (_fences p) i) as [fe Hfe]; [lia|].
      assert (Hqi : _fences q !! i = Some fe).
      { rewrite Hall. by case_decide; [lia|]. }
      eexists _, _. split.
      { unfold bind, lift, vector_at. rewrite Hqi. reflexivity. }
      split_and!; [done | by destruct q |].
      intros j. simpl. destruct (decide (j = i)) as [->|Hne].
      * rewrite list_lookup_insert_eq by (by eapply lookup_lt_Some).
        case_decide; [|lia]. by rewrite Hfe.
      * rewrite list_lookup_insert_ne by done. rewrite Hall.
        repeat case_decide; try done; lia.
    + rewrite Hrun. f_equal. f_equal.
      assert (Hfq : _fences q = Fence_reset <$> _fences p).
      { apply pointwise_reset. intros j. rewrite Hall. case_decide; [done|].
        rewrite !lookup_ge_None_2; [done | lia]. }
      rewrite <- Hfq, <- Hq. by destruct q.
  - destruct (for_range_invariant
                (fun i q s =>
                   s = d /\ with_events q (_events p) = p
                   /\ forall j, _events q !! j
                                = if decide (j < i)%nat
                                  then Event_reset <$> _events p !! j
                                  else _events p !! j)
                (fun i p =>
                   if sync_output_with_fences_ p then
                     fe <- lift (vector_at "_fences" (_fences p) i) ;;
                     ret (with_fences p (<[i := Fence_reset fe]> (_fences p)))
                   else
                     ev <- lift (vector_at "_events" (_events p) i) ;;
                     ret (with_events p (<[i := Event_reset ev]> (_events p))))
                (length (_command_lists p)) 0%nat p d)
      as (q & s & Hrun & -> & Hq & Hall).
    + split_and!; [done | by destruct p |]. intros j. by case_decide; [lia|].
    + intros i q s Hi (-> & Hq & Hall).
      assert (Hsq : sync_output_with_fences_ q = false)
        by (by rewrite <- Hq in Hsync).
      rewrite Hsq.
      destruct (lookup_lt_is_Some_2 (_events p) i) as [ev Hev]; [lia|].
      assert (Hqi : _events q !! i = Some ev).
      { rewrite Hall. by case_decide; [lia|]. }
      eexists _, _. split.
      { unfold bind, lift, vector_at. rewrite Hqi. reflexivity. }
      split_and!; [done | by destruct q |].
      intros j. simpl. destruct (decide (j = i)) as [->|Hne].
      * rewrite list_lookup_insert_eq by (by eapply lookup_lt_Some).
        case_decide; [|lia]. by rewrite Hev.
      * rewrite list_lookup_insert_ne by done. rewrite Hall.
        repeat case_decide; try done; lia.
    + rewrite Hrun. f_equal. f_equal.
      assert (Hfq : _events q = Event_reset <$> _events p).
      { apply pointwise_reset. intros j. rewrite Hall. case_decide; [done|].
        rewrite !lookup_ge_None_2; [done | lia]. }
      rewrite <- Hfq, <- Hq. by destruct q.
Qed.

Lemma reset_result_same_objects p : same_objects p (reset_result p).
Proof.
  unfold reset_result.
  destruct (sync_output_with_fences_ p); apply same_objects_intro; simpl; try done.
  - rewrite <- list_fmap_compose. by apply list_fmap_ext.
  - rewrite <- list_fmap_compose. by apply list_fmap_ext.
Qed.

Lemma reset_result_unsignaled p i :
  (i < length (_command_lists p))%nat ->
  length (_events p) = length (_command_lists p) ->
  length (_fences p) = length (_command_lists p) ->
  waited_signal (reset_result p) i = Some false.
Proof.
  intros Hi He Hf. unfold waited_signal, reset_result.
  destruct (sync_output_with_fences_ p) eqn:Hs; simpl; rewrite Hs;
    rewrite list_lookup_fmap.
  - destruct (lookup_lt_is_Some_2 (_fences p) i) as [fe ->]; [lia | done].
  - destruct (lookup_lt_is_Some_2 (_events p) i) as [ev ->]; [lia | done].
Qed.

Lemma advanced_refl p : advanced p p.
Proof.
  unfold advanced. split_and!; try done.
  - apply Forall_Forall2_diag, Forall_forall. by intros e _.
  - apply Forall_Forall2_diag, Forall_forall. by intros e _.
Qed.

Lemma advanced_trans p q r : advanced p q -> advanced q r -> advanced p r.
Proof.
  intros (H1 & H2 & H3 & H4 & H5 & H6) (K1 & K2 & K3 & K4 & K5 & K6).
  unfold advanced. split_and!; try congruence.
  - eapply Forall2_trans; [|exact H5|exact K5].
    intros x y z [E1 S1] [E2 S2]. split; [congruence | auto].
  - eapply Forall2_trans; [|exact H6|exact K6].
    intros x y z [E1 S1] [E2 S2]. split; [congruence | auto].
Qed.

Lemma advanced_same_objects p p' : advanced p p' -> same_objects p p'.
Proof.
  intros (H1 & H2 & H3 & H4 & H5 & H6). apply same_objects_intro; try done.
  - clear -H5. induction H5 as [|e e' l l' [He _] _ IH]; [done|].
    rewrite !fmap_cons. by f_equal.
  - clear -H6. induction H6 as [|e e' l l' [He _] _ IH]; [done|].
    rewrite !fmap_cons. by f_equal.
Qed.

Lemma signal_event_advanced h e : event_advanced e (signal_event h e).
Proof. unfold signal_event. by destruct (Nat.eqb _ _). Qed.

Lemma signal_fence_advanced h f : fence_advanced f (signal_fence h f).
Proof. unfold signal_fence. by destruct (Nat.eqb _ _). Qed.

Lemma run_instruction_advanced ins p : advanced p (run_instruction ins p).
Proof.
  destruct ins; try apply advanced_refl. simpl.
  destruct (advanced_refl p) as (H1 & H2 & H3 & H4 & H5 & H6).
  unfold advanced. simpl. split_and!; try done.
  apply Forall2_fmap_r, Forall_Forall2_diag, Forall_forall.
  intros e _. apply signal_event_advanced.
Qed.

Lemma fold_advanced {X} (step : X -> Pipeline -> Pipeline) :
  (forall x p, advanced p (step x p)) ->
  forall l p, advanced p (fold_left (fun q y => step y q) l p).
Proof.
  intros Hstep l. induction l as [|x l IH]; intros p; simpl.
  - apply advanced_refl.
  - eapply advanced_trans; [apply Hstep | apply IH].
Qed.

Lemma run_submission_advanced s p : advanced p (run_submission s p).
Proof.
  unfold run_submission.
  set (p' := fold_left _ _ _).
  assert (Hp' : advanced p p') by apply (fold_advanced run_instruction), run_instruction_advanced.
  destruct (sub_fence s) as [h|]; [|done].
  eapply advanced_trans; [exact Hp'|].
  destruct (advanced_refl p') as (H1 & H2 & H3 & H4 & H5 & H6).
  unfold advanced. simpl. split_and!; try done.
  apply Forall2_fmap_r, Forall_Forall2_diag, Forall_forall.
  intros e _. apply signal_fence_advanced.
Qed.

Lemma drained_advanced q p : advanced p (drained q p).
Proof. apply (fold_advanced run_submission), run_submission_advanced. Qed.

(** A run of steps that only advance the pipeline reaches what one of
    its steps brings about. *)
Lemma fold_advanced_reaches {X} (step : X -> Pipeline -> Pipeline)
      (good : Pipeline -> Prop) (trigger : X -> Pipeline -> Prop) :
  (forall x p, advanced p (step x p)) ->
  (forall p p', advanced p p' -> good p -> good p') ->
  (forall x p p', advanced p p' -> trigger x p -> trigger x p') ->
  (forall x p, trigger x p -> good (step x p)) ->
  forall l p x, x ∈ l -> trigger x p ->
                good (fold_left (fun q y => step y q) l p).
Proof.
  intros Hstep Hgood Htrig Hhit l.
  induction l as [|y l IH]; intros p x Hx Ht; [by apply elem_of_nil in Hx|].
  simpl. apply elem_of_cons in Hx as [->|Hx].
  - eapply Hgood; [apply (fold_advanced step Hstep)|]. by apply Hhit.
  - eapply IH; [exact Hx|]. eapply Htrig; [apply Hstep | exact Ht].
Qed.

Lemma event_at_advanced p p' i h b :
  advanced p p' -> event_at p i h b -> event_at p' i h b.
Proof.
  intros (_ & _ & _ & _ & H5 & _) (e & He & Hh & Hb).
  destruct (Forall2_lookup_l _ _ _ _ _ H5 He) as (e' & He' & Heq & Hs).
  exists e'. split_and!; [done | | auto].
  rewrite <- Hh. by injection Heq.
Qed.

Lemma fence_at_advanced p p' i h b :
  advanced p p' -> fence_at p i h b -> fence_at p' i h b.
Proof.
  intros (_ & _ & _ & _ & _ & H6) (f & Hf & Hh & Hb).
  destruct (Forall2_lookup_l _ _ _ _ _ H6 Hf) as (f' & Hf' & Heq & Hs).
  exists f'. split_and!; [done | | auto].
  rewrite <- Hh. by injection Heq.
Qed.

Lemma run_submission_events s p :
  _events (run_submission s p)
  = _events (fold_left (fun q ins => run_instruction ins q) (sub_instructions s) p).
Proof. unfold run_submission. by destruct (sub_fence s). Qed.

Lemma run_instruction_fences ins p : _fences (run_instruction ins p) = _fences p.
Proof. by destruct ins. Qed.

Lemma fold_instructions_fences l : forall p,
  _fences (fold_left (fun q ins => run_instruction ins q) l p) = _fences p.
Proof.
  induction l as [|ins l IH]; intros p; simpl; [done|].
  by rewrite IH, run_instruction_fences.
Qed.

Lemma run_submission_signals_event s p i h :
  SignalEvent h ∈ sub_instructions s -> event_at p i h false ->
  event_at (run_submission s p) i h true.
Proof.
  intros Hin Hat.
  cut (event_at (fold_left (fun q ins => run_instruction ins q)
                           (sub_instructions s) p) i h true).
  { intros (e & He & Hh & Hs). exists e. by rewrite run_submission_events. }
  apply (fold_advanced_reaches run_instruction
           (fun p => event_at p i h true)
           (fun ins p => ins = SignalEvent h /\ event_at p i h false))
    with (x := SignalEvent h); try done.
  - apply run_instruction_advanced.
  - intros q q' Hadv. by apply event_at_advanced.
  - intros ins q q' Hadv [-> Hq]. split; [done|]. by eapply event_at_advanced.
  - intros ins q [-> (e & He & Hh & _)].
    exists (signal_event h e). simpl. rewrite list_lookup_fmap, He. split; [done|].
    unfold signal_event. rewrite Hh, Nat.eqb_refl. done.
Qed.

Lemma run_submission_signals_fence s p i h :
  sub_fence s = Some h -> fence_at p i h false ->
  fence_at (run_submission s p) i h true.
Proof.
  intros Hs (f & Hf & Hh & _). unfold run_submission. rewrite Hs.
  exists (signal_fence h f). simpl.
  rewrite list_lookup_fmap, fold_instructions_fences, Hf. split; [done|].
  unfold signal_fence. rewrite Hh, Nat.eqb_refl. done.
Qed.

Lemma drained_signals_event q p s i h :
  s ∈ q -> SignalEvent h ∈ sub_instructions s -> event_at p i h false ->
  event_at (drained q p) i h true.
Proof.
  intros Hs Hin Hat.
  apply (fold_advanced_reaches run_submission
           (fun p => event_at p i h true)
           (fun s p => SignalEvent h ∈ sub_instructions s /\ event_at p i h false))
    with (x := s); try done.
  - apply run_submission_advanced.
  - intros r r' Hadv. by apply event_at_advanced.
  - intros x r r' Hadv [Hx Hr]. split; [done|]. by eapply event_at_advanced.
  - intros x r [Hx Hr]. by apply run_submission_signals_event.
Qed.

Lemma drained_signals_fence q p s i h :
  s ∈ q -> sub_fence s = Some h -> fence_at p i h false ->
  fence_at (drained q p) i h true.
Proof.
  intros Hs Hin Hat.
  apply (fold_advanced_reaches run_submission
           (fun p => fence_at p i h true)
           (fun s p => sub_fence s = Some h /\ fence_at p i h false))
    with (x := s); try done.
  - apply run_submission_advanced.
  - intros r r' Hadv. by apply fence_at_advanced.
  - intros x r r' Hadv [Hx Hr]. split; [done|]. by eapply fence_at_advanced.
  - intros x r [Hx Hr]. by apply run_submission_signals_fence.
Qed.

Lemma push_Ok p d :
  reusable p ->
  exists d',
    push p d = (Ok tt, d')
    /\ graph_arguments d' = graph_arguments d
    /\ next_handle d' = next_handle d
    /\ forall i cl,
         _command_lists p !! i = Some cl ->
         exists s, s ∈ queue d'
                   /\ sub_instructions s = cl_instructions cl
                   /\ (sync_output_with_fences_ p = true ->
                       exists f, _fences p !! i = Some f
                                 /\ sub_fence s = Some (fence_handle f)).
Proof.
  intros (He & Hf & Hclosed & _). unfold push.
  destruct (for_range_invariant
              (fun i (_ : unit) s =>
                 graph_arguments s = graph_arguments d
                 /\ next_handle s = next_handle d
                 /\ forall j cl,
                      (j < i)%nat -> _command_lists p !! j = Some cl ->
                      exists x, x ∈ queue s
                                /\ sub_instructions x = cl_instructions cl
                                /\ (sync_output_with_fences_ p = true ->
                                    exists f, _fences p !! j = Some f
                                              /\ sub_fence x = Some (fence_handle f)))
              (fun i _ =>
                 cl <- lift (vector_at "_command_lists" (_command_lists p) i) ;;
                 if sync_output_with_fences_ p then
                   fe <- lift (vector_at "_fences" (_fences p) i) ;;
                   executeCommandList cl (Some fe)
                 else executeCommandList cl None)
              (length (_command_lists p)) 0%nat tt d)
    as ([] & d' & Hrun & Hga & Hnh & Hsub).
  - split_and!; try done. intros j cl Hj. lia.
  - intros i [] s Hi (Hga & Hnh & Hsub).
    destruct (lookup_lt_is_Some_2 (_command_lists p) i) as [cl Hcl]; [lia|].
    destruct (lookup_lt_is_Some_2 (_fences p) i) as [fe Hfe]; [lia|].
    pose proof (Hclosed i cl Hcl) as Hc.
    exists tt.
    exists {| graph_arguments := graph_arguments s;
              next_handle := next_handle s;
              queue := queue s ++
                       [{| sub_instructions := cl_instructions cl;
                           sub_fence := if sync_output_with_fences_ p
                                        then Some (fence_handle fe) else None |}] |}.
    split.
    { unfold bind, lift, vector_at. rewrite Hcl.
      destruct (sync_output_with_fences_ p); simpl; rewrite ?Hfe;
        unfold executeCommandList; rewrite Hc; reflexivity. }
    simpl. split_and!; try done.
    intros j cl' Hj Hcl'. destruct (decide (j = i)) as [->|Hne].
    + rewrite Hcl in Hcl'. injection Hcl' as <-.
      eexists. split; [apply elem_of_app; right; apply list_elem_of_singleton; reflexivity|].
      simpl. split; [done|]. intros ->. eauto.
    + destruct (Hsub j cl') as (x & Hx & Hrest); [lia | done |].
      exists x. split; [apply elem_of_app; by left | done].
  - exists d'. split_and!; try done.
    intros i cl Hcl. apply (Hsub i cl); [|done]. by eapply lookup_lt_Some.
Qed.

Lemma advanced_lengths p p' :
  advanced p p' ->
  length (_command_lists p') = length (_command_lists p)
  /\ length (_events p') = length (_events p)
  /\ length (_fences p') = length (_fences p).
Proof.
  intros (_ & _ & -> & _ & H5 & H6).
  by rewrite (Forall2_length _ _ _ H5), (Forall2_length _ _ _ H6).
Qed.

Lemma host_wait_Ok i p d :
  (i < length (_command_lists p))%nat ->
  ready p d ->
  (if sync_output_with_fences_ p then Fence_hostSynchronize i p
   else Event_hostSynchronize i p) d
  = (Ok (drained (queue d) p),
     {| graph_arguments := graph_arguments d; next_handle := next_handle d;
        queue := [] |}).
Proof.
  intros Hi Hready. specialize (Hready i Hi).
  pose proof (drained_advanced (queue d) p) as Hadv.
  destruct Hadv as (_ & _ & _ & Hs & H5 & H6).
  unfold waited_signal in Hready. rewrite Hs in Hready.
  destruct (sync_output_with_fences_ p).
  - unfold Fence_hostSynchronize.
    destruct (_fences (drained (queue d) p) !! i) as [fe|] eqn:Hfe; [|done].
    simpl in Hready. injection Hready as Hsig.
    destruct (Forall2_lookup_r _ _ _ _ _ H6 Hfe) as (f0 & Hf0 & _).
    unfold bind at 1, lift, vector_at. rewrite Hf0.
    unfold bind, device_completes. fold (drained (queue d) p).
    rewrite Hfe, Hsig. reflexivity.
  - unfold Event_hostSynchronize.
    destruct (_events (drained (queue d) p) !! i) as [ev|] eqn:Hev; [|done].
    simpl in Hready. injection Hready as Hsig.
    destruct (Forall2_lookup_r _ _ _ _ _ H5 Hev) as (e0 & He0 & _).
    unfold bind at 1, lift, vector_at. rewrite He0.
    unfold bind, device_completes. fold (drained (queue d) p).
    rewrite Hev, Hsig. reflexivity.
Qed.

Lemma pull_Ok p d :
  ready p d ->
  exists p' d',
    pull p d = (Ok p', d')
    /\ advanced p p'
    /\ graph_arguments d' = graph_arguments d
    /\ next_handle d' = next_handle d.
Proof.
  intros Hready. unfold pull.
  destruct (for_range_invariant
              (fun (i : nat) q s =>
                 advanced p q /\ ready q s
                 /\ graph_arguments s = graph_arguments d
                 /\ next_handle s = next_handle d)
              (fun i p =>
                 if sync_output_with_fences_ p then Fence_hostSynchronize i p
                 else Event_hostSynchronize i p)
              (length (_command_lists p)) 0%nat p d)
    as (p' & d' & Hrun & Hadv & _ & Hga & Hnh).
  - split_and!; try done. apply advanced_refl.
  - intros i q s Hi (Hadv & Hr & Hga & Hnh).
    destruct (advanced_lengths _ _ Hadv) as (Hl & _ & _).
    eexists _, _. split; [apply host_wait_Ok; [lia | done]|].
    split_and!; try done.
    + eapply advanced_trans; [exact Hadv | apply drained_advanced].
    + intros j Hj. simpl. apply Hr.
      destruct (advanced_lengths _ _ (drained_advanced (queue s) q)) as (Hl' & _ & _).
      lia.
  - eauto 10.
Qed.

Lemma reset_push_pull_Ok p d :
  reusable p ->
  exists p' d',
    reset_push_pull p d = (Ok p', d')
    /\ same_objects p p'
    /\ graph_arguments d' = graph_arguments d
    /\ next_handle d' = next_handle d.
Proof.
  intros Hp. pose proof Hp as (He & Hf & _ & _).
  unfold reset_push_pull. rewrite (bind_Ok _ _ _ _ _ (reset_Ok p d He Hf)).
  set (p1 := reset_result p).
  assert (Hsame : same_objects p p1) by apply reset_result_same_objects.
  assert (Hp1 : reusable p1) by (by eapply reusable_same_objects).
  destruct (push_Ok p1 d Hp1) as (d2 & Hpush & Hga & Hnh & Hsub).
  rewrite (bind_Ok _ _ _ _ _ Hpush).
  destruct (pull_Ok p1 d2) as (p' & d3 & Hpull & Hadv & Hga3 & Hnh3).
  - intros i Hi. destruct Hp1 as (He1 & Hf1 & _ & Hsig).
    destruct (lookup_lt_is_Some_2 (_command_lists p1) i) as [cl Hcl]; [lia|].
    destruct (Hsub i cl Hcl) as (s & Hs & Hins & Hfence).
    unfold waited_signal.
    destruct (drained_advanced (queue d2) p1) as (_ & _ & _ & -> & _ & _).
    destruct (sync_output_with_fences_ p1) eqn:Hsync.
    + destruct Hfence as (f & Hfi & Hsf); [done|].
      destruct (drained_signals_fence (queue d2) p1 s i (fence_handle f) Hs Hsf)
        as (f' & -> & _ & Hsg); [by exists f|].
      simpl. by rewrite Hsg.
    + destruct (lookup_lt_is_Some_2 (_events p1) i) as [ev Hev]; [lia|].
      destruct (drained_signals_event (queue d2) p1 s i (ev_handle ev) Hs)
        as (e' & -> & _ & Hsg); [rewrite Hins; by eapply Hsig | by exists ev |].
      simpl. by rewrite Hsg.
  - exists p', d3. split_and!; try congruence.
    eapply same_objects_trans; [exact Hsame | by apply advanced_same_objects].
Qed.

Lemma repeat_reset_push_pull_Ok rounds : forall p d,
  reusable p ->
  exists p' d',
    repeat_reset_push_pull rounds p d = (Ok p', d')
    /\ same_objects p p'
    /\ next_handle d' = next_handle d.
Proof.
  induction rounds as [|r IH]; intros p d Hp; simpl.
  - exists p, d. split_and!; done.
  - destruct (reset_push_pull_Ok p d Hp) as (p1 & d1 & Hrun & Hsame & _ & Hnh).
    rewrite (bind_Ok _ _ _ _ _ Hrun).
    destruct (IH p1 d1) as (p2 & d2 & Hrun2 & Hsame2 & Hnh2);
      [by eapply reusable_same_objects|].
    exists p2, d2. split_and!; [done | | congruence].
    by eapply same_objects_trans.
Qed.

(** C8.  A pipeline the constructor returned, in whatever state its
    events and fences are ([same_objects]): [reset()] returns, leaves the
    driver state as it was, keeps every command list, event and fence
    (nothing is allocated) and leaves the primitive [pull] waits on at
    each index [i < n] (the fence in fence-sync mode, the event otherwise)
    unsignaled; and [reset(); push(); pull();] can be repeated any number
    of times, every round returning, on the same objects and without the
    handle allocator moving. *)
Theorem reset_push_pull_repeatable
        executor pool prof inputs outputs n sync d p d1 :
  Pipeline_new executor pool prof inputs outputs n sync d = (Ok p, d1) ->
  forall q s,
    same_objects p q ->
    (exists q',
        reset q s = (Ok q', s)
        /\ same_objects q q'
        /\ forall i, (i < n)%nat -> waited_signal q' i = Some false)
    /\ forall rounds,
        exists q' s',
          repeat_reset_push_pull rounds q s = (Ok q', s')
          /\ same_objects q q'
          /\ next_handle s' = next_handle s.
Proof.
  intros Hnew q s Hq.
  pose proof (Pipeline_new_Ok_recorded _ _ _ _ _ _ _ _ _ _ Hnew) as Hrec.
  assert (Hp : reusable p) by (by eapply recorded_reusable).
  assert (Hr : reusable q) by (by eapply reusable_same_objects).
  destruct Hrec as (_ & _ & Hl & _).
  apply same_objects_fields in Hq as (_ & _ & Hlq & _).
  pose proof Hr as (He & Hf & _).
  split.
  - exists (reset_result q). split_and!.
    + by apply reset_Ok.
    + apply reset_result_same_objects.
    + intros i Hi. apply reset_result_unsignaled; [|done|done].
      rewrite <- Hlq. lia.
  - intros rounds. by apply repeat_reset_push_pull_Ok.
Qed.

(** C8 at the pipeline of the example. *)
Lemma reset_push_pull_repeatable_witness :
  (exists q',
      reset example_pipeline example_state_after = (Ok q', example_state_after)
      /\ same_objects example_pipeline q'
      /\ forall i, (i < 2)%nat -> waited_signal q' i = Some false)
  /\ forall rounds,
      exists q' s',
        repeat_reset_push_pull rounds example_pipeline example_state_after
        = (Ok q', s')
        /\ same_objects example_pipeline q'
        /\ next_handle s' = next_handle example_state_after.
Proof.
  apply (reset_push_pull_repeatable
           example_executor {| create_succeeds := false |} None
           example_inputs example_outputs 2 false example_state
           example_pipeline example_state_after).
  - vm_compute. reflexivity.
  - reflexivity.
Defined.

Example three_rounds :
  match repeat_reset_push_pull 3 example_pipeline example_state_after with
  | (Ok q, s) =>
      (ev_signaled <$> _events q, fence_signaled <$> _fences q,
       cl_handle <$> _command_lists q, length (queue s), next_handle s)
  | _ => ([], [], [], O, O)
  end = ([true; true], [false; false], [1; 4]%nat, O, 7%nat).
Proof. vm_compute. reflexivity. Qed.

(** C3 at the pipeline of the example. *)
Lemma updateCommandList_frame_witness :
  exists p',
    updateCommandList example_tensor 0%N example_pipeline example_state_after
    = (Ok p', example_state_after)
    /\ length (_command_lists p') = length (_command_lists example_pipeline)
    /\ _events p' = _events example_pipeline
    /\ _fences p' = _fences example_pipeline
    /\ forall i cl,
         _command_lists example_pipeline !! i = Some cl ->
         exists cl',
           _command_lists p' !! i = Some cl'
           /\ cl_handle cl' = cl_handle cl
           /\ cl_closed cl' = true
           /\ (is_Some (bound_argument cl 0%N) ->
               bound_argument cl' 0%N
               = Some (slice_address example_tensor i
                                     (length (_command_lists example_pipeline)))
               /\ (0 <= size example_tensor ->
                   Z.of_nat i * size example_tensor < size_t_max ->
                   bound_argument cl' 0%N
                   = Some (mem example_tensor
                           + (Z.of_nat i * size example_tensor)
                             / Z.of_nat (length (_command_lists example_pipeline)))))
           /\ (forall a, a <> 0%N -> bound_argument cl' a = bound_argument cl a).
Proof.
  apply (updateCommandList_frame example_tensor 0%N example_pipeline
                                 example_state_after).
Defined.

Example updateCommandList_example :
  match updateCommandList example_tensor 0%N example_pipeline example_state_after with
  | (Ok p, _) =>
      (fun cl => (bound_argument cl 0%N, bound_argument cl 1%N, cl_closed cl))
        <$> _command_lists p
  | _ => []
  end
  = [(Some 12288, Some 8192, true); (Some (12288 + 32), Some (8192 + 15), true)].
Proof. vm_compute. reflexivity. Qed.

(** [i * size] wraps around in [size_t]: the slice of a tensor of
    [2 ^ 63] bytes for the list of index 2 of 4 starts at its base. *)
Example slice_address_wraps :
  slice_address {| mem := 4096; size := 2 ^ 63 |} 2 4 = 4096.
Proof. reflexivity. Qed.

End PipelineProofs.

(** *** plugin_graph.cpp: export-only artifacts and teardown *)

Module GraphProofs.
Import PluginGraph Effects EffectFacts GraphSpec.

Ltac skip_unit :=
  lazymatch goal with
  | |- returns _ (bind (for_range _ _ _ _) _) => fail
  | |- returns _ (bind _ _) =>
      eapply returns_bind; [apply returns_any | intros ? _]
  end.

Lemma initialize_given config g :
  returns (fun g' => given g' = given g) (initialize config g).
Proof.
  unfold initialize.
  destruct (_zeGraphExt g) as [ext|] eqn:Hext; [|by apply returns_ret].
  destruct (_handle g) as [h|] eqn:Hh; [|by apply returns_ret].
  repeat skip_unit.
  eapply returns_bind.
  { apply returns_for_range with (R := fun g' => given g' = given g); [|done].
    intros i x Hx. skip_unit.
    destruct (snd (pfnGetArgumentProperties3 ext h i)); by apply returns_ret. }
  intros g' Hg'. repeat skip_unit. apply returns_ret.
  destruct (BATCH_MODE config), (RUN_INFERENCES_SEQUENTIALLY config); exact Hg'.
Qed.

Lemma PluginGraph_new_given ext h md blob config :
  returns (fun g => given g = (ext, h, md, blob))
          (PluginGraph_new ext h md blob config).
Proof.
  unfold PluginGraph_new.
  destruct (negb (CREATE_EXECUTOR config) || DEFER_WEIGHTS_LOAD config).
  - skip_unit. by apply returns_ret.
  - apply initialize_given.
Qed.

Ltac failure_named :=
  lazymatch goal with
  | |- throws_only _ (THROW_ON_FAIL ?c _) =>
      apply throws_only_THROW_ON_FAIL; intros status;
      exists c, status; split; [reflexivity | discriminate]
  end.

Lemma throws_only_emit P e : throws_only P (emit e).
Proof. apply throws_only_modify. Qed.

Lemma throws_only_record P c : throws_only P (record c).
Proof. apply throws_only_modify. Qed.

Ltac throws_step :=
  first
    [ apply throws_only_ret
    | apply throws_only_emit
    | apply throws_only_record
    | failure_named
    | apply throws_only_bind; [|intros ?] ].

Lemma initialize_throws config g :
  throws_only initialize_failure (initialize config g).
Proof.
  unfold initialize.
  destruct (_zeGraphExt g) as [ext|]; [|apply throws_only_ret].
  destruct (_handle g) as [h|]; [|apply throws_only_ret].
  unfold debug, initializeGraph.
  repeat first
    [ throws_step
    | apply throws_only_for_range; intros i x
    | match goal with
      | |- throws_only _ (match ?c with _ => _ end) => destruct c
      end ].
Qed.

Lemma PluginGraph_new_throws ext h md blob config :
  throws_only initialize_failure (PluginGraph_new ext h md blob config).
Proof.
  unfold PluginGraph_new.
  destruct (negb (CREATE_EXECUTOR config) || DEFER_WEIGHTS_LOAD config).
  - unfold Runtime.info. repeat throws_step.
  - apply initialize_throws.
Qed.

(** Without a handle the constructor has nothing to initialize. *)
Lemma PluginGraph_new_no_handle ext md blob config w :
  exists g w',
    PluginGraph_new ext None md blob config w = (Ok g, w')
    /\ given g = (ext, None, md, blob)
    /\ calls w' = calls w
    /\ exists more, logged w' = logged w ++ more.
Proof.
  unfold PluginGraph_new.
  destruct (negb (CREATE_EXECUTOR config) || DEFER_WEIGHTS_LOAD config).
  - eexists _, _. split; [reflexivity|]. simpl. split_and!; eauto.
  - unfold initialize. simpl. destruct ext; eexists _, _;
      (split; [reflexivity|]); simpl; split_and!; try done;
      exists []; by rewrite app_nil_r.
Qed.

(** A constructor that is told to defer never fails. *)
Lemma PluginGraph_new_deferred ext h md blob config w :
  negb (CREATE_EXECUTOR config) || DEFER_WEIGHTS_LOAD config = true ->
  exists g w',
    PluginGraph_new ext h md blob config w = (Ok g, w')
    /\ given g = (ext, h, md, blob).
Proof.
  intros Hd. unfold PluginGraph_new. rewrite Hd.
  eexists _, _. split; reflexivity.
Qed.

Lemma write_accepted bs s :
  accepts s bs ->
  written (write bs s) = written s ++ bs /\ failed (write bs s) = false.
Proof.
  intros [Hf Hr]. unfold write. rewrite Hf.
  destruct (room s) as [r|]; [|done].
  apply Nat.leb_le in Hr. by rewrite Hr.
Qed.

(** C5, as amended.  For an artifact without a handle, [export_blob] on a
    stream that takes the bytes returns the size of the blob and appends
    the blob.  [set_argument_value] throws the error "Zero compiler adapter
    wasn't initialized" when the artifact has no driver adapter; with an
    adapter it passes the null handle on to the driver, and what comes
    back is the driver's status: success or the driver's own error. *)
Theorem export_only_operations g stream argi argv w :
  _handle g = None ->
  accepts stream (_blobPtr g) ->
  (exists stream' w',
      export_blob g stream w = (Ok (blob_size g, stream'), w')
      /\ written stream' = written stream ++ _blobPtr g
      /\ failed stream' = false)
  /\ match _zeGraphExt g with
     | None =>
         set_argument_value g argi argv w = (Throw not_initialized, w)
     | Some ext =>
         fst (set_argument_value g argi argv w)
         = match pfnSetArgumentValue ext None argi argv with
           | ZE_RESULT_SUCCESS => Ok tt
           | status => Throw (ze_failure "zeGraphSetArgumentValue" status)
           end
     end.
Proof.
  intros Hh Hacc. split.
  - destruct (write_accepted _ _ Hacc) as [Hw Hf].
    unfold export_blob. rewrite Hf.
    destruct (level_at_least_INFO g); eexists _, _; (split; [reflexivity|]); done.
  - unfold set_argument_value. destruct (_zeGraphExt g) as [ext|]; [|done].
    rewrite Hh. unfold setGraphArgumentValue, bind, record, modify. simpl.
    by destruct (pfnSetArgumentValue ext None argi argv).
Qed.

(** C5 does not hold as stated: an artifact whose handle was not
    realized can fail with the driver's own error. *)
Lemma set_argument_value_driver_error :
  ~ (forall g argi argv w,
        _handle g = None ->
        exists msg detail,
          fst (set_argument_value g argi argv w) = Throw (ov_Exception msg detail)).
Proof.
  intros H.
  destruct (H export_only_graph 0%N 4096 empty_world eq_refl) as (msg & detail & Heq).
  vm_compute in Heq. discriminate.
Qed.

Example set_argument_value_on_export_only :
  fst (set_argument_value export_only_graph 0%N 4096 empty_world)
  = Throw (ze_failure "zeGraphSetArgumentValue" ZE_RESULT_ERROR_INVALID_NULL_HANDLE).
Proof. reflexivity. Qed.

(** C5, as amended, at an artifact whose handle the driver refused. *)
Lemma export_only_operations_witness :
  (exists stream' w',
      export_blob export_only_graph empty_stream empty_world
      = (Ok (blob_size export_only_graph, stream'), w')
      /\ written stream' = written empty_stream ++ _blobPtr export_only_graph
      /\ failed stream' = false)
  /\ match _zeGraphExt export_only_graph with
     | None =>
         set_argument_value export_only_graph 0%N 4096 empty_world
         = (Throw not_initialized, empty_world)
     | Some ext =>
         fst (set_argument_value export_only_graph 0%N 4096 empty_world)
         = match pfnSetArgumentValue ext None 0%N 4096 with
           | ZE_RESULT_SUCCESS => Ok tt
           | status => Throw (ze_failure "zeGraphSetArgumentValue" status)
           end
     end.
Proof.
  apply (export_only_operations export_only_graph empty_stream 0%N 4096 empty_world).
  - reflexivity.
  - split; [reflexivity | exact I].
Defined.

(** C9.  The destructor of a realized graph asks the driver to destroy
    the handle first; the handle is cleared if and only if the driver
    answers success and stays as it was otherwise; the slots of
    last-submitted events are released next and the command queue last,
    and both are gone afterwards. *)
Theorem destructor_teardown g ext h w :
  _zeGraphExt g = Some ext ->
  _handle g = Some h ->
  exists g' w',
    PluginGraph_destructor g w = (Ok g', w')
    /\ calls w' = calls w ++ call_destroyGraph h :: releases g
    /\ (_handle g' = None <-> pfnDestroy ext h = ZE_RESULT_SUCCESS)
    /\ (pfnDestroy ext h <> ZE_RESULT_SUCCESS -> _handle g' = Some h)
    /\ _last_submitted_event g' = []
    /\ _command_queue g' = None.
Proof.
  destruct g as [ext0 h0 md blob lvl ins outs ord q b evs]. simpl.
  intros -> ->. unfold PluginGraph_destructor, releases.
  cbv [bind lift deref destroyGraph record modify ret]. simpl.
  destruct (pfnDestroy ext h) as [|code] eqn:Hd; simpl;
    destruct evs as [|ev evs]; simpl; destruct q as [q|]; simpl;
    eexists _, _; (split; [reflexivity|]); simpl;
    rewrite <- ?app_assoc; simpl;
    split_and!; try done; try (split; done).
Qed.

(** C9 at a graph with two event slots and a command queue. *)
Lemma destructor_teardown_witness :
  exists g' w',
    PluginGraph_destructor realized_graph empty_world = (Ok g', w')
    /\ calls w' = calls empty_world ++ call_destroyGraph 5 :: releases realized_graph
    /\ (_handle g' = None <-> pfnDestroy example_driver 5%nat = ZE_RESULT_SUCCESS)
    /\ (pfnDestroy example_driver 5%nat <> ZE_RESULT_SUCCESS -> _handle g' = Some 5%nat)
    /\ _last_submitted_event g' = []
    /\ _command_queue g' = None.
Proof.
  apply (destructor_teardown realized_graph example_driver 5%nat empty_world);
    reflexivity.
Defined.

Example destructor_calls :
  calls (snd (PluginGraph_destructor realized_graph empty_world))
  = [call_destroyGraph 5; release_last_submitted_event 2; release_command_queue 11].
Proof. reflexivity. Qed.

(** *** The log only grows *)

Lemma log_grows_ret {A} (a : A) : log_grows (ret a).
Proof. intros w r w' [= <- <-]. exists []. by rewrite app_nil_r. Qed.

Lemma log_grows_throw {A} e : log_grows (throw (A := A) e).
Proof. intros w r w' [= <- <-]. exists []. by rewrite app_nil_r. Qed.

Lemma log_grows_lift {A} (o : outcome A) : log_grows (lift o).
Proof. intros w r w' [= <- <-]. exists []. by rewrite app_nil_r. Qed.

Lemma log_grows_bind {A B} (m : M World A) (k : A -> M World B) :
  log_grows m -> (forall a, log_grows (k a)) -> log_grows (bind m k).
Proof.
  intros Hm Hk w r w' Hrun. unfold bind in Hrun.
  destruct (m w) as [[a|e] w1] eqn:Hmw.
  - destruct (Hm _ _ _ Hmw) as [more1 H1]. destruct (Hk a _ _ _ Hrun) as [more2 H2].
    exists (more1 ++ more2). by rewrite H2, H1, <- app_assoc.
  - injection Hrun as <- <-. by eapply Hm.
Qed.

Lemma log_grows_emit e : log_grows (emit e).
Proof. intros w r w' [= <- <-]. by exists [e]. Qed.

Lemma log_grows_record c : log_grows (record c).
Proof. intros w r w' [= <- <-]. exists []. simpl. by rewrite app_nil_r. Qed.

Lemma log_grows_THROW_ON_FAIL call status :
  log_grows (THROW_ON_FAIL call status).
Proof.
  unfold THROW_ON_FAIL. destruct status; [apply log_grows_ret | apply log_grows_throw].
Qed.

Lemma log_grows_for_range {X} (body : nat -> X -> M World X) count :
  (forall i x, log_grows (body i x)) ->
  forall start x, log_grows (for_range start count body x).
Proof.
  intros Hbody. induction count as [|c IH]; intros start x; simpl.
  - apply log_grows_ret.
  - apply log_grows_bind; [apply Hbody | intros x'; apply IH].
Qed.

Lemma log_grows_initialize config g : log_grows (initialize config g).
Proof.
  unfold initialize.
  destruct (PluginGraph._zeGraphExt g) as [ext|]; [|apply log_grows_ret].
  destruct (_handle g) as [h|]; [|apply log_grows_ret].
  repeat first
    [ apply log_grows_ret
    | apply log_grows_emit
    | apply log_grows_record
    | apply log_grows_THROW_ON_FAIL
    | apply log_grows_bind; [|intros ?]
    | apply log_grows_for_range; intros ? ?
    | match goal with
      | |- log_grows (match ?x with _ => _ end) => destruct x
      end ].
Qed.

Lemma log_grows_PluginGraph_new ext h md blob config :
  log_grows (PluginGraph_new ext h md blob config).
Proof.
  unfold PluginGraph_new.
  destruct (negb (CREATE_EXECUTOR config) || DEFER_WEIGHTS_LOAD config).
  - apply log_grows_bind; [apply log_grows_emit | intros _; apply log_grows_ret].
  - apply log_grows_initialize.
Qed.

End GraphProofs.

(** *** plugin_compiler_adapter.cpp: split weights and handle realization *)

Module AdapterProofs.
Import PluginGraph Effects EffectFacts GraphSpec GraphProofs
       PluginCompilerAdapter AdapterSpec.

Lemma try_getGraphHandle_Ok a blob w :
  try_getGraphHandle a blob w = (Ok (realized a blob), after_try a blob w).
Proof.
  unfold try_getGraphHandle, realized, after_try.
  destruct (_zeGraphExt a) as [ext|]; [|done].
  unfold try_catch, bind, getGraphHandle, record, modify. simpl.
  destruct (fst (pfnCreate ext blob)); reflexivity.
Qed.

Lemma getGraphHandle_failure ext blob w status :
  fst (pfnCreate ext blob) = status -> status <> ZE_RESULT_SUCCESS ->
  getGraphHandle ext blob w
  = (Throw (ze_failure "pfnCreate2" status),
     {| logged := logged w; calls := calls w ++ [call_getGraphHandle blob] |}).
Proof.
  intros Hs Hne. unfold getGraphHandle, bind, record, modify. simpl.
  rewrite Hs. by destruct status.
Qed.

Lemma collect_v2_main inits : forall m rest acc w,
  Forall named_init inits ->
  isInit (name (metadata m)) = false ->
  isMain (name (metadata m)) = true ->
  collect_v2 (inits ++ m :: rest) acc w
  = (Ok (acc ++ inits, Some m),
     {| logged := logged w;
        calls := calls w ++ replicate (Datatypes.S (length inits)) call_compileWS_v2 |}).
Proof.
  induction inits as [|i0 inits IH]; intros m rest acc w Hin Hm Hmain.
  - simpl. unfold bind, record, modify. simpl. rewrite Hm. unfold OPENVINO_ASSERT.
    rewrite Hmain. simpl. by rewrite app_nil_r.
  - apply Forall_cons in Hin as [Hi0 Hin]. simpl.
    unfold bind at 1, record, modify. simpl. rewrite Hi0.
    rewrite IH by done. simpl. rewrite <- !app_assoc. reflexivity.
Qed.

Lemma collect_v2_neither inits : forall m rest acc w,
  Forall named_init inits ->
  isInit (name (metadata m)) = false ->
  isMain (name (metadata m)) = false ->
  fst (collect_v2 (inits ++ m :: rest) acc w)
  = Throw (ov_Exception "Unexpected network name: " (name (metadata m))).
Proof.
  induction inits as [|i0 inits IH]; intros m rest acc w Hin Hm Hmain.
  - simpl. unfold bind, record, modify. simpl. rewrite Hm. unfold OPENVINO_ASSERT.
    by rewrite Hmain.
  - apply Forall_cons in Hin as [Hi0 Hin]. simpl.
    unfold bind at 1, record, modify. simpl. rewrite Hi0. by apply IH.
Qed.

Lemma collect_v3_main inits : forall m rest fresh i acc w,
  Forall named_init inits ->
  isInit (name (metadata m)) = false ->
  isMain (name (metadata m)) = true ->
  exists cs,
    collect_v3 (inits ++ m :: rest) fresh i acc w
    = (Ok (acc ++ inits, Some m),
       {| logged := logged w; calls := calls w ++ cs |})
    /\ length cs = Datatypes.S (length inits).
Proof.
  induction inits as [|i0 inits IH]; intros m rest fresh i acc w Hin Hm Hmain.
  - simpl. unfold bind, record, modify. simpl. rewrite Hm. unfold OPENVINO_ASSERT.
    rewrite Hmain. simpl. rewrite app_nil_r. by eexists.
  - apply Forall_cons in Hin as [Hi0 Hin]. simpl.
    unfold bind at 1, record, modify. simpl. rewrite Hi0.
    destruct (IH m rest true (size_t_add i 1) (acc ++ [i0])
                 {| logged := logged w;
                    calls := calls w ++ [call_compileWS_v3 fresh i] |} Hin Hm Hmain)
      as (cs & -> & Hlen).
    exists (call_compileWS_v3 fresh i :: cs). simpl.
    rewrite <- !app_assoc. split; [reflexivity | by rewrite Hlen].
Qed.

Lemma collect_v3_neither inits : forall m rest fresh i acc w,
  Forall named_init inits ->
  isInit (name (metadata m)) = false ->
  isMain (name (metadata m)) = false ->
  fst (collect_v3 (inits ++ m :: rest) fresh i acc w)
  = Throw (ov_Exception "Unexpected network name: " (name (metadata m))).
Proof.
  induction inits as [|i0 inits IH]; intros m rest fresh i acc w Hin Hm Hmain.
  - simpl. unfold bind, record, modify. simpl. rewrite Hm. unfold OPENVINO_ASSERT.
    by rewrite Hmain.
  - apply Forall_cons in Hin as [Hi0 Hin]. simpl.
    unfold bind at 1, record, modify. simpl. rewrite Hi0. by apply IH.
Qed.

Lemma throws_only_weaken {S A} (P Q : exception -> Prop) (m : M S A) :
  (forall e, P e -> Q e) -> throws_only P m -> throws_only Q m.
Proof. intros HPQ Hm s e s' H. apply HPQ. by eapply Hm. Qed.

Lemma throws_only_lift {S A} (P : exception -> Prop) (o : outcome A) :
  (forall e, o = Throw e -> P e) -> throws_only (S := S) P (lift o).
Proof. intros Ho s e s' H. unfold lift in H. injection H as H _. by apply Ho. Qed.

Lemma throws_only_Ok {S A} (P : exception -> Prop) (m : M S A) :
  (forall s, exists a s', m s = (Ok a, s')) -> throws_only P m.
Proof. intros Hm s e s' H. destruct (Hm s) as (a & s1 & Hs). congruence. Qed.

Lemma constructs_deferred a config :
  negb (CREATE_EXECUTOR config) || DEFER_WEIGHTS_LOAD config = true ->
  constructs a config.
Proof.
  intros Hd h md blob w.
  destruct (PluginGraph_new_deferred (_zeGraphExt a) h md blob config w Hd)
    as (g & w' & Hg & _). eauto.
Qed.

Lemma getGraphHandle_catchable ext blob :
  throws_only (fun e => catchable e = true) (getGraphHandle ext blob).
Proof.
  unfold getGraphHandle.
  apply throws_only_bind; [apply throws_only_modify|intros _].
  apply throws_only_bind; [|intros _; apply throws_only_ret].
  by apply throws_only_THROW_ON_FAIL.
Qed.

(** The two handles of [wrap_init_main] are always obtained. *)
Lemma handles_Ok ext init m w :
  exists hs w',
    try_catch
      (initGraphHandle <- getGraphHandle ext (compiledNetwork init) ;;
       main <- lift (deref "mainNetworkDescription" (Some m)) ;;
       try_catch
         (mainGraphHandle <- getGraphHandle ext (compiledNetwork main) ;;
          ret (Some initGraphHandle, Some mainGraphHandle))
         (Runtime.info handle_failure_message ;;;
          ret (Some initGraphHandle, None)))
      (Runtime.info handle_failure_message ;;; ret (None, None)) w
    = (Ok hs, w').
Proof.
  unfold try_catch, bind, getGraphHandle, record, modify, lift, deref. simpl.
  destruct (fst (pfnCreate ext (compiledNetwork init))); simpl; [|by eexists _, _].
  destruct (fst (pfnCreate ext (compiledNetwork m))); simpl; by eexists _, _.
Qed.

Lemma returns_deref {S A} what (x : A) :
  returns (S := S) (fun y => y = x) (lift (deref what (Some x))).
Proof. intros s a s' H. by injection H as <- _. Qed.

Lemma wrap_init_main_returns a config init m :
  returns (fun gs => exists gi gm,
               gs = [gi; gm]
               /\ _blobPtr gi = compiledNetwork init
               /\ _metadata gi = metadata init
               /\ _blobPtr gm = compiledNetwork m
               /\ _metadata gm = metadata m)
          (wrap_init_main a config init (Some m)).
Proof.
  unfold wrap_init_main.
  eapply returns_bind; [apply returns_any | intros _ _].
  eapply returns_bind; [apply returns_any | intros [hi hm] _].
  eapply returns_bind; [apply PluginGraph_new_given | intros gi Hgi].
  eapply returns_bind; [apply returns_deref | intros ? ->].
  eapply returns_bind; [apply PluginGraph_new_given | intros gm Hgm].
  apply returns_ret. exists gi, gm.
  unfold given in *. split_and!; congruence.
Qed.

Lemma wrap_init_main_Ok a config init m w :
  constructs a config ->
  exists gs w', wrap_init_main a config init (Some m) w = (Ok gs, w').
Proof.
  intros Hc. unfold wrap_init_main.
  unfold bind at 1, debug, emit, modify.
  set (w0 := {| logged := _; calls := _ |}).
  assert (Hh : exists hs w1,
             match _zeGraphExt a with
             | Some ext =>
                 try_catch
                   (initGraphHandle <- getGraphHandle ext (compiledNetwork init) ;;
                    main <- lift (deref "mainNetworkDescription" (Some m)) ;;
                    try_catch
                      (mainGraphHandle <- getGraphHandle ext (compiledNetwork main) ;;
                       ret (Some initGraphHandle, Some mainGraphHandle))
                      (Runtime.info handle_failure_message ;;;
                       ret (Some initGraphHandle, None)))
                   (Runtime.info handle_failure_message ;;; ret (None, None))
             | None => ret (None, None)
             end w0 = (Ok hs, w1)).
  { destruct (_zeGraphExt a) as [ext|]; [apply handles_Ok | by eexists _, _]. }
  destruct Hh as ([hi hm] & w1 & Hh). rewrite (bind_Ok _ _ _ _ _ Hh).
  destruct (Hc hi (metadata init) (compiledNetwork init) w1) as (gi & w2 & Hgi).
  rewrite (bind_Ok _ _ _ _ _ Hgi). unfold bind at 1, lift, deref.
  destruct (Hc hm (metadata m) (compiledNetwork m) w2) as (gm & w3 & Hgm).
  rewrite (bind_Ok _ _ _ _ _ Hgm). by eexists _, _.
Qed.

Lemma wrap_init_main_throws a config init main :
  throws_only (fun e => initialize_failure e
                        \/ e = undefined_behavior "mainNetworkDescription")
              (wrap_init_main a config init main).
Proof.
  unfold wrap_init_main, debug.
  apply throws_only_bind; [apply throws_only_emit | intros _].
  apply throws_only_bind.
  { destruct (_zeGraphExt a) as [ext|]; [|apply throws_only_ret].
    apply throws_only_try_catch.
    - apply throws_only_bind.
      { eapply throws_only_weaken; [|apply getGraphHandle_catchable].
        intros e -> ?. done. }
      intros hi. apply throws_only_bind.
      { apply throws_only_lift. intros e He _. right.
        destruct main; [discriminate | by injection He as <-]. }
      intros m. apply throws_only_try_catch.
      + apply throws_only_bind; [|intros ?; apply throws_only_ret].
        eapply throws_only_weaken; [|apply getGraphHandle_catchable].
        intros e -> ?. done.
      + unfold Runtime.info.
        apply throws_only_bind; [apply throws_only_emit | intros _].
        apply throws_only_ret.
    - unfold Runtime.info.
      apply throws_only_bind; [apply throws_only_emit | intros _].
      apply throws_only_ret. }
  intros [hi hm].
  apply throws_only_bind.
  { eapply throws_only_weaken; [|apply PluginGraph_new_throws]. by left. }
  intros gi. apply throws_only_bind.
  { apply throws_only_lift. intros e He. right.
    destruct main; [discriminate | by injection He as <-]. }
  intros m. apply throws_only_bind; [|intros ?; apply throws_only_ret].
  eapply throws_only_weaken; [|apply PluginGraph_new_throws]. by left.
Qed.

Lemma compileWS_v23 a model config version w :
  SEPARATE_WEIGHTS_VERSION config = version ->
  version = 2 \/ version = 3 ->
  compileWS a model config w
  = (r <- collect a model config version ;;
     let '(initDscrs, mainNetworkDescription) := r in
     initNetworkDescription <- lift (vector_index "initDscrs[0]" initDscrs 0) ;;
     wrap_init_main a config initNetworkDescription mainNetworkDescription)
      {| logged := logged w ++ [log DEBUG "compile start"]; calls := calls w |}.
Proof.
  intros Hv [->| ->]; unfold compileWS, collect; rewrite Hv; reflexivity.
Qed.

Lemma collect_main a model config version inits m rest w :
  version = 2 \/ version = 3 ->
  replies a model config version = inits ++ m :: rest ->
  Forall named_init inits ->
  isInit (name (metadata m)) = false ->
  isMain (name (metadata m)) = true ->
  exists cs,
    collect a model config version w
    = (Ok (inits, Some m), {| logged := logged w; calls := calls w ++ cs |})
    /\ length cs = Datatypes.S (length inits).
Proof.
  intros [->| ->] Hr Hin Hm Hmain; unfold collect, replies in *; simpl in *;
    rewrite Hr.
  - rewrite collect_v2_main by done. eexists. split; [reflexivity|].
    by rewrite length_replicate.
  - destruct (collect_v3_main inits m rest false 0 [] w Hin Hm Hmain)
      as (cs & -> & Hlen). by exists cs.
Qed.

Lemma collect_neither a model config version inits m rest w :
  version = 2 \/ version = 3 ->
  replies a model config version = inits ++ m :: rest ->
  Forall named_init inits ->
  isInit (name (metadata m)) = false ->
  isMain (name (metadata m)) = false ->
  fst (collect a model config version w)
  = Throw (ov_Exception "Unexpected network name: " (name (metadata m))).
Proof.
  intros [->| ->] Hr Hin Hm Hmain; unfold collect, replies in *; simpl in *;
    rewrite Hr.
  - by apply collect_v2_neither.
  - by apply collect_v3_neither.
Qed.

Lemma fst_bind_Throw {S A B} (m : M S A) (k : A -> M S B) s e :
  fst (m s) = Throw e -> fst (bind m k s) = Throw e.
Proof. unfold bind. destruct (m s) as [[x|e'] s']; simpl; congruence. Qed.

Lemma take_first a config i0 more main w :
  (initNetworkDescription <- lift (vector_index "initDscrs[0]" (i0 :: more) 0) ;;
   wrap_init_main a config initNetworkDescription main) w
  = wrap_init_main a config i0 main w.
Proof. reflexivity. Qed.

(** C2.  Protocol versions 2 and 3, for a compiler that answers with
    [inits ++ m :: rest], [inits] named "init..." and [m] not.  When [m]
    is named "main...", the collection ends with [m] after
    [length inits + 1] calls of the compiler ([rest] is never asked for),
    and of the collected init segments only the first one is built into
    an artifact, followed by the artifact of [m]; when [m] is named
    neither way, [compileWS] throws "Unexpected network name: ". *)
Theorem split_weights_collection a model config version inits m rest w :
  SEPARATE_WEIGHTS_VERSION config = version ->
  version = 2 \/ version = 3 ->
  replies a model config version = inits ++ m :: rest ->
  Forall named_init inits ->
  isInit (name (metadata m)) = false ->
  (isMain (name (metadata m)) = true ->
   (exists cs,
       collect a model config version w
       = (Ok (inits, Some m), {| logged := logged w; calls := calls w ++ cs |})
       /\ length cs = Datatypes.S (length inits))
   /\ forall i0 more,
       inits = i0 :: more ->
       (forall gs w',
           compileWS a model config w = (Ok gs, w') ->
           exists gi gm,
             gs = [gi; gm]
             /\ _blobPtr gi = compiledNetwork i0 /\ _metadata gi = metadata i0
             /\ _blobPtr gm = compiledNetwork m /\ _metadata gm = metadata m)
       /\ (constructs a config ->
           exists gs w', compileWS a model config w = (Ok gs, w')))
  /\ (isMain (name (metadata m)) = false ->
      fst (compileWS a model config w)
      = Throw (ov_Exception "Unexpected network name: " (name (metadata m)))).
Proof.
  intros Hv Hver Hr Hin Hm. split.
  - intros Hmain. split; [by eapply collect_main|].
    intros i0 more ->.
    rewrite (compileWS_v23 a model config version w Hv Hver).
    destruct (collect_main a model config version (i0 :: more) m rest
                {| logged := logged w ++ [log DEBUG "compile start"];
                   calls := calls w |} Hver Hr Hin Hm Hmain)
      as (cs & Hc & _).
    rewrite (bind_Ok _ _ _ _ _ Hc). cbv beta iota. rewrite take_first.
    split.
    + intros gs w' Hrun. by eapply wrap_init_main_returns.
    + intros Hcon. by apply wrap_init_main_Ok.
  - intros Hmain.
    rewrite (compileWS_v23 a model config version w Hv Hver).
    apply fst_bind_Throw. by eapply collect_neither.
Qed.

(** C10.  Protocol versions 2 and 3: the first collected init segment is
    taken by [initDscrs[0]] without a check.  When the compiler emits an
    init segment before the main segment the index is in range and
    [compileWS] never ends in the undefined access; when it emits the
    main segment first, that access is what [compileWS] ends in. *)
Theorem first_init_taken a model config version inits m rest w :
  SEPARATE_WEIGHTS_VERSION config = version ->
  version = 2 \/ version = 3 ->
  replies a model config version = inits ++ m :: rest ->
  Forall named_init inits ->
  isInit (name (metadata m)) = false ->
  isMain (name (metadata m)) = true ->
  (inits <> [] ->
   (exists i0, vector_index "initDscrs[0]" inits 0 = Ok i0 /\ head inits = Some i0)
   /\ fst (compileWS a model config w) <> Throw (undefined_behavior "initDscrs[0]"))
  /\ (inits = [] ->
      fst (compileWS a model config w) = Throw (undefined_behavior "initDscrs[0]")).
Proof.
  intros Hv Hver Hr Hin Hm Hmain.
  rewrite (compileWS_v23 a model config version w Hv Hver).
  destruct (collect_main a model config version inits m rest
              {| logged := logged w ++ [log DEBUG "compile start"];
                 calls := calls w |} Hver Hr Hin Hm Hmain)
    as (cs & Hc & _).
  rewrite (bind_Ok _ _ _ _ _ Hc). split.
  - intros Hne. destruct inits as [|i0 more]; [done|]. split; [by exists i0|].
    cbv beta iota. rewrite take_first.
    destruct (wrap_init_main a config i0 (Some m) _) as [[gs|e] w'] eqn:Hw;
      [done|].
    simpl. intros [= ->].
    destruct (wrap_init_main_throws _ _ _ _ _ _ _ Hw)
      as [(call & status & He & _)|He]; discriminate.
  - intros ->. reflexivity.
Qed.

Lemma wrap_segment_returns a config nd results :
  returns (fun r => exists g, r = results ++ [g] /\ segment_of g = segment nd)
          (wrap_segment a config nd results).
Proof.
  unfold wrap_segment.
  eapply returns_bind; [apply returns_any | intros h _].
  eapply returns_bind; [apply PluginGraph_new_given | intros g Hg].
  apply returns_ret. exists g. split; [done|].
  unfold given, segment_of, segment in *. congruence.
Qed.

Lemma wrap_all_returns a config segs : forall results,
  returns (fun gs => segment_of <$> gs
                     = (segment_of <$> results) ++ (segment <$> segs))
          (for_each segs (wrap_segment a config) results).
Proof.
  induction segs as [|nd segs IH]; intros results; simpl.
  - apply returns_ret. by rewrite app_nil_r.
  - eapply returns_bind; [apply wrap_segment_returns|].
    intros r (g & -> & Hg). intros s gs s' H.
    rewrite (IH _ _ _ _ H), fmap_app. simpl. rewrite Hg, <- app_assoc. done.
Qed.

Lemma wrap_segment_Ok a config nd results w :
  constructs a config ->
  exists g w', wrap_segment a config nd results w = (Ok (results ++ [g]), w').
Proof.
  intros Hc. unfold wrap_segment.
  rewrite (bind_Ok _ _ _ _ _ (try_getGraphHandle_Ok a (compiledNetwork nd) w)).
  destruct (Hc (realized a (compiledNetwork nd)) (metadata nd)
               (compiledNetwork nd) (after_try a (compiledNetwork nd) w))
    as (g & w1 & Hg).
  rewrite (bind_Ok _ _ _ _ _ Hg). by eexists _, _.
Qed.

Lemma wrap_all_Ok a config segs : forall results w,
  constructs a config ->
  exists gs w', for_each segs (wrap_segment a config) results w = (Ok gs, w').
Proof.
  induction segs as [|nd segs IH]; intros results w Hc; simpl.
  - by eexists _, _.
  - destruct (wrap_segment_Ok a config nd results w Hc) as (g & w1 & Hg).
    rewrite (bind_Ok _ _ _ _ _ Hg). by apply IH.
Qed.

Lemma compileWS_v1_eq a model config w :
  SEPARATE_WEIGHTS_VERSION config = 1 ->
  compileWS a model config w
  = (last_one <- lift (vector_back "initMainNetworkDescriptions.back()"
                                   (compileWS_v1 (_compiler a) model config)) ;;
     OPENVINO_ASSERT (isMain (name (metadata last_one)))
                     "Unexpected network name for main:"
                     (name (metadata last_one)) ;;;
     for_each (compileWS_v1 (_compiler a) model config) (wrap_segment a config) [])
      {| logged := logged w ++ [log DEBUG "compile start"]; calls := calls w |}.
Proof. intros Hv. unfold compileWS. rewrite Hv. reflexivity. Qed.

(** C7.  Protocol version 1, for a non-empty list of segments from the
    single compiler call: when the name of the last segment does not
    start with "main", [compileWS] throws "Unexpected network name for
    main:"; otherwise whatever it returns is one artifact per segment,
    in the order of the segments, and it does return when the graph
    objects can be built. *)
Theorem split_weights_v1 a model config segs last_one w :
  SEPARATE_WEIGHTS_VERSION config = 1 ->
  compileWS_v1 (_compiler a) model config = segs ->
  last segs = Some last_one ->
  (isMain (name (metadata last_one)) = false ->
   fst (compileWS a model config w)
   = Throw (ov_Exception "Unexpected network name for main:"
                         (name (metadata last_one))))
  /\ (isMain (name (metadata last_one)) = true ->
      (forall gs w',
          compileWS a model config w = (Ok gs, w') ->
          segment_of <$> gs = segment <$> segs)
      /\ (constructs a config ->
          exists gs w', compileWS a model config w = (Ok gs, w'))).
Proof.
  intros Hv Hsegs Hlast.
  assert (Hrun : compileWS a model config w
                 = (OPENVINO_ASSERT (isMain (name (metadata last_one)))
                                    "Unexpected network name for main:"
                                    (name (metadata last_one)) ;;;
                    for_each segs (wrap_segment a config) [])
                     {| logged := logged w ++ [log DEBUG "compile start"];
                        calls := calls w |}).
  { rewrite (compileWS_v1_eq a model config w Hv), Hsegs.
    unfold bind at 1, lift, vector_back. by rewrite Hlast. }
  rewrite Hrun. unfold bind, OPENVINO_ASSERT.
  split; intros Hmain; rewrite Hmain; [reflexivity|]. simpl. split.
  - intros gs w' H. by rewrite (wrap_all_returns a config segs [] _ _ _ H).
  - intros Hc. by apply wrap_all_Ok.
Qed.

Lemma initialize_failure_not_handle e :
  initialize_failure e -> not_handle_failure e.
Proof. intros (call & status & -> & Hne) status' [= -> _]. done. Qed.

Lemma collect_v2_throws replies : forall acc,
  throws_only (fun e => exists msg detail, e = ov_Exception msg detail)
              (collect_v2 replies acc).
Proof.
  induction replies as [|nd replies IH]; intros acc; simpl;
    (apply throws_only_bind; [apply throws_only_record | intros _]).
  - apply throws_only_ret.
  - destruct (isInit _); [apply IH|].
    apply throws_only_bind; [|intros _; apply throws_only_ret].
    unfold OPENVINO_ASSERT. destruct (isMain _); [apply throws_only_ret|].
    apply throws_only_throw. eauto.
Qed.

Lemma collect_v3_throws replies : forall fresh i acc,
  throws_only (fun e => exists msg detail, e = ov_Exception msg detail)
              (collect_v3 replies fresh i acc).
Proof.
  induction replies as [|nd replies IH]; intros fresh i acc; simpl;
    (apply throws_only_bind; [apply throws_only_record | intros _]).
  - apply throws_only_ret.
  - destruct (isInit _); [apply IH|].
    apply throws_only_bind; [|intros _; apply throws_only_ret].
    unfold OPENVINO_ASSERT. destruct (isMain _); [apply throws_only_ret|].
    apply throws_only_throw. eauto.
Qed.

Lemma collect_throws a model config version :
  throws_only (fun e => exists msg detail, e = ov_Exception msg detail)
              (collect a model config version).
Proof.
  unfold collect. destruct (version =? 2);
    [apply collect_v2_throws | apply collect_v3_throws].
Qed.

Lemma compileWS_cases a model config w :
  SEPARATE_WEIGHTS_VERSION config = 1
  \/ SEPARATE_WEIGHTS_VERSION config = 2
  \/ SEPARATE_WEIGHTS_VERSION config = 3
  \/ fst (compileWS a model config w) = Throw invalid_version.
Proof.
  unfold compileWS.
  destruct (SEPARATE_WEIGHTS_VERSION config) as [|p|p]; auto.
  destruct p as [[p|p|]|[p|p|]|]; auto.
Qed.

Lemma try_getGraphHandle_throws P a blob :
  throws_only P (try_getGraphHandle a blob).
Proof.
  apply throws_only_Ok. intros s. rewrite try_getGraphHandle_Ok. eauto.
Qed.

Lemma wrap_segment_throws a config nd results :
  throws_only initialize_failure (wrap_segment a config nd results).
Proof.
  unfold wrap_segment.
  apply throws_only_bind; [apply try_getGraphHandle_throws | intros h].
  apply throws_only_bind; [apply PluginGraph_new_throws | intros g].
  apply throws_only_ret.
Qed.

Lemma compile_throws a model config :
  throws_only not_handle_failure (compile a model config).
Proof.
  unfold compile, debug.
  apply throws_only_bind; [apply throws_only_emit | intros _].
  apply throws_only_bind; [apply throws_only_emit | intros _].
  apply throws_only_bind; [apply try_getGraphHandle_throws | intros h].
  eapply throws_only_weaken; [|apply PluginGraph_new_throws].
  apply initialize_failure_not_handle.
Qed.

Lemma compileWS_throws a model config :
  throws_only not_handle_failure (compileWS a model config).
Proof.
  intros w e w' Hrun.
  destruct (compileWS_cases a model config w) as [Hv|[Hv|[Hv|Hv]]].
  - rewrite (compileWS_v1_eq a model config w Hv) in Hrun.
    revert Hrun. generalize {| logged := logged w ++ [log DEBUG "compile start"];
                               calls := calls w |}. intros w0 Hrun.
    revert w0 e w' Hrun.
    apply throws_only_bind.
    { apply throws_only_lift. intros e He. unfold vector_back in He.
      destruct (last _); [discriminate | by injection He as <-]. }
    intros l. apply throws_only_bind.
    { unfold OPENVINO_ASSERT. destruct (isMain _); [apply throws_only_ret|].
      by apply throws_only_throw. }
    intros _. apply throws_only_for_each. intros nd results.
    eapply throws_only_weaken; [|apply wrap_segment_throws].
    apply initialize_failure_not_handle.
  - rewrite (compileWS_v23 a model config 2 w Hv (or_introl eq_refl)) in Hrun.
    revert Hrun. generalize {| logged := logged w ++ [log DEBUG "compile start"];
                               calls := calls w |}. intros w0 Hrun.
    revert w0 e w' Hrun.
    apply throws_only_bind.
    { eapply throws_only_weaken; [|apply collect_throws].
      by intros e (msg & detail & ->). }
    intros [initDscrs main]. apply throws_only_bind.
    { apply throws_only_lift. intros e He. unfold vector_index in He.
      destruct (_ !! _); [discriminate | by injection He as <-]. }
    intros init. eapply throws_only_weaken; [|apply wrap_init_main_throws].
    intros e [He| ->]; [by apply initialize_failure_not_handle | done].
  - rewrite (compileWS_v23 a model config 3 w Hv (or_intror eq_refl)) in Hrun.
    revert Hrun. generalize {| logged := logged w ++ [log DEBUG "compile start"];
                               calls := calls w |}. intros w0 Hrun.
    revert w0 e w' Hrun.
    apply throws_only_bind.
    { eapply throws_only_weaken; [|apply collect_throws].
      by intros e (msg & detail & ->). }
    intros [initDscrs main]. apply throws_only_bind.
    { apply throws_only_lift. intros e He. unfold vector_index in He.
      destruct (_ !! _); [discriminate | by injection He as <-]. }
    intros init. eapply throws_only_weaken; [|apply wrap_init_main_throws].
    intros e [He| ->]; [by apply initialize_failure_not_handle | done].
  - rewrite Hrun in Hv. simpl in Hv. by injection Hv as ->.
Qed.

Lemma try_getGraphHandle_rejected a ext blob w :
  _zeGraphExt a = Some ext ->
  fst (pfnCreate ext blob) <> ZE_RESULT_SUCCESS ->
  try_getGraphHandle a blob w
  = (Ok None,
     {| logged := logged w ++ [log INFO handle_failure_message];
        calls := calls w ++ [call_getGraphHandle blob] |}).
Proof.
  intros Hext Hrej. rewrite try_getGraphHandle_Ok.
  unfold realized, after_try. rewrite Hext.
  by destruct (fst (pfnCreate ext blob)).
Qed.

Lemma wrap_segment_rejected a ext config nd results w :
  _zeGraphExt a = Some ext -> rejects_all ext ->
  exists g w',
    wrap_segment a config nd results w = (Ok (results ++ [g]), w')
    /\ export_only g
    /\ exists more,
        logged w' = logged w ++ log INFO handle_failure_message :: more.
Proof.
  intros Hext Hrej. unfold wrap_segment.
  rewrite (bind_Ok _ _ _ _ _
             (try_getGraphHandle_rejected a ext _ w Hext (Hrej _))).
  destruct (PluginGraph_new_no_handle
              (_zeGraphExt a) (metadata nd) (compiledNetwork nd) config
              {| logged := logged w ++ [log INFO handle_failure_message];
                 calls := calls w ++ [call_getGraphHandle (compiledNetwork nd)] |})
    as (g & w' & Hg & Hgiven & _ & more & Hlog).
  rewrite (bind_Ok _ _ _ _ _ Hg). exists g, w'. split_and!; [done| |].
  - unfold given in Hgiven. unfold export_only. congruence.
  - exists more. rewrite Hlog. simpl. by rewrite <- app_assoc.
Qed.

Lemma wrap_all_rejected a ext config segs :
  _zeGraphExt a = Some ext -> rejects_all ext ->
  forall results w,
    Forall export_only results ->
    exists gs w',
      for_each segs (wrap_segment a config) results w = (Ok gs, w')
      /\ Forall export_only gs
      /\ (exists more, logged w' = logged w ++ more)
      /\ (segs <> [] -> failure_logged w').
Proof.
  intros Hext Hrej.
  induction segs as [|nd segs IH]; intros results w Hres; simpl.
  - eexists _, _. split_and!; [reflexivity | done | by exists []; rewrite app_nil_r | done].
  - destruct (wrap_segment_rejected a ext config nd results w Hext Hrej)
      as (g & w1 & Hg & Hexp & more & Hlog).
    rewrite (bind_Ok _ _ _ _ _ Hg).
    destruct (IH (results ++ [g]) w1) as (gs & w2 & Hrun & Hall & [more2 Hlog2] & _).
    { apply Forall_app. split; [done|]. by apply Forall_singleton. }
    exists gs, w2. split_and!; [done | done | |].
    + eexists. rewrite Hlog2, Hlog, <- app_assoc. reflexivity.
    + intros _. unfold failure_logged. rewrite Hlog2, Hlog.
      apply elem_of_app. left. apply elem_of_app. right. apply elem_of_cons. by left.
Qed.

Lemma wrap_init_main_rejected a ext config init main w :
  _zeGraphExt a = Some ext -> rejects_all ext ->
  match wrap_init_main a config init main w with
  | (Ok gs, w') => Forall export_only gs /\ failure_logged w'
  | (Throw e, _) => e = undefined_behavior "mainNetworkDescription"
  end.
Proof.
  intros Hext Hrej. unfold wrap_init_main. rewrite Hext.
  unfold bind at 1, debug, emit, modify.
  set (w0 := {| logged := _; calls := _ |}).
  erewrite bind_Ok; cycle 1.
  { unfold try_catch.
    erewrite bind_Throw by (by eapply getGraphHandle_failure). simpl. reflexivity. }
  cbv beta iota.
  destruct (PluginGraph_new_no_handle
              (Some ext) (metadata init) (compiledNetwork init) config
              {| logged := logged w0 ++ [log INFO handle_failure_message];
                 calls := calls w0 ++ [call_getGraphHandle (compiledNetwork init)] |})
    as (gi & w1 & Hgi & Hgiven & _ & more & Hlog).
  simpl in Hgi. unfold Runtime.info, emit, bind, modify in *. simpl in *.
  rewrite Hgi. unfold lift, deref.
  destruct main as [m|]; [|done].
  destruct (PluginGraph_new_no_handle
              (Some ext) (metadata m) (compiledNetwork m) config w1)
    as (gm & w2 & Hgm & Hgiven2 & _ & more2 & Hlog2).
  rewrite Hgm. simpl. split.
  - unfold given in *. repeat constructor; unfold export_only; congruence.
  - unfold failure_logged. rewrite Hlog2, Hlog.
    apply elem_of_app. left. apply elem_of_app. left.
    apply elem_of_app. right. apply elem_of_cons. by left.
Qed.

Lemma compileWS_rejected a ext model config w :
  _zeGraphExt a = Some ext -> rejects_all ext ->
  match compileWS a model config w with
  | (Ok gs, w') => Forall export_only gs /\ failure_logged w'
  | (Throw e, _) => forall call status, e <> ze_failure call status
  end.
Proof.
  intros Hext Hrej.
  destruct (compileWS_cases a model config w) as [Hv|[Hv|[Hv|Hv]]].
  - rewrite (compileWS_v1_eq a model config w Hv).
    unfold bind at 1, lift, vector_back.
    destruct (last (compileWS_v1 (_compiler a) model config)) as [l|] eqn:Hlast;
      [|done].
    unfold bind at 1, OPENVINO_ASSERT. destruct (isMain _); [|done]. simpl.
    destruct (wrap_all_rejected a ext config
                (compileWS_v1 (_compiler a) model config) Hext Hrej []
                {| logged := logged w ++ [log DEBUG "compile start"];
                   calls := calls w |})
      as (gs & w' & -> & Hall & _ & Hlog); [done|].
    split; [done|]. apply Hlog. intros Hnil. by rewrite Hnil in Hlast.
  - rewrite (compileWS_v23 a model config 2 w Hv (or_introl eq_refl)).
    unfold bind at 1.
    destruct (collect a model config 2 _) as [[[inits main]|e] w1] eqn:Hc.
    + unfold bind at 1, lift, vector_index.
      destruct inits as [|i0 more]; [done|]. simpl.
      pose proof (wrap_init_main_rejected a ext config i0 main w1 Hext Hrej) as H.
      destruct (wrap_init_main a config i0 main w1) as [[gs|e] w2]; [done|].
      by rewrite H.
    + destruct (collect_throws _ _ _ _ _ _ _ Hc) as (msg & detail & ->). done.
  - rewrite (compileWS_v23 a model config 3 w Hv (or_intror eq_refl)).
    unfold bind at 1.
    destruct (collect a model config 3 _) as [[[inits main]|e] w1] eqn:Hc.
    + unfold bind at 1, lift, vector_index.
      destruct inits as [|i0 more]; [done|]. simpl.
      pose proof (wrap_init_main_rejected a ext config i0 main w1 Hext Hrej) as H.
      destruct (wrap_init_main a config i0 main w1) as [[gs|e] w2]; [done|].
      by rewrite H.
    + destruct (collect_throws _ _ _ _ _ _ _ Hc) as (msg & detail & ->). done.
  - destruct (compileWS a model config w) as [[gs|e] w']; simpl in Hv; [done|].
    by injection Hv as ->.
Qed.

Lemma constructs_constructible a config nd :
  constructs a config -> constructible a config nd.
Proof. intros Hc h w _. apply Hc. Qed.

(** The graph object of a segment, for no handle or for the handle the
    driver made. *)
Lemma PluginGraph_new_run a config nd h w :
  constructible a config nd ->
  h = None \/ h = realized a (compiledNetwork nd) ->
  exists g w' more,
    PluginGraph_new (_zeGraphExt a) h (metadata nd) (compiledNetwork nd) config w
    = (Ok g, w')
    /\ artifact_of a nd h g
    /\ logged w' = logged w ++ more.
Proof.
  intros Hc Hh.
  assert (Hrun : exists g w',
             PluginGraph_new (_zeGraphExt a) h (metadata nd) (compiledNetwork nd)
                             config w = (Ok g, w')).
  { destruct h as [h|].
    - destruct Hh as [Hh|Hh]; [discriminate|]. by apply Hc.
    - destruct (PluginGraph_new_no_handle (_zeGraphExt a) (metadata nd)
                  (compiledNetwork nd) config w) as (g & w' & Hg & _).
      by exists g, w'. }
  destruct Hrun as (g & w' & Hrun).
  destruct (log_grows_PluginGraph_new _ _ _ _ _ _ _ _ Hrun) as [more Hmore].
  exists g, w', more. split_and!; [done | | done].
  by apply (PluginGraph_new_given _ _ _ _ _ _ _ _ Hrun).
Qed.

Lemma after_try_refused a ext nd w :
  _zeGraphExt a = Some ext -> refuses_segment ext nd ->
  realized a (compiledNetwork nd) = None
  /\ logged (after_try a (compiledNetwork nd) w)
     = logged w ++ [log INFO handle_failure_message].
Proof.
  intros Hext Href. unfold realized, after_try, refuses_segment in *. rewrite Hext.
  by destruct (fst (pfnCreate ext (compiledNetwork nd))).
Qed.

Lemma after_try_grows a blob w :
  exists more, logged (after_try a blob w) = logged w ++ more.
Proof.
  unfold after_try. destruct (_zeGraphExt a) as [ext|].
  - destruct (fst (pfnCreate ext blob)); simpl;
      [exists []; by rewrite app_nil_r | by eexists].
  - exists []. by rewrite app_nil_r.
Qed.

Lemma wrap_segment_run a ext config nd results w :
  _zeGraphExt a = Some ext ->
  constructible a config nd ->
  exists g w' more,
    wrap_segment a config nd results w = (Ok (results ++ [g]), w')
    /\ artifact_of a nd (realized a (compiledNetwork nd)) g
    /\ logged w' = logged w ++ more
    /\ (refuses_segment ext nd -> log INFO handle_failure_message ∈ more).
Proof.
  intros Hext Hc. unfold wrap_segment.
  rewrite (bind_Ok _ _ _ _ _ (try_getGraphHandle_Ok a (compiledNetwork nd) w)).
  destruct (PluginGraph_new_run a config nd (realized a (compiledNetwork nd))
              (after_try a (compiledNetwork nd) w) Hc (or_intror eq_refl))
    as (g & w' & more & Hrun & Hg & Hlog).
  rewrite (bind_Ok _ _ _ _ _ Hrun).
  destruct (after_try_grows a (compiledNetwork nd) w) as [more0 Hmore0].
  exists g, w', (more0 ++ more). split_and!; [done | done | |].
  - by rewrite Hlog, Hmore0, <- app_assoc.
  - intros Href.
    destruct (after_try_refused a ext nd w Hext Href) as [_ Hlogged].
    rewrite Hlogged in Hmore0. apply app_inv_head in Hmore0 as <-.
    apply elem_of_app. left. by apply elem_of_cons; left.
Qed.

Lemma wrap_all_run a ext config segs :
  _zeGraphExt a = Some ext ->
  Forall (constructible a config) segs ->
  forall results w,
    exists gs w' more,
      for_each segs (wrap_segment a config) results w = (Ok (results ++ gs), w')
      /\ Forall2 (fun g nd => artifact_of a nd (realized a (compiledNetwork nd)) g)
                 gs segs
      /\ logged w' = logged w ++ more
      /\ (Exists (refuses_segment ext) segs ->
          log INFO handle_failure_message ∈ more).
Proof.
  intros Hext Hall. induction Hall as [|nd segs Hc Hall IH]; intros results w; simpl.
  - exists [], w, []. rewrite !app_nil_r. split_and!; try done.
    intros H. by apply Exists_nil in H.
  - destruct (wrap_segment_run a ext config nd results w Hext Hc)
      as (g & w1 & more1 & Hrun & Hg & Hlog1 & Hmsg1).
    rewrite (bind_Ok _ _ _ _ _ Hrun).
    destruct (IH (results ++ [g]) w1) as (gs & w2 & more2 & Hrest & Hgs & Hlog2 & Hmsg2).
    exists (g :: gs), w2, (more1 ++ more2). split_and!.
    + rewrite Hrest. by rewrite <- app_assoc.
    + by constructor.
    + by rewrite Hlog2, Hlog1, <- app_assoc.
    + intros Hex. apply Exists_cons in Hex as [Href|Hex]; apply elem_of_app; auto.
Qed.

(** The one [try] block of protocols 2 and 3. *)
Lemma handles_world ext init m w :
  try_catch
    (initGraphHandle <- getGraphHandle ext (compiledNetwork init) ;;
     main <- lift (deref "mainNetworkDescription" (Some m)) ;;
     try_catch
       (mainGraphHandle <- getGraphHandle ext (compiledNetwork main) ;;
        ret (Some initGraphHandle, Some mainGraphHandle))
       (Runtime.info handle_failure_message ;;;
        ret (Some initGraphHandle, None)))
    (Runtime.info handle_failure_message ;;; ret (None, None)) w
  = (Ok (match fst (pfnCreate ext (compiledNetwork init)) with
         | ZE_RESULT_SUCCESS =>
             (Some (snd (pfnCreate ext (compiledNetwork init))),
              match fst (pfnCreate ext (compiledNetwork m)) with
              | ZE_RESULT_SUCCESS => Some (snd (pfnCreate ext (compiledNetwork m)))
              | _ => None
              end)
         | _ => (None, None)
         end),
     {| logged :=
          logged w
          ++ match fst (pfnCreate ext (compiledNetwork init)),
                   fst (pfnCreate ext (compiledNetwork m)) with
             | ZE_RESULT_SUCCESS, ZE_RESULT_SUCCESS => []
             | _, _ => [log INFO handle_failure_message]
             end;
        calls :=
          calls w ++ call_getGraphHandle (compiledNetwork init)
          :: match fst (pfnCreate ext (compiledNetwork init)) with
             | ZE_RESULT_SUCCESS => [call_getGraphHandle (compiledNetwork m)]
             | _ => []
             end |}).
Proof.
  unfold try_catch, bind, getGraphHandle, record, modify, lift, deref,
    Runtime.info, emit. simpl.
  destruct (fst (pfnCreate ext (compiledNetwork init))); simpl; [|done].
  destruct (fst (pfnCreate ext (compiledNetwork m))); simpl;
    rewrite <- ?app_assoc, ?app_nil_r; reflexivity.
Qed.

Lemma wrap_init_main_run a ext config init m w :
  _zeGraphExt a = Some ext ->
  constructible a config init ->
  (is_Some (realized a (compiledNetwork init)) -> constructible a config m) ->
  exists gi gm w' more,
    wrap_init_main a config init (Some m) w = (Ok [gi; gm], w')
    /\ artifact_of a init (realized a (compiledNetwork init)) gi
    /\ artifact_of a m (match realized a (compiledNetwork init) with
                        | Some _ => realized a (compiledNetwork m)
                        | None => None
                        end) gm
    /\ logged w' = logged w ++ more
    /\ (refuses_segment ext init \/ refuses_segment ext m ->
        log INFO handle_failure_message ∈ more).
Proof.
  intros Hext Hci Hcm. unfold wrap_init_main. rewrite Hext.
  unfold bind at 1, debug, emit, modify.
  set (w0 := {| logged := logged w ++ [log DEBUG "compile end"]; calls := calls w |}).
  rewrite (bind_Ok _ _ _ _ _ (handles_world ext init m w0)).
  set (w1 := {| logged := _; calls := _ |}).
  assert (Hhs : (match fst (pfnCreate ext (compiledNetwork init)) with
                 | ZE_RESULT_SUCCESS =>
                     (Some (snd (pfnCreate ext (compiledNetwork init))),
                      match fst (pfnCreate ext (compiledNetwork m)) with
                      | ZE_RESULT_SUCCESS =>
                          Some (snd (pfnCreate ext (compiledNetwork m)))
                      | _ => None
                      end)
                 | _ => (None, None)
                 end)
                = (realized a (compiledNetwork init),
                   match realized a (compiledNetwork init) with
                   | Some _ => realized a (compiledNetwork m)
                   | None => None
                   end)).
  { unfold realized. rewrite Hext.
    by destruct (fst (pfnCreate ext (compiledNetwork init))). }
  rewrite Hhs. cbv beta iota.
  set (hm := match realized a (compiledNetwork init) with
             | Some _ => realized a (compiledNetwork m)
             | None => None
             end).
  rewrite <- Hext.
  destruct (PluginGraph_new_run a config init (realized a (compiledNetwork init))
              w1 Hci (or_intror eq_refl))
    as (gi & w2 & more2 & Hgi & Hai & Hlog2).
  rewrite (bind_Ok _ _ _ _ _ Hgi).
  unfold bind at 1, lift, deref.
  assert (Hm : exists gm w3 more3,
             PluginGraph_new (_zeGraphExt a) hm (metadata m) (compiledNetwork m)
                             config w2 = (Ok gm, w3)
             /\ artifact_of a m hm gm /\ logged w3 = logged w2 ++ more3).
  { unfold hm. destruct (realized a (compiledNetwork init)) as [hi|] eqn:Hri.
    - apply PluginGraph_new_run; [by apply Hcm | by right].
    - destruct (PluginGraph_new_no_handle (_zeGraphExt a) (metadata m)
                  (compiledNetwork m) config w2) as (g & w' & Hg & Hgiven & _ & more & Hl).
      by exists g, w', more. }
  destruct Hm as (gm & w3 & more3 & Hgm & Ham & Hlog3).
  rewrite (bind_Ok _ _ _ _ _ Hgm).
  eexists gi, gm, w3, _. split_and!; [reflexivity | done | done | |].
  - rewrite Hlog3, Hlog2. unfold w1, w0. simpl. rewrite <- !app_assoc. reflexivity.
  - intros Href. apply elem_of_app. right. apply elem_of_app. left.
    unfold refuses_segment in Href.
    destruct (fst (pfnCreate ext (compiledNetwork init))),
             (fst (pfnCreate ext (compiledNetwork m)));
      try (by apply elem_of_cons; left).
    by destruct Href.
Qed.

(** [compileWS] with a driver that refuses some handles. *)
Lemma compileWS_v1_refused a ext model config segs last_one w :
  _zeGraphExt a = Some ext ->
  SEPARATE_WEIGHTS_VERSION config = 1 ->
  compileWS_v1 (_compiler a) model config = segs ->
  last segs = Some last_one ->
  isMain (name (metadata last_one)) = true ->
  Forall (constructible a config) segs ->
  exists gs w' more,
    compileWS a model config w = (Ok gs, w')
    /\ Forall2 (fun g nd => artifact_of a nd (realized a (compiledNetwork nd)) g
                            /\ (refuses_segment ext nd -> export_only g))
               gs segs
    /\ logged w' = logged w ++ more
    /\ (Exists (refuses_segment ext) segs ->
        log INFO handle_failure_message ∈ more).
Proof.
  intros Hext Hv Hsegs Hlast Hmain Hall.
  rewrite (compileWS_v1_eq a model config w Hv), Hsegs.
  unfold bind at 1, lift, vector_back. rewrite Hlast.
  unfold bind at 1, OPENVINO_ASSERT. rewrite Hmain. simpl.
  destruct (wrap_all_run a ext config segs Hext Hall []
              {| logged := logged w ++ [log DEBUG "compile start"];
                 calls := calls w |})
    as (gs & w' & more & Hrun & Hgs & Hlog & Hmsg).
  exists gs, w', (log DEBUG "compile start" :: more). split_and!.
  - exact Hrun.
  - eapply Forall2_impl; [exact Hgs|]. intros g nd Hg. split; [done|].
    intros Href. unfold artifact_of, given in Hg. unfold export_only.
    destruct (after_try_refused a ext nd w Hext Href) as [Hnone _].
    congruence.
  - rewrite Hlog. simpl. by rewrite <- app_assoc.
  - intros Hex. apply elem_of_cons. right. by apply Hmsg.
Qed.

Lemma compileWS_v23_refused a ext model config version i0 inits m rest w :
  _zeGraphExt a = Some ext ->
  SEPARATE_WEIGHTS_VERSION config = version ->
  version = 2 \/ version = 3 ->
  replies a model config version = (i0 :: inits) ++ m :: rest ->
  Forall named_init (i0 :: inits) ->
  isInit (name (metadata m)) = false ->
  isMain (name (metadata m)) = true ->
  constructible a config i0 ->
  (is_Some (realized a (compiledNetwork i0)) -> constructible a config m) ->
  refuses_segment ext i0 \/ refuses_segment ext m ->
  exists gi gm w' more,
    compileWS a model config w = (Ok [gi; gm], w')
    /\ artifact_of a i0 (realized a (compiledNetwork i0)) gi
    /\ segment_of gm = segment m
    /\ export_only gm
    /\ (refuses_segment ext i0 -> export_only gi)
    /\ logged w' = logged w ++ more
    /\ log INFO handle_failure_message ∈ more.
Proof.
  intros Hext Hv Hver Hreplies Hinits HnotInit Hmain Hci Hcm Href.
  rewrite (compileWS_v23 a model config version w Hv Hver).
  destruct (collect_main a model config version (i0 :: inits) m rest
              {| logged := logged w ++ [log DEBUG "compile start"];
                 calls := calls w |} Hver Hreplies Hinits HnotInit Hmain)
    as (cs & Hcollect & _).
  rewrite (bind_Ok _ _ _ _ _ Hcollect). cbv beta iota.
  unfold bind at 1, lift, vector_index. simpl.
  match goal with
  | |- context [wrap_init_main a config i0 (Some m) ?w0] =>
      destruct (wrap_init_main_run a ext config i0 m w0 Hext Hci Hcm)
        as (gi & gm & w' & more & Hrun & Hgi & Hgm & Hlog & Hmsg)
  end.
  exists gi, gm, w', (log DEBUG "compile start" :: more). split_and!.
  - exact Hrun.
  - exact Hgi.
  - unfold artifact_of, given in Hgm. unfold segment_of, segment. congruence.
  - unfold artifact_of, given in Hgm. unfold export_only.
    destruct Href as [Href|Href].
    + destruct (after_try_refused a ext i0 w Hext Href) as [Hnone _].
      rewrite Hnone in Hgm. congruence.
    + destruct (after_try_refused a ext m w Hext Href) as [Hnone _].
      rewrite Hnone in Hgm. destruct (realized a (compiledNetwork i0)); congruence.
  - intros Href0. unfold artifact_of, given in Hgi. unfold export_only.
    destruct (after_try_refused a ext i0 w Hext Href0) as [Hnone _]. congruence.
  - rewrite Hlog. simpl. by rewrite <- app_assoc.
  - apply elem_of_cons. right. by apply Hmsg.
Qed.

(** C4.  With a driver context present: in [parse] a failure to create
    the graph handle is thrown to the caller as it is; in [compile] it is
    caught, logged at INFO level and an artifact without a handle is
    returned for the compiled bytes; [compileWS] with a driver that
    realizes no handle returns artifacts without handles and the INFO
    message, or throws something that is not a driver failure; and
    neither [compile] nor [compileWS] ever throws the failure of the
    creation of the handle.  [compileWS] with a driver that refuses some
    handles and makes others, when the handles that are made can be
    initialized: under protocol 1 it returns one artifact per segment,
    each with the handle the driver made for it and the refused ones
    without a handle, and the INFO message is logged when a segment is
    refused; under protocols 2 and 3, when the init or the main segment
    is refused, it returns the init and the main artifact, the main
    artifact without a handle (and the init artifact too when it is the
    one refused), and the INFO message is logged. *)
Theorem handle_failure_propagation a ext :
  _zeGraphExt a = Some ext ->
  (forall network config w,
      fst (pfnCreate ext network) <> ZE_RESULT_SUCCESS ->
      fst (parse a network config w)
      = Throw (ze_failure "pfnCreate2" (fst (pfnCreate ext network))))
  /\ (forall model config w,
         fst (pfnCreate ext (compiledNetwork (compile_model (_compiler a) model config)))
         <> ZE_RESULT_SUCCESS ->
         exists g w',
           compile a model config w = (Ok g, w')
           /\ export_only g
           /\ _blobPtr g = compiledNetwork (compile_model (_compiler a) model config)
           /\ failure_logged w')
  /\ (forall model config w,
         rejects_all ext ->
         match compileWS a model config w with
         | (Ok gs, w') => Forall export_only gs /\ failure_logged w'
         | (Throw e, _) => forall call status, e <> ze_failure call status
         end)
  /\ (forall model config w status,
         fst (compile a model config w) <> Throw (ze_failure "pfnCreate2" status)
         /\ fst (compileWS a model config w)
            <> Throw (ze_failure "pfnCreate2" status))
  /\ (forall model config w segs last_one,
         SEPARATE_WEIGHTS_VERSION config = 1 ->
         compileWS_v1 (_compiler a) model config = segs ->
         last segs = Some last_one ->
         isMain (name (metadata last_one)) = true ->
         Forall (constructible a config) segs ->
         exists gs w' more,
           compileWS a model config w = (Ok gs, w')
           /\ Forall2 (fun g nd =>
                         artifact_of a nd (realized a (compiledNetwork nd)) g
                         /\ (refuses_segment ext nd -> export_only g))
                      gs segs
           /\ logged w' = logged w ++ more
           /\ (Exists (refuses_segment ext) segs ->
               log INFO handle_failure_message ∈ more))
  /\ (forall model config version w i0 inits m rest,
         SEPARATE_WEIGHTS_VERSION config = version ->
         version = 2 \/ version = 3 ->
         replies a model config version = (i0 :: inits) ++ m :: rest ->
         Forall named_init (i0 :: inits) ->
         isInit (name (metadata m)) = false ->
         isMain (name (metadata m)) = true ->
         constructible a config i0 ->
         (is_Some (realized a (compiledNetwork i0)) -> constructible a config m) ->
         refuses_segment ext i0 \/ refuses_segment ext m ->
         exists gi gm w' more,
           compileWS a model config w = (Ok [gi; gm], w')
           /\ artifact_of a i0 (realized a (compiledNetwork i0)) gi
           /\ segment_of gm = segment m
           /\ export_only gm
           /\ (refuses_segment ext i0 -> export_only gi)
           /\ logged w' = logged w ++ more
           /\ log INFO handle_failure_message ∈ more).
Proof.
  intros Hext. split_and!.
  - intros network config w Hfail. unfold parse. rewrite Hext.
    do 2 (unfold bind at 1, debug, emit, modify).
    apply fst_bind_Throw. apply fst_bind_Throw.
    by erewrite getGraphHandle_failure.
  - intros model config w Hfail. unfold compile.
    do 2 (unfold bind at 1, debug, emit, modify).
    rewrite (bind_Ok _ _ _ _ _
               (try_getGraphHandle_rejected a ext _ _ Hext Hfail)).
    match goal with
    | |- context [PluginGraph_new ?e None ?md ?b ?c ?w0] =>
        destruct (PluginGraph_new_no_handle e md b c w0)
          as (g & w' & Hg & Hgiven & _ & more & Hlog)
    end.
    exists g, w'. unfold given in Hgiven. split_and!; [done | | |].
    + unfold export_only. congruence.
    + congruence.
    + unfold failure_logged. rewrite Hlog. simpl.
      apply elem_of_app. left. apply elem_of_app. right. apply elem_of_cons. by left.
  - intros model config w Hrej. by eapply compileWS_rejected.
  - intros model config w status. split.
    + destruct (compile a model config w) as [[g|e] w'] eqn:Hrun; [done|].
      simpl. intros [= ->]. by eapply (compile_throws _ _ _ _ _ _ Hrun).
    + destruct (compileWS a model config w) as [[g|e] w'] eqn:Hrun; [done|].
      simpl. intros [= ->]. by eapply (compileWS_throws _ _ _ _ _ _ Hrun).
  - intros model config w segs last_one Hv Hsegs Hlast Hmain Hall.
    by eapply compileWS_v1_refused.
  - intros model config version w i0 inits m rest Hv Hver Hreplies Hinits
           HnotInit Hmain Hci Hcm Href.
    by eapply compileWS_v23_refused.
Qed.

Lemma example_inits_named : Forall named_init [init0; init1].
Proof. repeat constructor. Qed.

(** C2 at a compiler that emits two init segments, the main segment and
    one more. *)
Lemma split_weights_collection_witness :
  exists cs,
    collect example_adapter example_model (example_config 3) 3 empty_world
    = (Ok ([init0; init1], Some main0),
       {| logged := logged empty_world; calls := calls empty_world ++ cs |})
    /\ length cs = 3%nat.
Proof.
  apply (split_weights_collection
           example_adapter example_model (example_config 3) 3
           [init0; init1] main0 [stray] empty_world);
    [reflexivity | by right | reflexivity | exact example_inits_named
     | reflexivity | reflexivity].
Defined.

(** C10 at the same compiler. *)
Lemma first_init_taken_witness :
  (exists i0, vector_index "initDscrs[0]" [init0; init1] 0 = Ok i0
              /\ head [init0; init1] = Some i0)
  /\ fst (compileWS example_adapter example_model (example_config 2) empty_world)
     <> Throw (undefined_behavior "initDscrs[0]").
Proof.
  apply (first_init_taken
           example_adapter example_model (example_config 2) 2
           [init0; init1] main0 [stray] empty_world);
    [reflexivity | by left | reflexivity | exact example_inits_named
     | reflexivity | reflexivity | discriminate].
Defined.

(** C7 at a compiler that returns an init and a main segment. *)
Lemma split_weights_v1_witness :
  (forall gs w',
      compileWS example_adapter example_model (example_config 1) empty_world
      = (Ok gs, w') ->
      segment_of <$> gs = segment <$> [init0; main0])
  /\ (constructs example_adapter (example_config 1) ->
      exists gs w',
        compileWS example_adapter example_model (example_config 1) empty_world
        = (Ok gs, w')).
Proof.
  apply (split_weights_v1
           example_adapter example_model (example_config 1)
           [init0; main0] main0 empty_world);
    reflexivity.
Defined.

(** C4 at a driver that refuses the init segments and makes the handle
    of the main segment ([parse] of refused bytes throws, [compileWS]
    returns its artifacts under protocols 1 and 2), and [compile] at a
    driver that refuses every handle. *)
Lemma handle_failure_propagation_witness :
  fst (parse picky_adapter [x01; x02] (example_config 1) empty_world)
  = Throw (ze_failure "pfnCreate2" (ZE_RESULT_ERROR 0x78000001))
  /\ (exists g w',
         compile example_adapter example_model (example_config 1) empty_world
         = (Ok g, w')
         /\ export_only g
         /\ _blobPtr g = compiledNetwork main0
         /\ failure_logged w')
  /\ (exists gs w' more,
         compileWS picky_adapter example_model (example_config 1) empty_world
         = (Ok gs, w')
         /\ Forall2 (fun g nd =>
                       artifact_of picky_adapter nd
                                   (realized picky_adapter (compiledNetwork nd)) g
                       /\ (refuses_segment picky_driver nd -> export_only g))
                    gs [init0; main0]
         /\ logged w' = logged empty_world ++ more
         /\ log INFO handle_failure_message ∈ more)
  /\ (exists gi gm w' more,
         compileWS picky_adapter example_model (example_config 2) empty_world
         = (Ok [gi; gm], w')
         /\ segment_of gi = segment init0
         /\ segment_of gm = segment main0
         /\ export_only gi
         /\ export_only gm
         /\ logged w' = logged empty_world ++ more
         /\ log INFO handle_failure_message ∈ more).
Proof.
  destruct (handle_failure_propagation picky_adapter picky_driver eq_refl)
    as (Hparse & _ & _ & _ & Hv1 & Hv23).
  destruct (handle_failure_propagation example_adapter example_driver eq_refl)
    as (_ & Hcompile & _).
  split_and!.
  - apply Hparse. discriminate.
  - apply (Hcompile example_model (example_config 1) empty_world). discriminate.
  - destruct (Hv1 example_model (example_config 1) empty_world [init0; main0] main0)
      as (gs & w' & more & Hrun & Hgs & Hlog & Hmsg);
      [reflexivity | reflexivity | reflexivity | reflexivity | |].
    { constructor; [|constructor; [|constructor]].
      - intros h w Hh. discriminate Hh.
      - intros h w _. eexists _, _. cbv. reflexivity. }
    exists gs, w', more. split_and!; [exact Hrun | exact Hgs | exact Hlog |].
    apply Hmsg. apply Exists_cons_hd. discriminate.
  - destruct (Hv23 example_model (example_config 2) 2 empty_world
                   init0 [init1] main0 [stray])
      as (gi & gm & w' & more & Hrun & Hgi & Hgm & Hem & Hei & Hlog & Hmsg);
      [reflexivity | by left | reflexivity | exact example_inits_named
       | reflexivity | reflexivity | | |by left; discriminate |].
    { intros h w Hh. discriminate Hh. }
    { intros [h Hh]. discriminate Hh. }
    exists gi, gm, w', more.
    split_and!; [exact Hrun | | exact Hgm | | exact Hem | exact Hlog | exact Hmsg].
    + unfold artifact_of, given in Hgi. unfold segment_of, segment. congruence.
    + apply Hei. discriminate.
Defined.

Example compile_example :
  match compile example_adapter example_model (example_config 1) empty_world with
  | (Ok g, w) => Some (_handle g, _blobPtr g, logged w, calls w)
  | _ => None
  end
  = Some (None, [x7f; x45; x4c; x46],
          [log DEBUG "compile start"; log DEBUG "compile end";
           log INFO handle_failure_message],
          [call_getGraphHandle [x7f; x45; x4c; x46]]).
Proof. reflexivity. Qed.

Example compileWS_v2_example :
  match compileWS example_adapter example_model (example_config 2) empty_world with
  | (Ok gs, w) => Some (segment_of <$> gs, _handle <$> gs, calls w)
  | _ => None
  end
  = Some ([segment init0; segment main0], [None; None],
          [call_compileWS_v2; call_compileWS_v2; call_compileWS_v2;
           call_getGraphHandle [x01; x02]]).
Proof. reflexivity. Qed.

Example compileWS_v3_calls :
  calls (snd (compileWS example_adapter example_model (example_config 3) empty_world))
  = [call_compileWS_v3 false 0; call_compileWS_v3 true 1; call_compileWS_v3 true 2;
     call_getGraphHandle [x01; x02]].
Proof. reflexivity. Qed.

Example compileWS_v1_example :
  match compileWS example_adapter example_model (example_config 1) empty_world with
  | (Ok gs, w) => Some (segment_of <$> gs)
  | _ => None
  end
  = Some [segment init0; segment main0].
Proof. reflexivity. Qed.

Example compileWS_v1_no_segment :
  let a := {| _compiler :=
                {| compile_model := fun _ _ => main0;
                   compileWS_v1 := fun _ _ => [];
                   compileWS_v2 := fun _ _ => [];
                   compileWS_v3 := fun _ _ => [];
                   parse_blob := fun _ _ => metadata main0;
                   get_compiler_version := 7 |};
              _zeGraphExt := None |} in
  fst (compileWS a example_model (example_config 1) empty_world)
  = Throw (undefined_behavior "initMainNetworkDescriptions.back()").
Proof. reflexivity. Qed.

Example compileWS_no_init :
  let a := {| _compiler :=
                {| compile_model := fun _ _ => main0;
                   compileWS_v1 := fun _ _ => [main0];
                   compileWS_v2 := fun _ _ => [main0];
                   compileWS_v3 := fun _ _ => [main0];
                   parse_blob := fun _ _ => metadata main0;
                   get_compiler_version := 7 |};
              _zeGraphExt := None |} in
  fst (compileWS a example_model (example_config 2) empty_world)
  = Throw (undefined_behavior "initDscrs[0]").
Proof. reflexivity. Qed.

Example compileWS_stray_segment :
  let a := {| _compiler :=
                {| compile_model := fun _ _ => main0;
                   compileWS_v1 := fun _ _ => [init0; stray];
                   compileWS_v2 := fun _ _ => [init0; stray; main0];
                   compileWS_v3 := fun _ _ => [init0; stray; main0];
                   parse_blob := fun _ _ => metadata main0;
                   get_compiler_version := 7 |};
              _zeGraphExt := None |} in
  fst (compileWS a example_model (example_config 3) empty_world)
  = Throw (ov_Exception "Unexpected network name: " "weights")
  /\ fst (compileWS a example_model (example_config 1) empty_world)
     = Throw (ov_Exception "Unexpected network name for main:" "weights").
Proof. split; reflexivity. Qed.

End AdapterProofs.

(** *** plugin_graph.cpp: the split-init export *)

Module ExportProofs.
Import PluginGraph Effects EffectFacts GraphSpec GraphProofs ExportSpec.

Lemma extends_refl s : extends s s [].
Proof. intros H. by rewrite app_nil_r. Qed.

Lemma extends_trans s1 s2 s3 b1 b2 :
  extends s1 s2 b1 -> extends s2 s3 b2 -> extends s1 s3 (b1 ++ b2).
Proof.
  intros H12 H23 H3. destruct (H23 H3) as [H2 ->].
  destruct (H12 H2) as [H1 ->]. by rewrite app_assoc.
Qed.

Lemma write_extends bs s : extends s (write bs s) bs.
Proof.
  unfold extends, write. destruct (failed s) eqn:Hf; [by rewrite Hf|].
  destruct (room s) as [r|]; [|done].
  by destruct (length bs <=? r)%nat.
Qed.

Lemma insert_streambuf_extends content s :
  extends s (insert_streambuf content s) content.
Proof.
  unfold insert_streambuf. destruct (failed s) eqn:Hf.
  - intros H. congruence.
  - destruct content as [|c content]; [done|].
    intros H. destruct (write_extends (c :: content) s H) as [_ Hw]. done.
Qed.

Lemma write_unlimited bs s : unlimited s -> unlimited (write bs s).
Proof. intros [Hf Hr]. unfold write. by rewrite Hf, Hr. Qed.

Lemma insert_streambuf_unlimited content s :
  content <> [] -> unlimited s -> unlimited (insert_streambuf content s).
Proof.
  intros Hne Hs. unfold insert_streambuf. destruct Hs as [Hf Hr]. rewrite Hf.
  destruct content; [done|]. by apply write_unlimited.
Qed.

Lemma write_init_blobs_run initGraphs : forall s w,
  exists s' returned w',
    write_init_blobs initGraphs s w = (Ok (s', returned), w')
    /\ extends s s' (concat (field <$> (_blobPtr <$> initGraphs)))
    /\ (unlimited s -> unlimited s').
Proof.
  induction initGraphs as [|g gs IH]; intros s w; simpl.
  - eexists _, _, _. split; [reflexivity|]. split; [apply extends_refl | done].
  - set (s1 := write (_blobPtr g) (insert_uint32 (to_uint32 (blob_size g)) s)).
    assert (H1 : extends s s1 (field (_blobPtr g))).
    { unfold field; eapply extends_trans; apply write_extends. }
    assert (U1 : unlimited s -> unlimited s1).
    { intros Hs. by do 2 apply write_unlimited. }
    destruct (failed s1) eqn:Hf.
    + eexists _, _, _. split; [reflexivity|]. split.
      * intros H. congruence.
      * intros Hs. destruct (U1 Hs). congruence.
    + destruct (IH s1 w) as (s' & r & w' & Hrun & Hext & Hun).
      exists s', r, w'. split; [done|]. split.
      * by eapply extends_trans.
      * auto.
Qed.

Lemma custom_export_split_init_run g stream initGraphs xml bin w :
  exists stream' w',
    custom_export_split_init g stream initGraphs xml bin w = (Ok stream', w')
    /\ extends stream stream'
               (text_layout xml bin (_blobPtr g) (_blobPtr <$> initGraphs))
    /\ (unlimited stream -> xml <> [] -> bin <> [] -> unlimited stream').
Proof.
  unfold custom_export_split_init.
  set (s1 := insert_streambuf xml (insert_uint32 _ stream)).
  set (s2 := insert_streambuf bin (insert_uint32 _ s1)).
  set (s3 := write (_blobPtr g) (insert_uint32 _ s2)).
  set (s4 := insert_char x3a (insert_uint32 _ s3)).
  assert (H1 : extends stream s1 (field xml)).
  { unfold field; eapply extends_trans; [apply write_extends | apply insert_streambuf_extends]. }
  assert (H2 : extends s1 s2 (field bin)).
  { unfold field; eapply extends_trans; [apply write_extends | apply insert_streambuf_extends]. }
  assert (H3 : extends s2 s3 (field (_blobPtr g))).
  { unfold field; eapply extends_trans; apply write_extends. }
  assert (H4 : extends s3 s4
                 (decimal (to_uint32 (Z.of_nat (length initGraphs))) ++ [x3a])).
  { unfold field; eapply extends_trans; apply write_extends. }
  destruct (write_init_blobs_run initGraphs s4 w)
    as (s' & returned & w1 & Hrun & H5 & U5).
  rewrite (bind_Ok _ _ _ _ _ Hrun). cbv beta iota.
  assert (Hext : extends stream s'
                   (text_layout xml bin (_blobPtr g) (_blobPtr <$> initGraphs))).
  { pose proof (extends_trans _ _ _ _ _
                  (extends_trans _ _ _ _ _
                     (extends_trans _ _ _ _ _
                        (extends_trans _ _ _ _ _ H1 H2) H3) H4) H5) as H.
    unfold text_layout. rewrite length_fmap.
    by rewrite <- !app_assoc in H. }
  assert (Hun : unlimited stream -> xml <> [] -> bin <> [] -> unlimited s').
  { intros Hs Hx Hb. apply U5. do 4 apply write_unlimited.
    apply insert_streambuf_unlimited; [done|]. apply write_unlimited.
    apply insert_streambuf_unlimited; [done|]. by apply write_unlimited. }
  destruct returned; [by eexists _, _|].
  destruct (level_at_least_INFO g); eexists _, _; (split; [reflexivity|]); done.
Qed.

(** *** A reader for what the export writes: [stream >> size], then
    [size] bytes *)

Lemma read_digits_uint u rest :
  no_digit_ahead rest ->
  read_digits (uint_bytes u ++ rest) = (uint_bytes u, rest).
Proof.
  intros Hrest. induction u as [|u IH|u IH|u IH|u IH|u IH|u IH|u IH|u IH|u IH|u IH];
    simpl; try (by rewrite IH).
  destruct rest as [|c rest]; [done|]. simpl in *. by rewrite Hrest.
Qed.

Lemma digits_value_acc u : forall acc,
  fold_left (fun acc c => acc * 10 + (byte_value c - 48)) (uint_bytes u) (Z.pos acc)
  = Z.pos (Pos.of_uint_acc u acc).
Proof.
  induction u as [|u IH|u IH|u IH|u IH|u IH|u IH|u IH|u IH|u IH|u IH];
    intros acc; simpl; [done|..];
    match goal with
    | |- fold_left _ _ ?z = _ =>
        let p := fresh "p" in
        evar (p : positive);
        replace z with (Z.pos p); [subst p; apply IH | subst p]
    end; cbn; lia.
Qed.

Lemma digits_value_uint u :
  digits_value (uint_bytes u) = Z.of_N (Pos.of_uint u).
Proof.
  unfold digits_value.
  induction u as [|u IH|u IH|u IH|u IH|u IH|u IH|u IH|u IH|u IH|u IH];
    simpl; [done | exact IH | ..];
    match goal with
    | |- fold_left _ _ ?z = _ =>
        let z' := eval cbv in z in
        change z with z'; apply digits_value_acc
    end.
Qed.

Lemma digits_value_decimal n : 0 <= n -> digits_value (decimal n) = n.
Proof.
  intros Hn. unfold decimal. rewrite digits_value_uint.
  change (Pos.of_uint ?u) with (N.of_uint u).
  rewrite DecimalN.Unsigned.of_to. lia.
Qed.

Lemma decimal_nonempty n : decimal n <> [].
Proof.
  unfold decimal. destruct (Z.to_N n) as [|p]; [done|]. simpl.
  pose proof (DecimalPos.Unsigned.to_uint_nonnil p) as H.
  by destruct (Pos.to_uint p).
Qed.

Lemma read_uint32_decimal n rest :
  0 <= n < 2 ^ 32 -> no_digit_ahead rest ->
  read_uint32 (decimal n ++ rest) = Some (n, rest).
Proof.
  intros Hn Hrest. unfold read_uint32, decimal.
  rewrite read_digits_uint by done. fold (decimal n).
  pose proof (decimal_nonempty n) as Hne.
  destruct (decimal n) as [|c ds] eqn:Hd; [done|].
  rewrite <- Hd, digits_value_decimal by lia.
  destruct (Z.ltb_spec n (2 ^ 32)); [done | lia].
Qed.

Lemma to_uint32_small n : 0 <= n < 2 ^ 32 -> to_uint32 n = n.
Proof. intros H. unfold to_uint32. by apply Z.mod_small. Qed.

Lemma read_field_field payload rest :
  Z.of_nat (length payload) < 2 ^ 32 ->
  no_digit_ahead (payload ++ rest) ->
  read_field (field payload ++ rest) = Some (payload, rest).
Proof.
  intros Hlen Hnd. unfold read_field, field.
  rewrite to_uint32_small by lia. rewrite <- app_assoc.
  rewrite read_uint32_decimal by (done || lia). simpl.
  rewrite Nat2Z.id, length_app.
  destruct (Nat.ltb_spec (length payload + length rest) (length payload)); [lia|].
  by rewrite take_app_length, drop_app_length.
Qed.

Lemma delimited_ahead payload rest :
  delimited payload -> no_digit_ahead (payload ++ rest).
Proof. by destruct payload. Qed.

Lemma decimal_ahead n rest : ~ delimited (decimal n ++ rest).
Proof.
  pose proof (decimal_nonempty n) as Hne. unfold decimal in *.
  destruct (N.to_uint (Z.to_N n)); simpl in *; try done.
Qed.

Lemma read_fields_fields inits :
  Forall (fun b => Z.of_nat (length b) < 2 ^ 32 /\ delimited b) inits ->
  read_fields (length inits) (concat (field <$> inits)) = Some inits.
Proof.
  induction 1 as [|b inits [Hlen Hd] _ IH]; [done|].
  simpl. rewrite read_field_field by (done || by apply delimited_ahead).
  simpl. change (list_fmap _ _ field inits) with (field <$> inits).
  by rewrite IH.
Qed.

Lemma read_split_init_layout xml bin main inits :
  Forall (fun b => Z.of_nat (length b) < 2 ^ 32 /\ delimited b)
         (xml :: bin :: main :: inits) ->
  Z.of_nat (length inits) < 2 ^ 32 ->
  read_split_init (text_layout xml bin main inits) = Some (xml, bin, main, inits).
Proof.
  intros Hall Hcount.
  apply Forall_cons in Hall as [[Lx Dx] Hall].
  apply Forall_cons in Hall as [[Lb Db] Hall].
  apply Forall_cons in Hall as [[Lm Dm] Hall].
  unfold read_split_init, text_layout.
  rewrite read_field_field by (done || by apply delimited_ahead). simpl.
  rewrite read_field_field by (done || by apply delimited_ahead). simpl.
  rewrite read_field_field by (done || by apply delimited_ahead). simpl.
  rewrite to_uint32_small by lia.
  rewrite read_uint32_decimal by (done || lia). simpl.
  change (list_fmap _ _ field inits) with (field <$> inits).
  rewrite Nat2Z.id, read_fields_fields by done. done.
Qed.

Example decimal_1234 : decimal 1234 = [x31; x32; x33; x34].
Proof. reflexivity. Qed.

Example exported_example :
  exported (graph_of_blob example_blob) [graph_of_blob [xff]] example_xml example_bin
  = ([x36; x3c; x6e; x65; x74; x2f; x3e;   (* 6<net/> *)
      x32; x00; x01;                       (* 2 and two bytes *)
      x34; x7f; x45; x4c; x46;             (* 4 and the main blob *)
      x31; x3a;                            (* 1: *)
      x31; xff],                           (* 1 and the init blob *)
     false).
Proof. reflexivity. Qed.

(** C6 does not hold as stated: the sizes are not written as four
    bytes each, whatever the byte order. *)
Lemma split_init_export_not_uint32_framed :
  ~ exists uint32 : Z -> list byte,
      (forall n, length (uint32 n) = 4%nat)
      /\ fst (exported (graph_of_blob example_blob) [graph_of_blob [xff]]
                       example_xml example_bin)
         = documented_layout uint32 example_xml example_bin example_blob [[xff]].
Proof.
  intros (uint32 & Hlen & Heq). apply (f_equal length) in Heq.
  rewrite exported_example in Heq. unfold documented_layout in Heq.
  simpl in Heq. rewrite !length_app in Heq. simpl in Heq.
  rewrite !length_app in Heq. simpl in Heq. rewrite !length_app in Heq.
  simpl in Heq. rewrite !Hlen in Heq. simpl in Heq. lia.
Qed.

(** A blob of length zero is not read back: its size runs into the
    digits of the count. *)
Example zero_length_blob_not_recovered :
  exported (graph_of_blob []) [graph_of_blob [xff]] example_xml example_bin
  = ([x36; x3c; x6e; x65; x74; x2f; x3e; x32; x00; x01;
      x30; x31; x3a; x31; xff], false)
  /\ read_split_init
       (fst (exported (graph_of_blob []) [graph_of_blob [xff]] example_xml example_bin))
     = None.
Proof. split; reflexivity. Qed.

(** Serialized content of length zero makes the stream fail, and
    nothing is written after it. *)
Example empty_content_fails :
  exported (graph_of_blob example_blob) [graph_of_blob [xff]] example_xml []
  = ([x36; x3c; x6e; x65; x74; x2f; x3e; x30], true).
Proof. reflexivity. Qed.

(** C6, as amended.  The multi-init export never throws.  When the
    stream has not failed afterwards, what was written is
    [text_layout]: every size as the decimal digits of its [uint32]
    value, directly followed by the bytes, and [':'] between the digits of
    the count and the first size.  A stream without a limit stays good
    when the serialized xml and bin contents are not empty.  Reading
    sizes as runs of digits gives back the xml bytes, the bin bytes, the
    main blob and every init blob when each of them is shorter than
    [2 ^ 32], is not empty and does not begin with a digit. *)
Theorem split_init_export_layout g stream initGraphs xml bin w :
  exists stream' w',
    custom_export_split_init g stream initGraphs xml bin w = (Ok stream', w')
    /\ (failed stream' = false ->
        written stream'
        = written stream
          ++ text_layout xml bin (_blobPtr g) (_blobPtr <$> initGraphs))
    /\ (failed stream = false -> room stream = None ->
        xml <> [] -> bin <> [] -> failed stream' = false)
    /\ (Forall (fun b => Z.of_nat (length b) < 2 ^ 32 /\ delimited b)
               (xml :: bin :: _blobPtr g :: (_blobPtr <$> initGraphs)) ->
        Z.of_nat (length initGraphs) < 2 ^ 32 ->
        read_split_init
          (text_layout xml bin (_blobPtr g) (_blobPtr <$> initGraphs))
        = Some (xml, bin, _blobPtr g, _blobPtr <$> initGraphs)).
Proof.
  destruct (custom_export_split_init_run g stream initGraphs xml bin w)
    as (stream' & w' & Hrun & Hext & Hun).
  exists stream', w'. split_and!; [done | | |].
  - intros Hf. by destruct (Hext Hf).
  - intros Hf Hr Hx Hb. by destruct (Hun (conj Hf Hr) Hx Hb).
  - intros Hall Hcount. apply read_split_init_layout; [done|].
    by rewrite length_fmap.
Qed.

Example read_back_example :
  read_split_init
    (fst (exported (graph_of_blob example_blob) [graph_of_blob [xff]]
                   example_xml [x41; x42]))
  = Some (example_xml, [x41; x42], example_blob, [[xff]]).
Proof. reflexivity. Qed.

(** C6, as amended, at one init blob. *)
Lemma split_init_export_layout_witness :
  exists stream' w',
    custom_export_split_init (graph_of_blob example_blob) empty_stream
                             [graph_of_blob [xff]] example_xml example_bin
                             empty_world
    = (Ok stream', w')
    /\ written stream'
       = written empty_stream
         ++ text_layout example_xml example_bin example_blob [[xff]]
    /\ read_split_init (text_layout example_xml example_bin example_blob [[xff]])
       = Some (example_xml, example_bin, example_blob, [[xff]]).
Proof.
  destruct (split_init_export_layout
              (graph_of_blob example_blob) empty_stream [graph_of_blob [xff]]
              example_xml example_bin empty_world)
    as (stream' & w' & Hrun & Hwritten & Hgood & Hread).
  exists stream', w'. split; [exact Hrun|]. split.
  - apply Hwritten. apply Hgood; [reflexivity | reflexivity | discriminate | discriminate].
  - apply Hread; [|simpl; lia].
    repeat constructor; simpl; lia.
Defined.

End ExportProofs.

(* ===================================================================== *)
(** ** Further properties of the code                                 *)
(* ===================================================================== *)

(** *** The pipeline: construction, slices, updates and submission *)

Module PipelineLaws.
Import ZeroPipeline Effects EffectFacts PipelineSpec PipelineProofs AdapterProofs.
Import PipelineUse.








(** No output tensor at all. *)
Example Pipeline_new_missing_output :
  fst (Pipeline_new example_executor {| create_succeeds := false |} None
                    example_inputs [] 2 false example_state)
  = Throw (out_of_range "outputTensorsData").
Proof. reflexivity. Qed.


(** X3.  When the number of command lists fits [uint32_t], the event pool
    is sized [max 1 n], and the event at position [i] is taken from that
    pool at index [i], which is inside the pool; so no two events of a
    pipeline share an index. *)
Theorem events_fit_the_pool executor pool prof inputs outputs n sync d p d' :
  Pipeline_new executor pool prof inputs outputs n sync d = (Ok p, d') ->
  Z.of_nat n < 2 ^ 32 ->
  pool_count (_event_pool p) = Z.max 1 (Z.of_nat n)
  /\ forall i ev,
      _events p !! i = Some ev ->
      ev_pool ev = pool_handle (_event_pool p)
      /\ ev_index ev = Z.of_nat i
      /\ 0 <= ev_index ev < pool_count (_event_pool p).
Proof.
  intros Hnew Hn.
  destruct (Pipeline_new_Ok_recorded _ _ _ _ _ _ _ _ _ _ Hnew)
    as (_ & _ & _ & Hev & _ & Hcount & query & Hlists).
  assert (Hpool : pool_count (_event_pool p) = Z.max 1 (Z.of_nat n)).
  { rewrite Hcount. destruct n as [|n]; [done|]. simpl Nat.eqb. cbv iota.
    unfold to_uint32. rewrite Z.mod_small by lia. lia. }
  split; [done|]. intros i ev Hi.
  assert (Hlt : (i < n)%nat) by (rewrite <- Hev; by eapply lookup_lt_Some).
  destruct (Hlists i Hlt) as (cl0 & ev' & a0 & Hev' & Hix & Hpl & _).
  rewrite Hi in Hev'. injection Hev' as <-.
  rewrite Hpool, Hix. unfold to_uint32. rewrite Z.mod_small by lia.
  split_and!; try done; lia.
Qed.

(** X3 at the pipeline of two command lists. *)
Lemma events_fit_the_pool_witness :
  pool_count (_event_pool example_pipeline) = Z.max 1 (Z.of_nat 2)
  /\ forall i ev,
      _events example_pipeline !! i = Some ev ->
      ev_pool ev = pool_handle (_event_pool example_pipeline)
      /\ ev_index ev = Z.of_nat i
      /\ 0 <= ev_index ev < pool_count (_event_pool example_pipeline).
Proof.
  apply (events_fit_the_pool example_executor {| create_succeeds := false |} None
           example_inputs example_outputs 2 false example_state
           example_pipeline example_state_after).
  - vm_compute. reflexivity.
  - vm_compute. reflexivity.
Defined.

(** X4.  The address expression [mem + (i * size) / n] of the constructor
    and of [updateCommandList], without wrap-around ([n * size] below
    [2^64]): slice [0] starts at the base address, the slices are in
    increasing order, slice [i] is at least [size / n] bytes away from
    slice [i + 1] and the last of them ends inside the tensor; when [n]
    divides [size] slice [i] starts exactly at [mem + i * (size / n)]. *)
Theorem slices_tile_the_tensor t i n :
  (i < n)%nat ->
  0 <= size t ->
  Z.of_nat n * size t < size_t_max ->
  let share := size t / Z.of_nat n in
  mem t <= slice_address t i n
  /\ slice_address t i n + share <= slice_address t (Datatypes.S i) n
  /\ slice_address t (Datatypes.S i) n <= mem t + size t
  /\ slice_address t 0 n = mem t
  /\ ((Z.of_nat n | size t) -> slice_address t i n = mem t + Z.of_nat i * share).
Proof.
  intros Hi Hsize Hwrap share.
  assert (Hn : 0 < Z.of_nat n) by lia.
  assert (Hexact : forall j, (j <= n)%nat ->
             slice_address t j n = mem t + (Z.of_nat j * size t) / Z.of_nat n).
  { intros j Hj. apply slice_address_exact; [done|]. nia. }
  rewrite !Hexact by lia.
  assert (Hstep : Z.of_nat (Datatypes.S i) * size t
                  = Z.of_nat i * size t + size t) by lia.
  split_and!.
  - assert (0 <= Z.of_nat i * size t / Z.of_nat n); [|lia].
    apply Z.div_pos; [nia | lia].
  - rewrite Hstep. unfold share.
    pose proof (Z.div_mod (Z.of_nat i * size t) (Z.of_nat n) ltac:(lia)) as Ha.
    pose proof (Z.div_mod (size t) (Z.of_nat n) ltac:(lia)) as Hb.
    pose proof (Z.mod_pos_bound (Z.of_nat i * size t) (Z.of_nat n) Hn) as Ha'.
    pose proof (Z.mod_pos_bound (size t) (Z.of_nat n) Hn) as Hb'.
    assert (Z.of_nat i * size t / Z.of_nat n + size t / Z.of_nat n
            <= (Z.of_nat i * size t + size t) / Z.of_nat n); [|lia].
    apply Z.div_le_lower_bound; [lia|]. nia.
  - assert (Z.of_nat (Datatypes.S i) * size t / Z.of_nat n <= size t); [|lia].
    apply Z.div_le_upper_bound; [lia|]. nia.
  - simpl. rewrite Z.div_0_l by lia. lia.
  - intros [k Hk]. unfold share. rewrite Hk.
    rewrite Z.div_mul by lia.
    replace (Z.of_nat i * (k * Z.of_nat n)) with (Z.of_nat i * k * Z.of_nat n) by lia.
    rewrite Z.div_mul by lia. lia.
Qed.

(** X4 at a tensor of 30 bytes cut in four. *)
Lemma slices_tile_the_tensor_witness :
  let t := {| mem := 8192; size := 30 |} in
  let share := size t / Z.of_nat 4 in
  mem t <= slice_address t 2 4
  /\ slice_address t 2 4 + share <= slice_address t 3 4
  /\ slice_address t 3 4 <= mem t + size t
  /\ slice_address t 0 4 = mem t
  /\ ((Z.of_nat 4 | size t) -> slice_address t 2 4 = mem t + Z.of_nat 2 * share).
Proof.
  apply (slices_tile_the_tensor {| mem := 8192; size := 30 |} 2 4).
  - lia.
  - simpl. lia.
  - vm_compute. reflexivity.
Defined.

Lemma updateCommandList_run tensorsData index p d :
  updateCommandList tensorsData index p d = (Ok (updated tensorsData index p), d).
Proof.
  destruct (updateCommandList_Ok tensorsData index p d)
    as (p' & Hrun & Hpool & Hprof & Hsync & Hev & Hfe & Hlen & Hlists).
  rewrite Hrun. f_equal. f_equal. unfold updated, with_command_lists.
  destruct p' as [pool' prof' lists' events' fences' sync']. simpl in *. subst.
  f_equal. apply list_eq. intros i. by rewrite Hlists, list_lookup_imap.
Qed.

Lemma updated_length tensorsData index p :
  length (_command_lists (updated tensorsData index p)) = length (_command_lists p).
Proof. unfold updated. simpl. apply length_imap. Qed.

(** X5.  Two calls of [updateCommandList] in a row, the first for
    argument [index1] with tensor [t1], the second for [index2] with
    [t2], on a pipeline of [n] command lists: both return and leave the
    driver state alone, and every list [i] is the same driver object,
    closed, and runs the graph with [index2] at slice [i] of [n] of [t2],
    with [index1], when it is another index, still at slice [i] of [n] of
    [t1], and with every other argument as it was bound.  So the second
    call overrides the first on the same index and keeps what the first
    one did on any other. *)
Theorem updateCommandList_composes t1 t2 index1 index2 p d :
  exists p2,
    (p1 <- updateCommandList t1 index1 p ;; updateCommandList t2 index2 p1) d
    = (Ok p2, d)
    /\ length (_command_lists p2) = length (_command_lists p)
    /\ forall i cl,
        _command_lists p !! i = Some cl ->
        exists cl2,
          _command_lists p2 !! i = Some cl2
          /\ cl_handle cl2 = cl_handle cl
          /\ cl_closed cl2 = true
          /\ (is_Some (bound_argument cl index2) ->
              bound_argument cl2 index2
              = Some (slice_address t2 i (length (_command_lists p))))
          /\ (index1 <> index2 -> is_Some (bound_argument cl index1) ->
              bound_argument cl2 index1
              = Some (slice_address t1 i (length (_command_lists p))))
          /\ (forall a, a <> index1 -> a <> index2 ->
                        bound_argument cl2 a = bound_argument cl a).
Proof.
  exists (updated t2 index2 (updated t1 index1 p)).
  split_and!.
  - unfold bind. by rewrite !updateCommandList_run.
  - by rewrite !updated_length.
  - intros i cl Hcl.
    set (n := length (_command_lists p)).
    exists (updated_list index2 (slice_address t2 i n)
              (updated_list index1 (slice_address t1 i n) cl)).
    assert (Hrec : forall a, is_Some (bound_argument cl a) ->
                             is_Some (recorded_arguments (cl_instructions cl))).
    { intros a [v Hv]. unfold bound_argument in Hv.
      destruct (recorded_arguments (cl_instructions cl)); [by eexists | done]. }
    split_and!.
    + pose proof (updated_length t1 index1 p) as Hlen.
      unfold updated at 1. cbn [_command_lists with_command_lists].
      rewrite list_lookup_imap, Hlen. fold n.
      unfold updated. cbn [_command_lists with_command_lists].
      rewrite list_lookup_imap, Hcl. reflexivity.
    + reflexivity.
    + reflexivity.
    + intros Hb. apply updated_list_index.
      unfold updated_list. simpl. rewrite recorded_arguments_patch.
      apply fmap_is_Some. by apply (Hrec index2).
    + intros Hne Hb. rewrite updated_list_other by done.
      apply updated_list_index. by apply (Hrec index1).
    + intros a Ha1 Ha2. by rewrite !updated_list_other.
Qed.

(** X5 at the pipeline of two command lists: argument 0 is updated to
    one tensor and argument 1 to another. *)
Lemma updateCommandList_composes_witness :
  exists p2,
    (p1 <- updateCommandList example_tensor 0%N example_pipeline ;;
     updateCommandList {| mem := 16384; size := 30 |} 1%N p1) example_state_after
    = (Ok p2, example_state_after)
    /\ forall i cl,
        _command_lists example_pipeline !! i = Some cl ->
        exists cl2,
          _command_lists p2 !! i = Some cl2
          /\ cl_closed cl2 = true
          /\ (is_Some (bound_argument cl 1%N) ->
              bound_argument cl2 1%N
              = Some (slice_address {| mem := 16384; size := 30 |} i 2))
          /\ (is_Some (bound_argument cl 0%N) ->
              bound_argument cl2 0%N = Some (slice_address example_tensor i 2)).
Proof.
  destruct (updateCommandList_composes
              example_tensor {| mem := 16384; size := 30 |} 0%N 1%N
              example_pipeline example_state_after)
    as (p2 & Hrun & _ & Hlists).
  exists p2. split; [exact Hrun|].
  intros i cl Hcl.
  destruct (Hlists i cl Hcl) as (cl2 & Hcl2 & _ & Hclosed & H2 & H1 & _).
  exists cl2. split_and!; [exact Hcl2 | exact Hclosed | exact H2 |].
  intros Hb. apply H1; [discriminate | exact Hb].
Defined.

Lemma push_run p d :
  reusable p ->
  push p d
  = (Ok tt, {| graph_arguments := graph_arguments d;
               next_handle := next_handle d;
               queue := queue d ++ submissions p |}).
Proof.
  intros (He & Hf & Hclosed & _). unfold push.
  destruct (for_range_invariant
              (fun i (_ : unit) s =>
                 graph_arguments s = graph_arguments d
                 /\ next_handle s = next_handle d
                 /\ queue s = queue d ++ take i (submissions p))
              (fun i _ =>
                 cl <- lift (vector_at "_command_lists" (_command_lists p) i) ;;
                 if sync_output_with_fences_ p then
                   fe <- lift (vector_at "_fences" (_fences p) i) ;;
                   executeCommandList cl (Some fe)
                 else executeCommandList cl None)
              (length (_command_lists p)) 0%nat tt d)
    as ([] & d' & Hrun & Hga & Hnh & Hq).
  - split_and!; try done. simpl. by rewrite app_nil_r.
  - intros i [] s Hi (Hga & Hnh & Hq).
    destruct (lookup_lt_is_Some_2 (_command_lists p) i) as [cl Hcl]; [lia|].
    destruct (lookup_lt_is_Some_2 (_fences p) i) as [fe Hfe]; [lia|].
    pose proof (Hclosed i cl Hcl) as Hc.
    exists tt.
    exists {| graph_arguments := graph_arguments s;
              next_handle := next_handle s;
              queue := queue s ++
                       [{| sub_instructions := cl_instructions cl;
                           sub_fence := if sync_output_with_fences_ p
                                        then Some (fence_handle fe) else None |}] |}.
    split.
    { unfold bind, lift, vector_at. rewrite Hcl.
      destruct (sync_output_with_fences_ p); simpl; rewrite ?Hfe;
        unfold executeCommandList; rewrite Hc; reflexivity. }
    simpl. split_and!; try done.
    rewrite Hq, <- app_assoc. f_equal.
    erewrite take_S_r; [reflexivity|].
    unfold submissions. rewrite list_lookup_imap, Hcl. simpl.
    by rewrite Hfe.
  - rewrite Hrun. f_equal. destruct d' as [ga nh q]. simpl in *. subst.
    f_equal. f_equal. apply take_ge.
    unfold submissions. by rewrite length_imap.
Qed.

(** X6.  [push] on a pipeline whose lists are closed hands the queue
    exactly the command lists of the pipeline, once each and in index
    order, after what the queue already held; in fence-sync mode each
    list goes with the fence of its own index, in event-sync mode with no
    fence.  Nothing else of the driver state changes. *)
Theorem push_submits_in_order p d :
  reusable p ->
  push p d
  = (Ok tt, {| graph_arguments := graph_arguments d;
               next_handle := next_handle d;
               queue := queue d ++ submissions p |})
  /\ length (submissions p) = length (_command_lists p)
  /\ forall i cl,
      _command_lists p !! i = Some cl ->
      exists s, submissions p !! i = Some s
                /\ sub_instructions s = cl_instructions cl
                /\ sub_fence s
                   = (if sync_output_with_fences_ p
                      then fence_handle <$> _fences p !! i else None)
                /\ (sync_output_with_fences_ p = true -> is_Some (sub_fence s)).
Proof.
  intros Hp. split; [by apply push_run|].
  destruct Hp as (He & Hf & Hclosed & _). split.
  - unfold submissions. by rewrite length_imap.
  - intros i cl Hcl. eexists. split.
    { unfold submissions. rewrite list_lookup_imap, Hcl. reflexivity. }
    simpl. split_and!; try done. intros ->.
    apply fmap_is_Some, lookup_lt_is_Some_2.
    rewrite Hf. by eapply lookup_lt_Some.
Qed.

(** The pipeline of the examples is as the constructor leaves it. *)
Lemma example_pipeline_reusable : reusable example_pipeline.
Proof.
  eapply recorded_reusable.
  apply (Pipeline_new_Ok_recorded example_executor {| create_succeeds := false |} None
           example_inputs example_outputs 2 false example_state
           example_pipeline example_state_after).
  vm_compute. reflexivity.
Qed.

(** X6 at the pipeline of two command lists. *)
Lemma push_submits_in_order_witness :
  push example_pipeline example_state_after
  = (Ok tt, {| graph_arguments := graph_arguments example_state_after;
               next_handle := next_handle example_state_after;
               queue := queue example_state_after ++ submissions example_pipeline |})
  /\ length (submissions example_pipeline) = length (_command_lists example_pipeline)
  /\ forall i cl,
      _command_lists example_pipeline !! i = Some cl ->
      exists s, submissions example_pipeline !! i = Some s
                /\ sub_instructions s = cl_instructions cl
                /\ sub_fence s
                   = (if sync_output_with_fences_ example_pipeline
                      then fence_handle <$> _fences example_pipeline !! i else None)
                /\ (sync_output_with_fences_ example_pipeline = true ->
                    is_Some (sub_fence s)).
Proof.
  apply (push_submits_in_order example_pipeline example_state_after).
  exact example_pipeline_reusable.
Defined.

Lemma updated_reusable tensorsData index p :
  reusable p -> reusable (updated tensorsData index p).
Proof.
  intros (He & Hf & Hclosed & Hsig). unfold reusable.
  rewrite updated_length. split_and!; try done.
  - intros i cl. unfold updated. simpl. rewrite list_lookup_imap.
    destruct (_command_lists p !! i); simpl; [|done]. by intros [= <-].
  - intros Hsync i cl ev. unfold updated. simpl. rewrite list_lookup_imap.
    destruct (_command_lists p !! i) as [cl0|] eqn:Hcl; simpl; [|done].
    intros [= <-] Hev. simpl. apply list_elem_of_fmap.
    exists (SignalEvent (ev_handle ev)). split; [done|]. by eapply Hsig.
Qed.

(** X7.  [updateCommandList] keeps a pipeline usable: the lists are
    closed again and still signal their events, so [reset(); push();
    pull();] goes on returning for any number of rounds; and the next
    [push] submits, for every list [i], the graph execution with the
    updated argument at the new slice address and every other argument
    as it was bound before. *)
Theorem updateCommandList_then_push tensorsData index p d :
  reusable p ->
  exists p',
    updateCommandList tensorsData index p d = (Ok p', d)
    /\ reusable p'
    /\ (forall rounds, exists q s',
           repeat_reset_push_pull rounds p' d = (Ok q, s') /\ same_objects p' q)
    /\ exists d',
        push p' d = (Ok tt, d')
        /\ queue d' = queue d ++ submissions p'
        /\ forall i cl,
            _command_lists p !! i = Some cl ->
            exists s, submissions p' !! i = Some s
                      /\ (is_Some (bound_argument cl index) ->
                          submitted_argument s index
                          = Some (slice_address tensorsData i
                                                (length (_command_lists p))))
                      /\ forall a, a <> index ->
                                   submitted_argument s a = bound_argument cl a.
Proof.
  intros Hp. exists (updated tensorsData index p).
  pose proof (updated_reusable tensorsData index p Hp) as Hp'.
  split_and!.
  - apply updateCommandList_run.
  - done.
  - intros rounds.
    destruct (repeat_reset_push_pull_Ok rounds _ d Hp') as (q & s' & Hrun & Hsame & _).
    eauto.
  - eexists. split; [by apply push_run|]. simpl. split; [done|].
    intros i cl Hcl. eexists. split.
    { unfold submissions. rewrite list_lookup_imap. unfold updated at 1. simpl.
      rewrite list_lookup_imap, Hcl. reflexivity. }
    unfold submitted_argument. simpl. split.
    + intros Hbound.
      apply (updated_list_index index
               (slice_address tensorsData i (length (_command_lists p))) cl).
      unfold bound_argument in Hbound.
      destruct (recorded_arguments (cl_instructions cl)); [done|].
      by destruct Hbound.
    + intros a Ha.
      apply (updated_list_other index
               (slice_address tensorsData i (length (_command_lists p))) cl a Ha).
Qed.

(** X7 at the pipeline of two command lists. *)
Lemma updateCommandList_then_push_witness :
  exists p',
    updateCommandList example_tensor 0%N example_pipeline example_state_after
    = (Ok p', example_state_after)
    /\ reusable p'
    /\ (forall rounds, exists q s',
           repeat_reset_push_pull rounds p' example_state_after = (Ok q, s')
           /\ same_objects p' q)
    /\ exists d',
        push p' example_state_after = (Ok tt, d')
        /\ queue d' = queue example_state_after ++ submissions p'
        /\ forall i cl,
            _command_lists example_pipeline !! i = Some cl ->
            exists s, submissions p' !! i = Some s
                      /\ (is_Some (bound_argument cl 0%N) ->
                          submitted_argument s 0%N
                          = Some (slice_address example_tensor i
                                    (length (_command_lists example_pipeline))))
                      /\ forall a, a <> 0%N ->
                                   submitted_argument s a = bound_argument cl a.
Proof.
  apply (updateCommandList_then_push example_tensor 0%N example_pipeline
           example_state_after).
  exact example_pipeline_reusable.
Defined.

(** X8.  [reset] leaves the command lists and the event pool as they are
    and resets only the primitives [pull] waits on: in fence-sync mode
    every fence and no event, in event-sync mode every event and no
    fence; the driver state does not change, and a second [reset]
    changes nothing more. *)
Theorem reset_touches_waited_primitives_only p d :
  length (_events p) = length (_command_lists p) ->
  length (_fences p) = length (_command_lists p) ->
  exists p',
    reset p d = (Ok p', d)
    /\ _command_lists p' = _command_lists p
    /\ _event_pool p' = _event_pool p
    /\ (if sync_output_with_fences_ p
        then _events p' = _events p /\ _fences p' = Fence_reset <$> _fences p
        else _fences p' = _fences p /\ _events p' = Event_reset <$> _events p)
    /\ reset p' d = (Ok p', d).
Proof.
  intros He Hf. exists (reset_result p).
  rewrite (reset_Ok p d He Hf). split; [done|].
  unfold reset_result.
  destruct (sync_output_with_fences_ p) eqn:Hsync; simpl; split_and!; try done.
  - rewrite reset_Ok; simpl; rewrite ?length_fmap; try done.
    unfold reset_result. simpl. rewrite Hsync. unfold with_fences. simpl.
    rewrite <- list_fmap_compose. done.
  - rewrite reset_Ok; simpl; rewrite ?length_fmap; try done.
    unfold reset_result. simpl. rewrite Hsync. unfold with_events. simpl.
    rewrite <- list_fmap_compose. done.
Qed.

(** X8 at the pipeline of two command lists. *)
Lemma reset_touches_waited_primitives_only_witness :
  exists p',
    reset example_pipeline example_state_after = (Ok p', example_state_after)
    /\ _command_lists p' = _command_lists example_pipeline
    /\ _event_pool p' = _event_pool example_pipeline
    /\ (if sync_output_with_fences_ example_pipeline
        then _events p' = _events example_pipeline
             /\ _fences p' = Fence_reset <$> _fences example_pipeline
        else _fences p' = _fences example_pipeline
             /\ _events p' = Event_reset <$> _events example_pipeline)
    /\ reset p' example_state_after = (Ok p', example_state_after).
Proof.
  apply (reset_touches_waited_primitives_only example_pipeline example_state_after);
    reflexivity.
Defined.

(** X9.  [pull] with nothing submitted: on a pipeline with at least one
    command list whose queue is empty, [pull] after [reset] waits on a
    primitive that nothing will signal, so the host wait of index [0]
    never returns. *)
Theorem pull_before_push_blocks p d :
  reusable p ->
  _command_lists p <> [] ->
  queue d = [] ->
  exists p' what,
    reset p d = (Ok p', d)
    /\ pull p' d = (Throw (never_returns what), d).
Proof.
  intros (He & Hf & _ & _) Hne Hq. exists (reset_result p).
  rewrite (reset_Ok p d He Hf).
  assert (Hlen : (0 < length (_command_lists p))%nat).
  { destruct (_command_lists p); [done | simpl; lia]. }
  assert (Hwait : waited_signal (reset_result p) 0 = Some false).
  { by apply reset_result_unsignaled. }
  assert (Hd : {| graph_arguments := graph_arguments d;
                  next_handle := next_handle d; queue := [] |} = d).
  { destruct d. simpl in *. by subst. }
  unfold pull.
  assert (Hl : length (_command_lists (reset_result p)) = length (_command_lists p)).
  { unfold reset_result. by destruct (sync_output_with_fences_ p). }
  rewrite Hl. destruct (length (_command_lists p)) as [|n]; [lia|]. simpl.
  unfold waited_signal in Hwait.
  destruct (sync_output_with_fences_ (reset_result p)).
  - destruct (_fences (reset_result p) !! 0%nat) as [fe|] eqn:Hfe; [|done].
    injection Hwait as Hsig.
    exists "zeFenceHostSynchronize"%string. split; [done|].
    unfold bind at 1. unfold Fence_hostSynchronize.
    unfold bind at 1, lift, vector_at. rewrite Hfe.
    unfold bind, device_completes. rewrite Hq. simpl. rewrite Hfe, Hsig.
    unfold throw. by rewrite Hd.
  - destruct (_events (reset_result p) !! 0%nat) as [ev|] eqn:Hev; [|done].
    injection Hwait as Hsig.
    exists "zeEventHostSynchronize"%string. split; [done|].
    unfold bind at 1. unfold Event_hostSynchronize.
    unfold bind at 1, lift, vector_at. rewrite Hev.
    unfold bind, device_completes. rewrite Hq. simpl. rewrite Hev, Hsig.
    unfold throw. by rewrite Hd.
Qed.

(** X9 at the pipeline of two command lists. *)
Lemma pull_before_push_blocks_witness :
  exists p' what,
    reset example_pipeline example_state_after = (Ok p', example_state_after)
    /\ pull p' example_state_after = (Throw (never_returns what), example_state_after).
Proof.
  apply (pull_before_push_blocks example_pipeline example_state_after).
  - exact example_pipeline_reusable.
  - vm_compute. discriminate.
  - reflexivity.
Defined.

(** X10.  What the constructor records in each command list, in this
    order: with profiling, a barrier and the timestamp of the start; the
    one graph execution (the same profiling query in every list); with
    profiling, a barrier and the timestamp of the end; in event-sync
    mode, a barrier and the signal of the event of the list's own index.
    The list is closed after that. *)
Theorem command_list_program executor pool prof inputs outputs n sync d p d' :
  Pipeline_new executor pool prof inputs outputs n sync d = (Ok p, d') ->
  exists query,
    forall i cl,
      _command_lists p !! i = Some cl ->
      exists ev args,
        _events p !! i = Some ev
        /\ cl_closed cl = true
        /\ cl_instructions cl = program (graph executor) query prof sync ev args.
Proof.
  intros Hnew.
  destruct (Pipeline_new_Ok_recorded _ _ _ _ _ _ _ _ _ _ Hnew)
    as (_ & _ & Hlen & _ & _ & _ & query & Hlists).
  exists query. intros i cl Hcl.
  assert (Hi : (i < n)%nat) by (rewrite <- Hlen; by eapply lookup_lt_Some).
  destruct (Hlists i Hi) as (cl0 & ev & a0 & Hev & _ & _ & Hcl0 & Hrec).
  rewrite Hcl in Hrec. injection Hrec as ->.
  eexists ev, _. split; [done|]. split; [done|].
  unfold recorded_list, program, appendNpuTimestamp, appendBarrier,
    AppendSignalEvent, append, close.
  destruct prof as [pr|], sync; simpl; rewrite Hcl0; reflexivity.
Qed.

(** X10 at the pipeline of two command lists. *)
Lemma command_list_program_witness :
  exists query,
    forall i cl,
      _command_lists example_pipeline !! i = Some cl ->
      exists ev args,
        _events example_pipeline !! i = Some ev
        /\ cl_closed cl = true
        /\ cl_instructions cl
           = program (graph example_executor) query None false ev args.
Proof.
  apply (command_list_program example_executor {| create_succeeds := false |} None
           example_inputs example_outputs 2 false example_state
           example_pipeline example_state_after).
  vm_compute. reflexivity.
Defined.

End PipelineLaws.

(** *** The graph object: initialization and construction *)

Module GraphLaws.
Import PluginGraph Effects EffectFacts GraphSpec GraphProofs GraphUse.

Lemma THROW_ON_FAIL_Ok_inv {S} call r (s s' : S) u :
  THROW_ON_FAIL call r s = (Ok u, s') -> r = ZE_RESULT_SUCCESS /\ s' = s.
Proof. destruct r; [by intros [= _ <-] | discriminate]. Qed.

Lemma THROW_ON_FAIL_Throw_inv {S} call r (s s' : S) e :
  THROW_ON_FAIL call r s = (Throw e, s') ->
  e = ze_failure call r /\ r <> ZE_RESULT_SUCCESS /\ s' = s.
Proof. destruct r; [discriminate | by intros [= <- <-]]. Qed.

Lemma bind_Throw_inv {S A B} (m : M S A) (k : A -> M S B) s e s' :
  bind m k s = (Throw e, s') ->
  m s = (Throw e, s') \/ exists a s1, m s = (Ok a, s1) /\ k a s1 = (Throw e, s').
Proof.
  unfold bind. destruct (m s) as [[a|e0] s1]; [eauto | intros [= <- <-]; by left].
Qed.

Lemma describe_argument_Ok ext h index g w :
  fst (pfnGetArgumentProperties3 ext h index) = ZE_RESULT_SUCCESS ->
  describe_argument ext h index g w
  = (Ok (set_descriptors
           (_input_descriptors g ++ filter is_input [described ext h index])
           (_output_descriptors g
              ++ filter (fun d => ~ is_input d) [described ext h index]) g), w).
Proof.
  intros Hs. unfold describe_argument. rewrite Hs.
  unfold bind, THROW_ON_FAIL, ret.
  rewrite !filter_cons, !filter_nil. unfold is_input, described. simpl.
  destruct (snd (pfnGetArgumentProperties3 ext h index)) eqn:Ha; simpl;
    by rewrite app_nil_r.
Qed.

Lemma describe_loop_Ok ext h n : forall start g w,
  (forall index, (start <= index < start + n)%nat ->
                 fst (pfnGetArgumentProperties3 ext h index) = ZE_RESULT_SUCCESS) ->
  for_range start n (describe_argument ext h) g w
  = (Ok (set_descriptors
           (_input_descriptors g
              ++ filter is_input (described ext h <$> seq start n))
           (_output_descriptors g
              ++ filter (fun d => ~ is_input d) (described ext h <$> seq start n))
           g), w).
Proof.
  induction n as [|n IH]; intros start g w Hok.
  - simpl. rewrite !filter_nil, !app_nil_r. by destruct g.
  - simpl for_range. rewrite (bind_Ok _ _ _ _ _ (describe_argument_Ok ext h start g w
                                                   ltac:(apply Hok; lia))).
    rewrite IH by (intros index Hi; apply Hok; lia).
    simpl. rewrite !(filter_cons _ (described ext h start)), !filter_nil.
    do 2 f_equal. unfold set_descriptors. simpl.
    destruct (decide (is_input (described ext h start)));
      destruct (decide (~ is_input (described ext h start)));
      simpl; rewrite <- ?app_assoc, ?app_nil_r; try done.
Qed.

Lemma describe_loop_inv ext h n : forall start g w g' w',
  for_range start n (describe_argument ext h) g w = (Ok g', w') ->
  forall index, (start <= index < start + n)%nat ->
                fst (pfnGetArgumentProperties3 ext h index) = ZE_RESULT_SUCCESS.
Proof.
  induction n as [|n IH]; intros start g w g' w' Hrun index Hi; [lia|].
  simpl in Hrun. apply PipelineProofs.bind_Ok_inv in Hrun as (g1 & w1 & Hstep & Hrun).
  destruct (decide (index = start)) as [->|Hne].
  - unfold describe_argument in Hstep.
    apply PipelineProofs.bind_Ok_inv in Hstep as (u & w2 & Hs & _).
    by apply THROW_ON_FAIL_Ok_inv in Hs as [? _].
  - eapply IH; [exact Hrun | lia].
Qed.

Lemma describe_loop_Throw ext h n : forall start g w e w',
  for_range start n (describe_argument ext h) g w = (Throw e, w') ->
  w' = w
  /\ exists status, e = ze_failure "pfnGetArgumentProperties3" status
                    /\ status <> ZE_RESULT_SUCCESS.
Proof.
  induction n as [|n IH]; intros start g w e w' Hrun; [discriminate|].
  simpl in Hrun. apply bind_Throw_inv in Hrun as [Hstep|(g1 & w1 & Hstep & Hrun)].
  - unfold describe_argument in Hstep.
    apply bind_Throw_inv in Hstep as [Hs|(u & w2 & Hs & Hrest)].
    + apply THROW_ON_FAIL_Throw_inv in Hs as (-> & Hne & ->). eauto.
    + simpl in Hrest.
      destruct (snd (pfnGetArgumentProperties3 ext h start)); discriminate.
  - unfold describe_argument in Hstep.
    apply PipelineProofs.bind_Ok_inv in Hstep as (u & w2 & Hs & Hrest).
    apply THROW_ON_FAIL_Ok_inv in Hs as [_ ->].
    assert (w1 = w) as ->.
    { simpl in Hrest.
      destruct (snd (pfnGetArgumentProperties3 ext h start));
        by injection Hrest as _ <-. }
    by eapply IH.
Qed.

Lemma initialize_run config g ext h w :
  _zeGraphExt g = Some ext -> _handle g = Some h ->
  driver_accepts ext h config ->
  initialize config g w = (Ok (initialized config ext h g), initialized_world ext h w).
Proof.
  intros Hext Hh (H1 & H2 & H3 & H4 & H5 & H6).
  unfold initialize. rewrite Hext, Hh.
  fold (queue_ordinal ext). fold (turbo_of config).
  rewrite H1, H3, H4.
  change (fun (index : nat) (g0 : PluginGraph) => _)
    with (describe_argument ext h).
  unfold bind at 1 2 3 4 5. unfold debug, emit, modify, THROW_ON_FAIL at 1, ret at 1.
  rewrite describe_loop_Ok by (intros index Hi; apply H2; lia).
  assert (Hwt : match WORKLOAD_TYPE config with
                | Some wt => THROW_ON_FAIL (S := World) "zeSetWorkloadType"
                                           (zeSetWorkloadType ext wt)
                | None => ret tt
                end = ret tt).
  { destruct (WORKLOAD_TYPE config) as [wt|] eqn:Hw; [|done]. by rewrite (H5 wt). }
  rewrite Hwt. unfold initializeGraph. rewrite H6.
  unfold bind, THROW_ON_FAIL, record, modify, ret. simpl.
  unfold initialized, initialized_world, resized, created_queue. simpl.
  rewrite <- !app_assoc. simpl.
  reflexivity.
Qed.

Lemma emit_run e w :
  emit e w = (Ok tt, {| logged := logged w ++ [e]; calls := calls w |}).
Proof. reflexivity. Qed.

Lemma initialize_Ok_accepts config g ext h w g' w' :
  _zeGraphExt g = Some ext -> _handle g = Some h ->
  initialize config g w = (Ok g', w') ->
  driver_accepts ext h config.
Proof.
  intros Hext Hh H. unfold initialize in H. rewrite Hext, Hh in H.
  fold (queue_ordinal ext) in H. fold (turbo_of config) in H.
  change (fun (index : nat) (g0 : PluginGraph) => _)
    with (describe_argument ext h) in H.
  apply PipelineProofs.bind_Ok_inv in H as (? & w1 & _ & H).
  apply PipelineProofs.bind_Ok_inv in H as (? & w2 & _ & H).
  apply PipelineProofs.bind_Ok_inv in H as (? & w3 & H1 & H).
  apply PipelineProofs.bind_Ok_inv in H as (? & w4 & _ & H).
  apply PipelineProofs.bind_Ok_inv in H as (g1 & w5 & Hloop & H).
  apply PipelineProofs.bind_Ok_inv in H as (? & w6 & H3 & H).
  apply PipelineProofs.bind_Ok_inv in H as (? & w7 & H4 & H).
  apply PipelineProofs.bind_Ok_inv in H as (? & w8 & H5 & H).
  apply PipelineProofs.bind_Ok_inv in H as (? & w9 & H6 & H).
  apply THROW_ON_FAIL_Ok_inv in H1 as [H1 _].
  apply THROW_ON_FAIL_Ok_inv in H3 as [H3 _].
  apply THROW_ON_FAIL_Ok_inv in H4 as [H4 _].
  unfold initializeGraph in H6.
  apply PipelineProofs.bind_Ok_inv in H6 as (? & w10 & _ & H6).
  apply THROW_ON_FAIL_Ok_inv in H6 as [H6 _].
  split_and!; try done.
  - intros index Hi. eapply describe_loop_inv; [exact Hloop | lia].
  - intros wt Hwt. rewrite Hwt in H5.
    by apply THROW_ON_FAIL_Ok_inv in H5 as [H5 _].
Qed.

Lemma initialize_Throw_inv config g ext h w e w' :
  _zeGraphExt g = Some ext -> _handle g = Some h ->
  initialize config g w = (Throw e, w') ->
  exists call status,
    e = ze_failure call status /\ status <> ZE_RESULT_SUCCESS
    /\ (if String.eqb call "pfnGraphInitialize"
        then calls w' = calls w ++ [call_initializeGraph h (queue_ordinal ext)]
        else calls w' = calls w).
Proof.
  intros Hext Hh H. unfold initialize in H. rewrite Hext, Hh in H.
  fold (queue_ordinal ext) in H. fold (turbo_of config) in H.
  change (fun (index : nat) (g0 : PluginGraph) => _)
    with (describe_argument ext h) in H.
  unfold debug in H. unfold bind at 1 in H. rewrite emit_run in H.
  unfold bind at 1 in H. rewrite emit_run in H. simpl in H.
  apply bind_Throw_inv in H as [H|(? & w3 & H1 & H)].
  { apply THROW_ON_FAIL_Throw_inv in H as (-> & Hne & ->).
    eexists _, _. by split_and!. }
  apply THROW_ON_FAIL_Ok_inv in H1 as [_ ->].
  unfold bind at 1 in H. rewrite emit_run in H. simpl in H.
  apply bind_Throw_inv in H as [H|(g1 & w5 & Hloop & H)].
  { apply describe_loop_Throw in H as (-> & status & -> & Hne).
    eexists _, _. by split_and!. }
  assert (w5 = {| logged := ((logged w ++ [log DEBUG "Graph initialize start"]) ++
                             [log DEBUG "performing pfnGetProperties"]) ++
                            [log DEBUG "performing pfnGetArgumentProperties3"];
                  calls := calls w |}) as ->.
  { rewrite describe_loop_Ok in Hloop; [by injection Hloop as _ <-|].
    intros index Hi. eapply describe_loop_inv; [exact Hloop | lia]. }
  apply bind_Throw_inv in H as [H|(? & w6 & H3 & H)].
  { apply THROW_ON_FAIL_Throw_inv in H as (-> & Hne & ->).
    eexists _, _. by split_and!. }
  apply THROW_ON_FAIL_Ok_inv in H3 as [_ ->].
  apply bind_Throw_inv in H as [H|(? & w7 & H4 & H)].
  { apply THROW_ON_FAIL_Throw_inv in H as (-> & Hne & ->).
    eexists _, _. by split_and!. }
  apply THROW_ON_FAIL_Ok_inv in H4 as [_ ->].
  apply bind_Throw_inv in H as [H|(? & w8 & H5 & H)].
  { destruct (WORKLOAD_TYPE config) as [wt|]; [|discriminate].
    apply THROW_ON_FAIL_Throw_inv in H as (-> & Hne & ->).
    eexists _, _. by split_and!. }
  assert (w8 = {| logged := ((logged w ++ [log DEBUG "Graph initialize start"]) ++
                             [log DEBUG "performing pfnGetProperties"]) ++
                            [log DEBUG "performing pfnGetArgumentProperties3"];
                  calls := calls w |}) as ->.
  { destruct (WORKLOAD_TYPE config) as [wt|].
    - by apply THROW_ON_FAIL_Ok_inv in H5 as [_ ->].
    - by injection H5 as _ <-. }
  apply bind_Throw_inv in H as [H|(? & w9 & H6 & H)].
  { unfold initializeGraph, bind at 1, record, modify in H.
    apply THROW_ON_FAIL_Throw_inv in H as (-> & Hne & ->).
    eexists _, _. by split_and!. }
  unfold bind, emit, modify, ret in H. discriminate.
Qed.

Lemma initialized_fields config ext h g :
  let all := described ext h <$> seq 0 (snd (pfnGetProperties ext h)) in
  let g' := initialized config ext h g in
  given g' = given g
  /\ _logger_level g' = _logger_level g
  /\ _input_descriptors g' = _input_descriptors g ++ filter is_input all
  /\ _output_descriptors g'
     = _output_descriptors g ++ filter (fun d => ~ is_input d) all
  /\ _command_queue_group_ordinal g' = queue_ordinal ext
  /\ _command_queue g' = Some (created_queue ext config)
  /\ _batch_size g'
     = match BATCH_MODE config with
       | COMPILER => _batch_size g
       | _ => batch_size_from_shapes (_metadata g)
       end
  /\ _last_submitted_event g'
     = if RUN_INFERENCES_SEQUENTIALLY config
       then resized (Z.to_nat (match _batch_size g' with Some b => b | None => 1 end))
                    (_last_submitted_event g)
       else _last_submitted_event g.
Proof.
  unfold initialized.
  destruct (BATCH_MODE config), (RUN_INFERENCES_SEQUENTIALLY config);
    simpl; split_and!; reflexivity.
Qed.

Lemma initialize_Ok_eq config g ext h w g' w' :
  _zeGraphExt g = Some ext -> _handle g = Some h ->
  initialize config g w = (Ok g', w') ->
  g' = initialized config ext h g /\ w' = initialized_world ext h w.
Proof.
  intros Hext Hh H.
  pose proof (initialize_Ok_accepts _ _ _ _ _ _ _ Hext Hh H) as Hacc.
  rewrite (initialize_run _ _ _ _ _ Hext Hh Hacc) in H.
  by injection H as <- <-.
Qed.

(** X11.  [initialize], when it returns for a graph with adapter and
    handle, has appended one descriptor for every argument index below
    [numGraphArgs], in increasing order of the index: the arguments the
    driver types as inputs to [_input_descriptors], all others to
    [_output_descriptors].  For a graph that had no descriptors the two
    lists together hold every argument index exactly once. *)
Theorem initialize_describes_arguments config g ext h w g' w' :
  _zeGraphExt g = Some ext -> _handle g = Some h ->
  initialize config g w = (Ok g', w') ->
  let all := described ext h <$> seq 0 (snd (pfnGetProperties ext h)) in
  _input_descriptors g' = _input_descriptors g ++ filter is_input all
  /\ _output_descriptors g'
     = _output_descriptors g ++ filter (fun d => ~ is_input d) all
  /\ (_input_descriptors g = [] -> _output_descriptors g = [] ->
      Forall is_input (_input_descriptors g')
      /\ Forall (fun d => ~ is_input d) (_output_descriptors g')
      /\ idx <$> (_input_descriptors g' ++ _output_descriptors g')
         ≡ₚ N.of_nat <$> seq 0 (snd (pfnGetProperties ext h))
      /\ NoDup (idx <$> (_input_descriptors g' ++ _output_descriptors g'))).
Proof.
  intros Hext Hh H all.
  destruct (initialize_Ok_eq _ _ _ _ _ _ _ Hext Hh H) as [-> _].
  destruct (initialized_fields config ext h g)
    as (_ & _ & Hin & Hout & _). fold all in Hin, Hout.
  split; [done|]. split; [done|]. intros Hi Ho.
  rewrite Hin, Hout, Hi, Ho. simpl.
  assert (Hperm : idx <$> (filter is_input all ++ filter (fun d => ~ is_input d) all)
                  ≡ₚ N.of_nat <$> seq 0 (snd (pfnGetProperties ext h))).
  { rewrite filter_app_complement. unfold all.
    rewrite <- list_fmap_compose. done. }
  split_and!.
  - apply Forall_forall. by intros d [? _]%list_elem_of_filter.
  - apply Forall_forall. by intros d [? _]%list_elem_of_filter.
  - done.
  - rewrite Hperm. apply NoDup_fmap_2; [|apply NoDup_seq].
    intros a b. apply Nat2N.inj.
Qed.

(** X11 at a driver with one input and one output argument. *)
Lemma initialize_describes_arguments_witness :
  let g' := initialized eager_config example_driver 5 fresh_graph in
  let all := described example_driver 5 <$> seq 0 2 in
  _input_descriptors g' = _input_descriptors fresh_graph ++ filter is_input all
  /\ _output_descriptors g'
     = _output_descriptors fresh_graph ++ filter (fun d => ~ is_input d) all
  /\ (_input_descriptors fresh_graph = [] -> _output_descriptors fresh_graph = [] ->
      Forall is_input (_input_descriptors g')
      /\ Forall (fun d => ~ is_input d) (_output_descriptors g')
      /\ idx <$> (_input_descriptors g' ++ _output_descriptors g')
         ≡ₚ N.of_nat <$> seq 0 2
      /\ NoDup (idx <$> (_input_descriptors g' ++ _output_descriptors g'))).
Proof.
  apply (initialize_describes_arguments eager_config fresh_graph example_driver 5
           empty_world (initialized eager_config example_driver 5 fresh_graph)
           (initialized_world example_driver 5 empty_world));
    reflexivity.
Defined.

(** The graph after [initialize] at that driver. *)
Example initialize_example :
  match initialize eager_config fresh_graph empty_world with
  | (Ok g, w) =>
      Some (idx <$> _input_descriptors g, idx <$> _output_descriptors g,
            _command_queue g, _batch_size g, _last_submitted_event g, calls w)
  | _ => None
  end
  = Some ([0%N], [1%N], Some 11%nat, Some 2, [None; None],
          [call_initializeGraph 5 0]).
Proof. reflexivity. Qed.

(** X12.  [initialize] on a graph with adapter and handle returns if and
    only if every driver call it makes answers success (the properties
    of the graph, the properties of every argument, the queue group, the
    command queue, the workload type when one is configured, and the
    initialization of the graph).  When it returns, the graph keeps what
    the constructor was given, holds the queue group and the created
    command queue, and [initializeGraph] was called once, for the handle
    and that queue group.  When it throws, it throws the failure of a
    driver call with the status of that call, and [initializeGraph] was
    not called unless it is the call that failed. *)
Theorem initialize_all_or_nothing config g ext h w :
  _zeGraphExt g = Some ext -> _handle g = Some h ->
  ((exists g' w', initialize config g w = (Ok g', w'))
   <-> driver_accepts ext h config)
  /\ (forall g' w',
         initialize config g w = (Ok g', w') ->
         given g' = given g
         /\ _command_queue_group_ordinal g' = queue_ordinal ext
         /\ _command_queue g' = Some (created_queue ext config)
         /\ calls w' = calls w ++ [call_initializeGraph h (queue_ordinal ext)])
  /\ (forall e w',
         initialize config g w = (Throw e, w') ->
         exists call status,
           e = ze_failure call status /\ status <> ZE_RESULT_SUCCESS
           /\ (call <> "pfnGraphInitialize"%string -> calls w' = calls w)).
Proof.
  intros Hext Hh. split_and!.
  - split.
    + intros (g' & w' & H). by eapply initialize_Ok_accepts.
    + intros Hacc. eexists _, _. by apply initialize_run.
  - intros g' w' H.
    destruct (initialize_Ok_eq _ _ _ _ _ _ _ Hext Hh H) as [-> ->].
    destruct (initialized_fields config ext h g)
      as (Hgiven & _ & _ & _ & Hord & Hq & _).
    by split_and!.
  - intros e w' H.
    destruct (initialize_Throw_inv _ _ _ _ _ _ _ Hext Hh H)
      as (call & status & -> & Hne & Hcalls).
    exists call, status. split_and!; try done. intros Hcall.
    destruct (String.eqb_spec call "pfnGraphInitialize"); done.
Qed.

(** X12 at a driver that accepts every call. *)
Lemma initialize_all_or_nothing_witness :
  ((exists g' w', initialize eager_config fresh_graph empty_world = (Ok g', w'))
   <-> driver_accepts example_driver 5 eager_config)
  /\ (forall g' w',
         initialize eager_config fresh_graph empty_world = (Ok g', w') ->
         given g' = given fresh_graph
         /\ _command_queue_group_ordinal g' = queue_ordinal example_driver
         /\ _command_queue g' = Some (created_queue example_driver eager_config)
         /\ calls w'
            = calls empty_world
              ++ [call_initializeGraph 5 (queue_ordinal example_driver)])
  /\ (forall e w',
         initialize eager_config fresh_graph empty_world = (Throw e, w') ->
         exists call status,
           e = ze_failure call status /\ status <> ZE_RESULT_SUCCESS
           /\ (call <> "pfnGraphInitialize"%string -> calls w' = calls empty_world)).
Proof.
  apply (initialize_all_or_nothing eager_config fresh_graph example_driver 5
           empty_world); reflexivity.
Defined.

(** X13.  After [initialize] has returned: the batch size is left as it
    was under [BATCH_MODE = COMPILER] and is what the shapes of the
    metadata give under any other mode; with
    [RUN_INFERENCES_SEQUENTIALLY] the vector of last submitted events is
    resized to the batch size, or to one slot when there is none (all
    slots empty for a fresh graph), and without it the vector is not
    touched. *)
Theorem initialize_sizes_event_slots config g ext h w g' w' :
  _zeGraphExt g = Some ext -> _handle g = Some h ->
  initialize config g w = (Ok g', w') ->
  _batch_size g'
  = match BATCH_MODE config with
    | COMPILER => _batch_size g
    | _ => batch_size_from_shapes (_metadata g)
    end
  /\ (RUN_INFERENCES_SEQUENTIALLY config = false ->
      _last_submitted_event g' = _last_submitted_event g)
  /\ (RUN_INFERENCES_SEQUENTIALLY config = true ->
      let slots := Z.to_nat (match _batch_size g' with Some b => b | None => 1 end) in
      length (_last_submitted_event g') = slots
      /\ (_last_submitted_event g = [] ->
          _last_submitted_event g' = replicate slots None)).
Proof.
  intros Hext Hh H.
  destruct (initialize_Ok_eq _ _ _ _ _ _ _ Hext Hh H) as [-> _].
  destruct (initialized_fields config ext h g)
    as (_ & _ & _ & _ & _ & _ & Hb & Hl).
  split; [done|]. split.
  - intros Hseq. by rewrite Hseq in Hl.
  - intros Hseq slots. rewrite Hseq in Hl. fold slots in Hl. rewrite Hl.
    unfold resized. split.
    + rewrite length_app, length_take, length_replicate. lia.
    + intros ->. simpl. rewrite take_nil. simpl. f_equal. lia.
Qed.

(** X13 at a graph whose shapes give batch size 2. *)
Lemma initialize_sizes_event_slots_witness :
  let g' := initialized eager_config example_driver 5 fresh_graph in
  _batch_size g'
  = match BATCH_MODE eager_config with
    | COMPILER => _batch_size fresh_graph
    | _ => batch_size_from_shapes (_metadata fresh_graph)
    end
  /\ (RUN_INFERENCES_SEQUENTIALLY eager_config = false ->
      _last_submitted_event g' = _last_submitted_event fresh_graph)
  /\ (RUN_INFERENCES_SEQUENTIALLY eager_config = true ->
      let slots := Z.to_nat (match _batch_size g' with Some b => b | None => 1 end) in
      length (_last_submitted_event g') = slots
      /\ (_last_submitted_event fresh_graph = [] ->
          _last_submitted_event g' = replicate slots None)).
Proof.
  apply (initialize_sizes_event_slots eager_config fresh_graph example_driver 5
           empty_world (initialized eager_config example_driver 5 fresh_graph)
           (initialized_world example_driver 5 empty_world));
    reflexivity.
Defined.

(** X14.  The constructor initializes nothing when the executor is not
    asked for, the weights load is deferred, the adapter is missing or
    the handle is missing: it returns the object as given, with no
    descriptors, no command queue, no batch size and no event slots, and
    no driver call is recorded.  The notice of the deferral, with the
    word Graph in double quotes as the source writes it, is logged at
    INFO level exactly when the executor is not asked for or the weights
    load is deferred; nothing else is logged. *)
Theorem constructor_leaves_the_driver_alone ext h md blob config w :
  CREATE_EXECUTOR config = false \/ DEFER_WEIGHTS_LOAD config = true
  \/ ext = None \/ h = None ->
  exists w',
    PluginGraph_new ext h md blob config w
    = (Ok (constructed ext h md blob config), w')
    /\ calls w' = calls w
    /\ logged w'
       = logged w
         ++ (if negb (CREATE_EXECUTOR config) || DEFER_WEIGHTS_LOAD config
             then [log INFO deferred_message] else []).
Proof.
  intros Hcase. unfold PluginGraph_new. fold (constructed ext h md blob config).
  destruct (negb (CREATE_EXECUTOR config) || DEFER_WEIGHTS_LOAD config) eqn:Hdefer.
  - eexists. split; [reflexivity|]. simpl. done.
  - apply orb_false_iff in Hdefer as [Hc Hd]. apply negb_false_iff in Hc.
    destruct Hcase as [Hcase|[Hcase|[->| ->]]]; try congruence.
    + exists w. unfold initialize. simpl. by rewrite app_nil_r.
    + exists w. unfold initialize. simpl. rewrite app_nil_r. by destruct ext.
Qed.

(** X14 at a graph whose weights load is deferred. *)
Lemma constructor_leaves_the_driver_alone_witness :
  exists w',
    PluginGraph_new (Some example_driver) (Some 5%nat) example_metadata [x7f; x45]
                    deferring_config empty_world
    = (Ok (constructed (Some example_driver) (Some 5%nat) example_metadata
                       [x7f; x45] deferring_config), w')
    /\ calls w' = calls empty_world
    /\ logged w' = logged empty_world ++ [log INFO deferred_message].
Proof.
  apply (constructor_leaves_the_driver_alone (Some example_driver) (Some 5%nat)
           example_metadata [x7f; x45] deferring_config empty_world).
  right. left. reflexivity.
Defined.

(** The notice as the program writes it: the word Graph stands between
    two double quote characters. *)
Example deferred_message_quotes :
  String.length deferred_message = 57%nat
  /\ String.get 38 deferred_message = Some (Ascii.ascii_of_byte x22)
  /\ String.substring 39 5 deferred_message = "Graph"%string
  /\ String.get 44 deferred_message = Some (Ascii.ascii_of_byte x22).
Proof. by vm_compute. Qed.

End GraphLaws.

(** *** The exports: hash, failure and layout *)

Module ExportLaws.
Import PluginGraph Effects EffectFacts GraphSpec GraphProofs ExportSpec ExportProofs.
Import ExportUse.

Lemma hash_step r r0 b :
  r = r0 mod 2 ^ 32 ->
  to_uint32 (to_uint32 (to_uint32 (Z.shiftl r 7) + r) + byte_value b)
  = (r0 * 129 + byte_value b) mod 2 ^ 32.
Proof.
  intros ->. unfold to_uint32. rewrite Z.shiftl_mul_pow2 by lia.
  set (m := 2 ^ 32). assert (Hm : m <> 0) by (unfold m; lia).
  pose proof (Z.div_mod r0 m Hm) as H0.
  pose proof (Z.div_mod (r0 mod m * 2 ^ 7) m Hm) as H1.
  pose proof (Z.div_mod ((r0 mod m * 2 ^ 7) mod m + r0 mod m) m Hm) as H2.
  set (q0 := r0 / m) in *. set (q1 := r0 mod m * 2 ^ 7 / m) in *.
  set (q2 := ((r0 mod m * 2 ^ 7) mod m + r0 mod m) / m) in *.
  replace (((r0 mod m * 2 ^ 7) mod m + r0 mod m) mod m + byte_value b)
    with (r0 * 129 + byte_value b + (- (129 * q0 + q1 + q2)) * m) by lia.
  apply Z_mod_plus_full.
Qed.

Lemma hash_fold bs : forall r r0,
  r = r0 mod 2 ^ 32 ->
  fold_left (fun result it =>
               to_uint32 (to_uint32 (to_uint32 (Z.shiftl result 7) + result)
                          + byte_value it)) bs r
  = fold_left (fun r b => r * 129 + byte_value b) bs r0 mod 2 ^ 32.
Proof.
  induction bs as [|b bs IH]; intros r r0 Hr; [done|].
  simpl. apply IH. by apply hash_step.
Qed.

(** X15.  On a stream that takes the blob, [export_blob] returns the
    size of the blob and logs the success; at log level INFO or above it
    logs, before that, the size and the hash of the blob, and the hash
    that the shifts and additions on [uint32_t] compute is the value of
    the bytes read as digits in base 129 after the leading digit
    1171117, modulo [2^32]. *)
Theorem export_blob_logs_hash g stream w :
  accepts stream (_blobPtr g) ->
  exists stream',
    export_blob g stream w
    = (Ok (blob_size g, stream'),
       {| logged := logged w
                    ++ (if level_at_least_INFO g
                        then [log_blob_size (blob_size g)
                                            (base_129 (_blobPtr g) mod 2 ^ 32)]
                        else [])
                    ++ [write_succeeded];
          calls := calls w |}).
Proof.
  intros Hacc. destruct (write_accepted _ _ Hacc) as [_ Hf].
  unfold export_blob. rewrite Hf. eexists.
  unfold base_129. rewrite <- (hash_fold (_blobPtr g) 1171117 1171117) by done.
  destruct (level_at_least_INFO g); unfold bind, emit, Runtime.info, modify, ret;
    simpl; by rewrite <- ?app_assoc.
Qed.

(** X15 at the export-only artifact. *)
Lemma export_blob_logs_hash_witness :
  exists stream',
    export_blob export_only_graph empty_stream empty_world
    = (Ok (blob_size export_only_graph, stream'),
       {| logged := logged empty_world
                    ++ (if level_at_least_INFO export_only_graph
                        then [log_blob_size (blob_size export_only_graph)
                                (base_129 (_blobPtr export_only_graph) mod 2 ^ 32)]
                        else [])
                    ++ [write_succeeded];
          calls := calls empty_world |}).
Proof.
  apply (export_blob_logs_hash export_only_graph empty_stream empty_world).
  split; [reflexivity | exact I].
Defined.

Lemma write_refused bs s k :
  refuses s bs k ->
  failed (write bs s) = true /\ written (write bs s) = written s ++ take k bs.
Proof.
  unfold write. intros [[Hf ->]|(Hf & Hr & Hk)]; rewrite Hf.
  - by rewrite take_0, app_nil_r.
  - rewrite Hr. destruct (Nat.leb_spec (length bs) k); [lia|]. done.
Qed.

(** X16.  On a stream that has failed already, or whose sink has room
    for fewer bytes than the blob has, [export_blob] returns 0, logs the
    one error and no success; the stream has failed afterwards and holds
    as many bytes of the blob as the sink had room for (none on a stream
    that had failed). *)
Theorem export_blob_reports_failure g stream w k :
  refuses stream (_blobPtr g) k ->
  exists stream',
    export_blob g stream w
    = (Ok (0, stream'),
       {| logged := logged w ++ [write_failed]; calls := calls w |})
    /\ failed stream' = true
    /\ written stream' = written stream ++ take k (_blobPtr g).
Proof.
  intros Href. destruct (write_refused _ _ _ Href) as [Hf Hw].
  unfold export_blob. rewrite Hf. eexists. split; [reflexivity|]. done.
Qed.

(** X16 at a sink with room for three of the four bytes. *)
Lemma export_blob_reports_failure_witness :
  exists stream',
    export_blob export_only_graph
                {| written := [x00]; room := Some 3%nat; failed := false |}
                empty_world
    = (Ok (0, stream'),
       {| logged := logged empty_world ++ [write_failed];
          calls := calls empty_world |})
    /\ failed stream' = true
    /\ written stream' = [x00] ++ take 3 (_blobPtr export_only_graph).
Proof.
  apply (export_blob_reports_failure export_only_graph
           {| written := [x00]; room := Some 3%nat; failed := false |}
           empty_world 3).
  right. simpl. split_and!; [reflexivity | reflexivity | lia].
Defined.

Lemma custom_export_run g stream initGraph xml bin w :
  exists stream' w' more,
    custom_export g stream initGraph xml bin w = (Ok stream', w')
    /\ extends stream stream'
               (concat (field <$> [xml; bin; _blobPtr g; _blobPtr initGraph]))
    /\ (unlimited stream -> xml <> [] -> bin <> [] -> unlimited stream')
    /\ logged_since w w' more
    /\ (if failed stream' then more = [write_failed]
        else (write_failed ∉ more) /\ last more = Some write_succeeded).
Proof.
  unfold custom_export.
  set (s1 := insert_streambuf xml (insert_uint32 _ stream)).
  set (s2 := insert_streambuf bin (insert_uint32 _ s1)).
  set (s3 := write (_blobPtr g) (insert_uint32 _ s2)).
  set (s4 := write (_blobPtr initGraph) (insert_uint32 _ s3)).
  assert (H1 : extends stream s1 (field xml)).
  { unfold field; eapply extends_trans; [apply write_extends | apply insert_streambuf_extends]. }
  assert (H2 : extends s1 s2 (field bin)).
  { unfold field; eapply extends_trans; [apply write_extends | apply insert_streambuf_extends]. }
  assert (H3 : extends s2 s3 (field (_blobPtr g))).
  { unfold field; eapply extends_trans; apply write_extends. }
  assert (H4 : extends s3 s4 (field (_blobPtr initGraph))).
  { unfold field; eapply extends_trans; apply write_extends. }
  assert (Hext : extends stream s4
                   (concat (field <$> [xml; bin; _blobPtr g; _blobPtr initGraph]))).
  { pose proof (extends_trans _ _ _ _ _
                  (extends_trans _ _ _ _ _
                     (extends_trans _ _ _ _ _ H1 H2) H3) H4) as H.
    simpl. rewrite app_nil_r. by rewrite <- !app_assoc in H. }
  assert (Hun : unlimited stream -> xml <> [] -> bin <> [] -> unlimited s4).
  { intros Hs Hx Hb. do 4 apply write_unlimited.
    apply insert_streambuf_unlimited; [done|]. apply write_unlimited.
    apply insert_streambuf_unlimited; [done|]. by apply write_unlimited. }
  destruct (failed s4) eqn:Hf.
  - eexists _, _, _. split; [reflexivity|]. rewrite Hf. by split_and!.
  - destruct (level_at_least_INFO g); eexists _, _, _;
      (split; [reflexivity|]); rewrite Hf; split_and!; try done.
    + unfold logged_since. simpl. split; [|done].
      rewrite <- app_assoc. reflexivity.
    + unfold write_failed. intros H.
      repeat (apply elem_of_cons in H as [H|H]; [discriminate|]).
      by apply elem_of_nil in H.
    + unfold logged_since. simpl. split; reflexivity.
    + unfold write_failed. intros H.
      repeat (apply elem_of_cons in H as [H|H]; [discriminate|]).
      by apply elem_of_nil in H.
Qed.

(** X17.  [custom_export] (one init graph): the stream, when it has not
    failed, holds after what it held the four parts in the order xml,
    bin, main blob, init blob, each after its size in decimal digits;
    the error is logged exactly when the stream has failed and the
    success is logged last otherwise; the stream does not fail when it
    had not failed, its sink is unlimited and xml and bin are not empty;
    and reading four sized fields gives the four parts back when each is
    shorter than [2^32] bytes, not empty and does not start with a
    digit. *)
Theorem custom_export_layout g stream initGraph xml bin w :
  let parts := [xml; bin; _blobPtr g; _blobPtr initGraph] in
  exists stream' w' more,
    custom_export g stream initGraph xml bin w = (Ok stream', w')
    /\ logged_since w w' more
    /\ (failed stream' = true <-> more = [write_failed])
    /\ (failed stream' = false ->
        written stream' = written stream ++ concat (field <$> parts)
        /\ last more = Some write_succeeded)
    /\ (failed stream = false -> room stream = None ->
        xml <> [] -> bin <> [] -> failed stream' = false)
    /\ (Forall (fun b => Z.of_nat (length b) < 2 ^ 32 /\ delimited b) parts ->
        read_fields 4 (concat (field <$> parts)) = Some parts).
Proof.
  intros parts.
  destruct (custom_export_run g stream initGraph xml bin w)
    as (stream' & w' & more & Hrun & Hext & Hun & Hlog & Hmore).
  exists stream', w', more. split_and!; try done.
  - destruct (failed stream'); split; try done.
    intros ->. destruct Hmore as [Hnot _]. destruct Hnot. by left.
  - intros Hf. rewrite Hf in Hmore. destruct (Hext Hf) as [_ ->]. by destruct Hmore.
  - intros Hf Hr Hx Hb. by destruct (Hun (conj Hf Hr) Hx Hb).
  - intros Hall. by apply (read_fields_fields parts).
Qed.

(** X17 at the parts of the examples. *)
Lemma custom_export_layout_witness :
  let parts := [example_xml; [x41; x42]; example_blob; [xff]] in
  exists stream' w' more,
    custom_export (graph_of_blob example_blob) empty_stream (graph_of_blob [xff])
                  example_xml [x41; x42] empty_world = (Ok stream', w')
    /\ logged_since empty_world w' more
    /\ written stream' = written empty_stream ++ concat (field <$> parts)
    /\ last more = Some write_succeeded
    /\ read_fields 4 (concat (field <$> parts)) = Some parts.
Proof.
  intros parts.
  destruct (custom_export_layout (graph_of_blob example_blob) empty_stream
              (graph_of_blob [xff]) example_xml [x41; x42] empty_world)
    as (stream' & w' & more & Hrun & Hlog & _ & Hgood & Hnot & Hread).
  exists stream', w', more.
  assert (Hf : failed stream' = false).
  { apply Hnot; [reflexivity | reflexivity | discriminate | discriminate]. }
  destruct (Hgood Hf) as [Hw Hl].
  split_and!; [exact Hrun | exact Hlog | exact Hw | exact Hl |].
  apply Hread. repeat constructor; simpl; lia.
Defined.

(** What that export writes and logs, with the bin part of the
    examples. *)
Example custom_export_example :
  match custom_export (graph_of_blob example_blob) empty_stream (graph_of_blob [xff])
                      example_xml example_bin empty_world with
  | (Ok s, w) => (written s, failed s, logged w)
  | _ => ([], true, [])
  end
  = ([x36; x3c; x6e; x65; x74; x2f; x3e;   (* 6<net/> *)
      x32; x00; x01;                       (* 2 and two bytes *)
      x34; x7f; x45; x4c; x46;             (* 4 and the main blob *)
      x31; xff],                           (* 1 and the init blob *)
     false,
     [log_split_blob_size 5 29; write_succeeded]).
Proof. reflexivity. Qed.

Lemma write_init_blobs_reports initGraphs : forall s w s' returned w',
  write_init_blobs initGraphs s w = (Ok (s', returned), w') ->
  match initGraphs with
  | [] => returned = false /\ s' = s /\ w' = w
  | _ => returned = failed s'
         /\ w' = (if returned
                  then {| logged := logged w ++ [write_failed]; calls := calls w |}
                  else w)
  end.
Proof.
  induction initGraphs as [|g gs IH]; intros s w s' returned w' Hrun; simpl in Hrun.
  - by injection Hrun as <- <- <-.
  - set (s1 := write (_blobPtr g) (insert_uint32 (to_uint32 (blob_size g)) s)) in *.
    destruct (failed s1) eqn:Hf.
    + injection Hrun as <- <- <-. by rewrite Hf.
    + specialize (IH s1 w s' returned w' Hrun).
      destruct gs as [|g' gs]; [|done].
      destruct IH as (-> & -> & ->). by rewrite Hf.
Qed.

(** X18.  How [custom_export_split_init] reports a failed stream: the
    stream is looked at only inside the loop over the init graphs.  With
    at least one init graph the error is logged exactly when the stream
    has failed at the end, and nothing else is logged then; with no init
    graph the error is never logged, whatever the state of the stream.
    When the error is not logged, the log ends with the success at level
    INFO or above and gains nothing below it. *)
Theorem split_init_failure_report g stream initGraphs xml bin w :
  exists stream' w' more,
    custom_export_split_init g stream initGraphs xml bin w = (Ok stream', w')
    /\ logged_since w w' more
    /\ (initGraphs <> [] -> (failed stream' = true <-> more = [write_failed]))
    /\ (initGraphs = [] -> write_failed ∉ more)
    /\ (more <> [write_failed] ->
        more = [] /\ level_at_least_INFO g = false
        \/ last more = Some write_succeeded /\ level_at_least_INFO g = true).
Proof.
  unfold custom_export_split_init.
  set (s4 := insert_char x3a _).
  destruct (write_init_blobs_run initGraphs s4 w)
    as (s' & returned & w1 & Hrun & _ & _).
  rewrite (bind_Ok _ _ _ _ _ Hrun). cbv beta iota.
  pose proof (write_init_blobs_reports _ _ _ _ _ _ Hrun) as Hrep.
  destruct returned.
  - exists s', w1, [write_failed].
    destruct initGraphs as [|g0 gs]; [by destruct Hrep|].
    destruct Hrep as [Hf ->]. split_and!; try done.
  - assert (Hw1 : w1 = w).
    { destruct initGraphs; [by destruct Hrep as (_ & _ & ->) | by destruct Hrep]. }
    subst w1.
    destruct (level_at_least_INFO g); eexists _, _, _;
      (split; [reflexivity|]); split_and!.
    + unfold logged_since. simpl. split; [|done].
      rewrite <- app_assoc. reflexivity.
    + intros Hne. destruct initGraphs; [done|]. destruct Hrep as [<- _].
      split; discriminate.
    + intros _ H. apply elem_of_cons in H as [H|H]; [discriminate|].
      apply list_elem_of_singleton in H. discriminate.
    + intros _. by right.
    + unfold logged_since. simpl. by rewrite app_nil_r.
    + intros Hne. destruct initGraphs; [done|]. destruct Hrep as [<- _].
      split; discriminate.
    + intros _ H. by apply elem_of_nil in H.
    + intros _. by left.
Qed.

(** A sink with room for three bytes and no init graph: the stream has
    failed, the export logs the success. *)
Example split_init_failure_unreported :
  let sink := {| written := []; room := Some 3%nat; failed := false |} in
  match custom_export_split_init (graph_of_blob example_blob) sink []
                                 example_xml example_bin empty_world with
  | (Ok s, w) => (written s, failed s, logged w)
  | _ => ([], false, [])
  end
  = ([x36; x3c; x6e], true, [log_split_blob_size 4 29; write_succeeded]).
Proof. reflexivity. Qed.

End ExportLaws.

(** *** The adapter: teardown, handles and the split-weights protocols *)

Module AdapterLaws.
Import PluginGraph Effects EffectFacts GraphSpec GraphProofs
       PluginCompilerAdapter AdapterSpec AdapterProofs AdapterUse.

(** X19.  The destructor of a graph without handle makes no call of
    [destroyGraph]: the record of calls gains the release of the event
    slots (when there are any) and of the command queue (when there is
    one) and nothing else, nothing is logged, and the graph keeps what
    it was constructed with. *)
Theorem destructor_without_handle g w :
  _handle g = None ->
  exists g',
    PluginGraph_destructor g w
    = (Ok g', {| logged := logged w; calls := calls w ++ releases g |})
    /\ given g' = given g
    /\ _last_submitted_event g' = []
    /\ _command_queue g' = None.
Proof.
  destruct g as [ext0 h0 md blob lvl ins outs ord q b evs]. simpl.
  destruct w as [lg cs].
  intros ->. unfold PluginGraph_destructor, releases.
  cbv [bind record modify ret]. simpl.
  destruct evs as [|ev evs]; simpl; destruct q as [q|]; simpl;
    rewrite <- ?app_assoc, ?app_nil_r; simpl;
    eexists; (split; [reflexivity|]); simpl; split_and!; done.
Qed.

(** X19 at the export-only artifact. *)
Lemma destructor_without_handle_witness :
  exists g',
    PluginGraph_destructor export_only_graph empty_world
    = (Ok g', {| logged := logged empty_world;
                 calls := calls empty_world ++ releases export_only_graph |})
    /\ given g' = given export_only_graph
    /\ _last_submitted_event g' = []
    /\ _command_queue g' = None.
Proof.
  apply (destructor_without_handle export_only_graph empty_world). reflexivity.
Defined.

(** X20.  The destructor returns if and only if the graph holds no handle
    or holds the adapter that made it; for a graph with a handle and no
    adapter it dereferences the null adapter, before anything else is
    done. *)
Theorem destructor_defined_iff g w :
  ((exists g' w', PluginGraph_destructor g w = (Ok g', w')) <-> well_formed g)
  /\ (~ well_formed g ->
      PluginGraph_destructor g w = (Throw (undefined_behavior "_zeGraphExt"), w)).
Proof.
  destruct g as [ext0 h0 md blob lvl ins outs ord q b evs].
  unfold well_formed. simpl.
  destruct h0 as [h|].
  - destruct ext0 as [ext|].
    + split.
      * split; [by eauto|]. intros _.
        unfold PluginGraph_destructor.
        cbv [bind lift deref destroyGraph record modify ret]. simpl.
        destruct (pfnDestroy ext h); simpl;
          destruct evs as [|ev evs]; simpl; destruct q as [q|]; simpl;
          by eexists _, _.
      * intros Hn. destruct Hn. eauto.
    + split.
      * split.
        -- intros (g' & w' & H). discriminate.
        -- intros H. by destruct (H (mk_is_Some _ _ eq_refl)) as [? ?].
      * intros _. reflexivity.
  - split.
    + split; [by intros _ [? ?]|]. intros _.
      unfold PluginGraph_destructor. cbv [bind record modify ret]. simpl.
      destruct evs as [|ev evs]; simpl; destruct q as [q|]; simpl;
        by eexists _, _.
    + intros Hn. destruct Hn. by intros [? ?].
Qed.

(** X20 at a graph with a handle and no adapter. *)
Lemma destructor_defined_iff_witness :
  PluginGraph_destructor
    {| PluginGraph._zeGraphExt := None; _handle := Some 5%nat;
       _metadata := example_metadata; _blobPtr := [];
       _logger_level := INFO;
       _input_descriptors := []; _output_descriptors := [];
       _command_queue_group_ordinal := 0; _command_queue := None;
       _batch_size := None; _last_submitted_event := [] |} empty_world
  = (Throw (undefined_behavior "_zeGraphExt"), empty_world).
Proof.
  apply (proj2 (destructor_defined_iff _ empty_world)).
  unfold well_formed. simpl. intros H.
  by destruct (H (mk_is_Some _ _ eq_refl)).
Defined.

(** *** What the adapter hands to the constructor *)

Lemma returns_try_getGraphHandle a blob :
  returns (fun h => h = realized a blob) (try_getGraphHandle a blob).
Proof.
  intros w h w' H. rewrite try_getGraphHandle_Ok in H. by injection H as <- _.
Qed.

Lemma compile_given a model config :
  returns (fun g => given g
                    = built_from a (realized a (compiledNetwork
                                                  (compile_model (_compiler a) model config)))
                                 (compile_model (_compiler a) model config))
          (compile a model config).
Proof.
  unfold compile.
  eapply returns_bind; [apply returns_any | intros _ _].
  eapply returns_bind; [apply returns_any | intros _ _].
  eapply returns_bind; [apply returns_try_getGraphHandle | intros h ->].
  apply PluginGraph_new_given.
Qed.

Lemma parse_given a network config :
  returns (fun g => given g
                    = (_zeGraphExt a,
                       match _zeGraphExt a with
                       | Some ext => Some (snd (pfnCreate ext network))
                       | None => None
                       end,
                       parse_blob (_compiler a) network config, network))
          (parse a network config).
Proof.
  unfold parse.
  eapply returns_bind; [apply returns_any | intros _ _].
  eapply returns_bind; [apply returns_any | intros _ _].
  eapply returns_bind with
    (R := fun h => h = match _zeGraphExt a with
                       | Some ext => Some (snd (pfnCreate ext network))
                       | None => None
                       end).
  { destruct (_zeGraphExt a) as [ext|]; [|by apply returns_ret].
    eapply returns_bind with (R := fun h => h = snd (pfnCreate ext network)).
    { unfold getGraphHandle.
      eapply returns_bind; [apply returns_any | intros _ _].
      eapply returns_bind; [apply returns_any | intros _ _].
      by apply returns_ret. }
    intros h ->. by apply returns_ret. }
  intros h ->. apply PluginGraph_new_given.
Qed.

Lemma wrap_segment_given a config nd results :
  returns (fun r => exists g,
               r = results ++ [g]
               /\ given g = built_from a (realized a (compiledNetwork nd)) nd)
          (wrap_segment a config nd results).
Proof.
  unfold wrap_segment.
  eapply returns_bind; [apply returns_try_getGraphHandle | intros h ->].
  eapply returns_bind; [apply PluginGraph_new_given | intros g Hg].
  apply returns_ret. by exists g.
Qed.

Lemma wrap_all_given a config segs : forall results,
  returns (fun gs => given <$> gs
                     = (given <$> results)
                       ++ ((fun nd => built_from a (realized a (compiledNetwork nd)) nd)
                             <$> segs))
          (for_each segs (wrap_segment a config) results).
Proof.
  induction segs as [|nd segs IH]; intros results; simpl.
  - apply returns_ret. by rewrite app_nil_r.
  - eapply returns_bind; [apply wrap_segment_given|].
    intros r (g & -> & Hg). intros s gs s' H.
    rewrite (IH _ _ _ _ H), fmap_app. simpl. rewrite Hg, <- app_assoc. done.
Qed.

Lemma handles_run ext init m w :
  exists w',
    try_catch
      (initGraphHandle <- getGraphHandle ext (compiledNetwork init) ;;
       main <- lift (deref "mainNetworkDescription" (Some m)) ;;
       try_catch
         (mainGraphHandle <- getGraphHandle ext (compiledNetwork main) ;;
          ret (Some initGraphHandle, Some mainGraphHandle))
         (Runtime.info handle_failure_message ;;;
          ret (Some initGraphHandle, None)))
      (Runtime.info handle_failure_message ;;; ret (None, None)) w
    = (Ok (match fst (pfnCreate ext (compiledNetwork init)) with
           | ZE_RESULT_SUCCESS =>
               (Some (snd (pfnCreate ext (compiledNetwork init))),
                match fst (pfnCreate ext (compiledNetwork m)) with
                | ZE_RESULT_SUCCESS => Some (snd (pfnCreate ext (compiledNetwork m)))
                | _ => None
                end)
           | _ => (None, None)
           end), w')
    /\ calls w'
       = calls w ++ call_getGraphHandle (compiledNetwork init)
         :: match fst (pfnCreate ext (compiledNetwork init)) with
            | ZE_RESULT_SUCCESS => [call_getGraphHandle (compiledNetwork m)]
            | _ => []
            end.
Proof.
  unfold try_catch, bind, getGraphHandle, record, modify, lift, deref. simpl.
  destruct (fst (pfnCreate ext (compiledNetwork init))); simpl;
    [|eexists; split; [reflexivity|done]].
  destruct (fst (pfnCreate ext (compiledNetwork m))); simpl;
    eexists; (split; [reflexivity|]); simpl; by rewrite <- app_assoc.
Qed.

Lemma wrap_init_main_given a config init m :
  returns (fun gs => exists gi gm,
               gs = [gi; gm]
               /\ given gi = built_from a (fst (init_main_handles a init m)) init
               /\ given gm = built_from a (snd (init_main_handles a init m)) m)
          (wrap_init_main a config init (Some m)).
Proof.
  unfold wrap_init_main.
  eapply returns_bind; [apply returns_any | intros _ _].
  eapply returns_bind with (R := fun hs => hs = init_main_handles a init m).
  { unfold init_main_handles, realized.
    destruct (_zeGraphExt a) as [ext|]; [|by apply returns_ret].
    intros w hs w' H. destruct (handles_run ext init m w) as (w1 & Hrun & _).
    rewrite Hrun in H. injection H as <- _.
    by destruct (fst (pfnCreate ext (compiledNetwork init))). }
  intros [hi hm] Hhs.
  eapply returns_bind; [apply PluginGraph_new_given | intros gi Hgi].
  eapply returns_bind; [apply returns_deref | intros ? ->].
  eapply returns_bind; [apply PluginGraph_new_given | intros gm Hgm].
  apply returns_ret. exists gi, gm. rewrite <- Hhs. by split_and!.
Qed.

(** X21.  Protocol versions 2 and 3 ask the driver for both handles in
    one [try] block.  For a compiler that answers with init segments
    and then the main segment: the init artifact holds the handle the
    driver gives for the first init segment, or none when the driver
    refuses it; the main artifact holds the driver's handle for the main
    segment only when the init handle was made, and no handle otherwise,
    whatever the driver would have answered for the main segment. *)
Theorem init_refusal_blocks_main a model config version i0 more m rest w :
  SEPARATE_WEIGHTS_VERSION config = version ->
  version = 2 \/ version = 3 ->
  replies a model config version = (i0 :: more) ++ m :: rest ->
  Forall named_init (i0 :: more) ->
  isInit (name (metadata m)) = false ->
  isMain (name (metadata m)) = true ->
  (forall gs w',
      compileWS a model config w = (Ok gs, w') ->
      exists gi gm,
        gs = [gi; gm]
        /\ _handle gi = realized a (compiledNetwork i0)
        /\ _handle gm = match realized a (compiledNetwork i0) with
                        | Some _ => realized a (compiledNetwork m)
                        | None => None
                        end)
  /\ (constructs a config -> exists gs w', compileWS a model config w = (Ok gs, w')).
Proof.
  intros Hv Hver Hr Hin Hm Hmain.
  rewrite (compileWS_v23 a model config version w Hv Hver).
  destruct (collect_main a model config version (i0 :: more) m rest
              {| logged := logged w ++ [log DEBUG "compile start"];
                 calls := calls w |} Hver Hr Hin Hm Hmain)
    as (cs & Hc & _).
  rewrite (bind_Ok _ _ _ _ _ Hc). cbv beta iota. rewrite take_first.
  split.
  - intros gs w' Hrun.
    destruct (wrap_init_main_given _ _ _ _ _ _ _ Hrun) as (gi & gm & -> & Hgi & Hgm).
    exists gi, gm. unfold given, built_from, init_main_handles in *.
    destruct (realized a (compiledNetwork i0)); simpl in *;
      split_and!; congruence.
  - intros Hcon. by apply wrap_init_main_Ok.
Qed.

(** X21 at the compiler of the examples. *)
Lemma init_refusal_blocks_main_witness :
  (forall gs w',
      compileWS example_adapter example_model (example_config 2) empty_world
      = (Ok gs, w') ->
      exists gi gm,
        gs = [gi; gm]
        /\ _handle gi = realized example_adapter (compiledNetwork init0)
        /\ _handle gm = match realized example_adapter (compiledNetwork init0) with
                        | Some _ => realized example_adapter (compiledNetwork main0)
                        | None => None
                        end)
  /\ (constructs example_adapter (example_config 2) ->
      exists gs w',
        compileWS example_adapter example_model (example_config 2) empty_world
        = (Ok gs, w')).
Proof.
  apply (init_refusal_blocks_main
           example_adapter example_model (example_config 2) 2
           init0 [init1] main0 [stray] empty_world);
    [reflexivity | by left | reflexivity | exact example_inits_named
     | reflexivity | reflexivity].
Defined.

(** X22.  [compile] and protocol version 1 ask for the handle of each
    compiled network in a [try] block of its own: the artifact of a
    segment holds the adapter's driver, the metadata and the bytes of
    that segment, and the handle the driver gives for those bytes or
    none when the driver refuses them, independently of the other
    segments. *)
Theorem every_segment_gets_its_attempt a model config w :
  (forall g w',
      compile a model config w = (Ok g, w') ->
      given g
      = built_from a (realized a (compiledNetwork
                                    (compile_model (_compiler a) model config)))
                   (compile_model (_compiler a) model config))
  /\ (SEPARATE_WEIGHTS_VERSION config = 1 ->
      forall gs w',
        compileWS a model config w = (Ok gs, w') ->
        given <$> gs
        = (fun nd => built_from a (realized a (compiledNetwork nd)) nd)
            <$> compileWS_v1 (_compiler a) model config).
Proof.
  split.
  - intros g w' H. by apply (compile_given _ _ _ _ _ _ H).
  - intros Hv gs w' H. rewrite (compileWS_v1_eq a model config w Hv) in H.
    apply PipelineProofs.bind_Ok_inv in H as (l & w1 & _ & H).
    apply PipelineProofs.bind_Ok_inv in H as (u & w2 & _ & H).
    by apply (wrap_all_given _ _ _ _ _ _ _ H).
Qed.

(** A driver that refuses the init segment and accepts the main segment:
    protocol 1 realizes the main artifact, protocol 2 realizes none. *)
Example handles_per_protocol :
  (_handle <$> match compileWS picky_adapter example_model (example_config 1)
                              empty_world with
               | (Ok gs, _) => gs | _ => [] end) = [None; Some 5%nat]
  /\ (_handle <$> match compileWS picky_adapter example_model (example_config 2)
                                 empty_world with
                  | (Ok gs, _) => gs | _ => [] end) = [None; None].
Proof. split; reflexivity. Qed.

Lemma collect_v2_inits inits : forall acc w,
  Forall named_init inits ->
  collect_v2 inits acc w
  = (Ok (acc ++ inits, None),
     {| logged := logged w;
        calls := calls w ++ replicate (Datatypes.S (length inits)) call_compileWS_v2 |}).
Proof.
  induction inits as [|nd inits IH]; intros acc w Hin.
  - simpl. unfold bind, record, modify, ret. simpl. by rewrite app_nil_r.
  - apply Forall_cons in Hin as [Hnd Hin]. unfold named_init in Hnd.
    simpl collect_v2. unfold bind at 1, record, modify. rewrite Hnd.
    rewrite IH by done. simpl. by rewrite <- !app_assoc.
Qed.

Lemma collect_v3_inits inits : forall fresh i acc w,
  Forall named_init inits ->
  exists cs,
    collect_v3 inits fresh i acc w
    = (Ok (acc ++ inits, None), {| logged := logged w; calls := calls w ++ cs |}).
Proof.
  induction inits as [|nd inits IH]; intros fresh i acc w Hin.
  - eexists. simpl. unfold bind, record, modify, ret. simpl.
    by rewrite app_nil_r.
  - apply Forall_cons in Hin as [Hnd Hin]. unfold named_init in Hnd.
    simpl collect_v3. unfold bind at 1, record, modify. rewrite Hnd.
    destruct (IH true (size_t_add i 1) (acc ++ [nd])
                 {| logged := logged w;
                    calls := calls w ++ [call_compileWS_v3 fresh i] |} Hin)
      as (cs & ->).
    eexists. simpl. by rewrite <- !app_assoc.
Qed.

Lemma wrap_init_main_no_main a config init w :
  fst (wrap_init_main a config init None w)
  = Throw (undefined_behavior "mainNetworkDescription").
Proof.
  unfold wrap_init_main. unfold bind at 1, debug, emit, modify.
  set (w0 := {| logged := _; calls := _ |}).
  destruct (_zeGraphExt a) as [ext|] eqn:Hext.
  - unfold bind at 1. unfold try_catch at 1. unfold bind at 1.
    destruct (getGraphHandle ext (compiledNetwork init) w0) as [[hi|e] w1] eqn:Hh.
    + reflexivity.
    + rewrite (getGraphHandle_catchable _ _ _ _ _ Hh).
      unfold bind at 1, Runtime.info, emit, modify. unfold ret at 1.
      destruct (PluginGraph_new_no_handle (Some ext) (metadata init)
                  (compiledNetwork init) config
                  {| logged := logged w1 ++ [log INFO handle_failure_message];
                     calls := calls w1 |}) as (g & w2 & Hg & _).
      unfold bind at 1. rewrite Hg. reflexivity.
  - unfold bind at 1, ret at 1.
    destruct (PluginGraph_new_no_handle None (metadata init)
                (compiledNetwork init) config w0) as (g & w2 & Hg & _).
    unfold bind at 1. rewrite Hg. reflexivity.
Qed.

(** X23.  Protocol versions 2 and 3 with a compiler that stops answering
    before it has delivered a main segment (every segment it answers
    with is named "init..."): [compileWS] ends in undefined behaviour,
    the access [initDscrs[0]] to the empty vector when there was no
    segment at all and the dereference of the null
    [mainNetworkDescription] otherwise; no exception is thrown for
    it. *)
Theorem compiler_must_deliver_main a model config version w :
  SEPARATE_WEIGHTS_VERSION config = version ->
  version = 2 \/ version = 3 ->
  Forall named_init (replies a model config version) ->
  fst (compileWS a model config w)
  = Throw (undefined_behavior
             match replies a model config version with
             | [] => "initDscrs[0]"
             | _ => "mainNetworkDescription"
             end).
Proof.
  intros Hv Hver Hin.
  rewrite (compileWS_v23 a model config version w Hv Hver).
  set (w0 := {| logged := _; calls := _ |}).
  assert (Hc : exists w1, collect a model config version w0
                          = (Ok (replies a model config version, None), w1)).
  { unfold collect, replies in *. destruct Hver as [->| ->]; simpl in *.
    - rewrite collect_v2_inits by done. by eexists.
    - destruct (collect_v3_inits _ false 0 [] w0 Hin) as (cs & ->). by eexists. }
  destruct Hc as (w1 & Hc). rewrite (bind_Ok _ _ _ _ _ Hc). cbv beta iota.
  destruct (replies a model config version) as [|i0 more]; [reflexivity|].
  rewrite take_first. apply wrap_init_main_no_main.
Qed.

(** X23 at a compiler that answers with two init segments only. *)
Lemma compiler_must_deliver_main_witness :
  let a := {| _compiler :=
                {| compile_model := fun _ _ => main0;
                   compileWS_v1 := fun _ _ => [init0];
                   compileWS_v2 := fun _ _ => [init0; init1];
                   compileWS_v3 := fun _ _ => [init0; init1];
                   parse_blob := fun _ _ => metadata main0;
                   get_compiler_version := 7 |};
              _zeGraphExt := Some picky_driver |} in
  fst (compileWS a example_model (example_config 3) empty_world)
  = Throw (undefined_behavior "mainNetworkDescription").
Proof.
  intros a.
  apply (compiler_must_deliver_main a example_model (example_config 3) 3 empty_world);
    [reflexivity | by right | exact example_inits_named].
Defined.

Lemma shifted_calls i n : forall k,
  (fun j => call_compileWS_v3 true (i + 1 + Z.of_nat j)) <$> seq k n
  = (fun j => call_compileWS_v3 true (i + Z.of_nat j)) <$> seq (Datatypes.S k) n.
Proof.
  induction n as [|n IH]; intros k; [done|].
  simpl. f_equal; [f_equal; lia | apply IH].
Qed.

Lemma collect_v3_calls inits : forall m rest fresh i acc w,
  Forall named_init inits ->
  isInit (name (metadata m)) = false ->
  isMain (name (metadata m)) = true ->
  0 <= i -> i + Z.of_nat (length inits) < size_t_max ->
  collect_v3 (inits ++ m :: rest) fresh i acc w
  = (Ok (acc ++ inits, Some m),
     {| logged := logged w;
        calls := calls w
                 ++ call_compileWS_v3 fresh i
                 :: ((fun j => call_compileWS_v3 true (i + Z.of_nat j))
                       <$> seq 1 (length inits)) |}).
Proof.
  induction inits as [|nd inits IH]; intros m rest fresh i acc w Hin Hm Hmain Hi Hlen.
  - simpl. unfold bind, record, modify, OPENVINO_ASSERT, ret. simpl.
    rewrite Hm, Hmain. simpl. by rewrite app_nil_r.
  - apply Forall_cons in Hin as [Hnd Hin]. unfold named_init in Hnd.
    simpl app. simpl collect_v3. unfold bind at 1, record, modify. rewrite Hnd.
    simpl length in Hlen.
    assert (Hi1 : size_t_add i 1 = i + 1).
    { unfold size_t_add. apply Z.mod_small. lia. }
    rewrite Hi1. rewrite IH by (done || lia). simpl.
    rewrite <- !app_assoc. simpl. do 4 f_equal.
    f_equal. apply shifted_calls.
Qed.

(** X24.  The loop of protocol version 3, for a compiler that answers with
    [length inits] init segments and then the main segment: the compiler
    is called [length inits + 1] times, call number [j] with the counter
    [j], the first call with the caller's model and every later call
    with a fresh clone of the original model; the segments after the
    main segment are never asked for and nothing is logged. *)
Theorem v3_call_protocol a model config inits m rest w :
  compileWS_v3 (_compiler a) model config = inits ++ m :: rest ->
  Forall named_init inits ->
  isInit (name (metadata m)) = false ->
  isMain (name (metadata m)) = true ->
  Z.of_nat (length inits) < size_t_max ->
  collect a model config 3 w
  = (Ok (inits, Some m),
     {| logged := logged w; calls := calls w ++ v3_calls (length inits) |}).
Proof.
  intros Hr Hin Hm Hmain Hlen. unfold collect. simpl. rewrite Hr.
  rewrite collect_v3_calls by (done || lia). simpl.
  unfold v3_calls. do 4 f_equal.
Qed.

(** X24 at the compiler of the examples. *)
Lemma v3_call_protocol_witness :
  collect example_adapter example_model (example_config 3) 3 empty_world
  = (Ok ([init0; init1], Some main0),
     {| logged := logged empty_world;
        calls := calls empty_world ++ v3_calls 2 |}).
Proof.
  apply (v3_call_protocol example_adapter example_model (example_config 3)
           [init0; init1] main0 [stray] empty_world);
    [reflexivity | exact example_inits_named | reflexivity | reflexivity
     | vm_compute; reflexivity].
Defined.

Lemma realized_adapter a blob :
  is_Some (realized a blob) -> is_Some (_zeGraphExt a).
Proof. unfold realized. destruct (_zeGraphExt a); [done | by intros [? ?]]. Qed.

Lemma built_well_formed a h nd g :
  given g = built_from a h nd ->
  (is_Some h -> is_Some (_zeGraphExt a)) ->
  well_formed g.
Proof.
  unfold given, built_from, well_formed. intros [= -> -> _ _]. done.
Qed.

Lemma well_formed_destructible g : well_formed g -> destructible g.
Proof.
  intros Hwf w.
  destruct g as [ext0 h0 md blob lvl ins outs ord q b evs].
  unfold well_formed in Hwf. simpl in Hwf.
  unfold PluginGraph_destructor.
  cbv [bind lift deref destroyGraph record modify ret]. simpl.
  destruct h0 as [h|].
  - destruct ext0 as [ext|]; [|by destruct (Hwf (mk_is_Some _ _ eq_refl))].
    simpl. destruct (pfnDestroy ext h); simpl;
      destruct evs as [|ev evs]; simpl; destruct q as [q|]; simpl;
      by eexists _, _.
  - destruct evs as [|ev evs]; simpl; destruct q as [q|]; simpl;
      by eexists _, _.
Qed.

Lemma wrap_init_main_well_formed a config init main :
  returns (Forall well_formed) (wrap_init_main a config init main).
Proof.
  destruct main as [m|].
  - intros w gs w' H.
    destruct (wrap_init_main_given _ _ _ _ _ _ _ H) as (gi & gm & -> & Hgi & Hgm).
    unfold init_main_handles in *.
    repeat constructor.
    + eapply built_well_formed; [exact Hgi|].
      destruct (realized a (compiledNetwork init)) eqn:Hr; simpl; [|by intros [? ?]].
      intros _. apply (realized_adapter a (compiledNetwork init)). by rewrite Hr.
    + eapply built_well_formed; [exact Hgm|].
      destruct (realized a (compiledNetwork init)) eqn:Hr; simpl; [|by intros [? ?]].
      apply realized_adapter.
  - intros w gs w' H. pose proof (wrap_init_main_no_main a config init w) as Hn.
    rewrite H in Hn. discriminate.
Qed.

(** X25.  Every artifact that [compile], [parse] or [compileWS] (any
    protocol version) returns can be destroyed: it holds a handle only
    together with the adapter, so its destructor returns for every state
    of the world. *)
Theorem artifacts_can_be_destroyed a :
  (forall model config w g w',
      compile a model config w = (Ok g, w') -> destructible g)
  /\ (forall network config w g w',
         parse a network config w = (Ok g, w') -> destructible g)
  /\ (forall model config w gs w',
         compileWS a model config w = (Ok gs, w') -> Forall destructible gs).
Proof.
  split_and!.
  - intros model config w g w' H. apply well_formed_destructible.
    eapply built_well_formed; [exact (compile_given _ _ _ _ _ _ H)|].
    apply realized_adapter.
  - intros network config w g w' H. apply well_formed_destructible.
    pose proof (parse_given _ _ _ _ _ _ H) as Hg.
    unfold well_formed. unfold given in Hg. injection Hg as -> -> _ _.
    by destruct (_zeGraphExt a).
  - intros model config w gs w' H.
    apply (Forall_impl well_formed); [|apply well_formed_destructible].
    destruct (compileWS_cases a model config w) as [Hv|[Hv|[Hv|Hv]]].
    + rewrite (compileWS_v1_eq a model config w Hv) in H.
      apply PipelineProofs.bind_Ok_inv in H as (l & w1 & _ & H).
      apply PipelineProofs.bind_Ok_inv in H as (u & w2 & _ & H).
      pose proof (wrap_all_given _ _ _ _ _ _ _ H) as Hgs. simpl in Hgs.
      apply Forall_lookup. intros i g Hi.
      apply (f_equal (fun l => l !! i)) in Hgs.
      rewrite !list_lookup_fmap, Hi in Hgs. simpl in Hgs.
      destruct (compileWS_v1 (_compiler a) model config !! i) as [nd|];
        [|discriminate].
      injection Hgs as Hg1 Hg2 Hg3 Hg4.
      assert (Hg : given g = built_from a (realized a (compiledNetwork nd)) nd)
        by (unfold given, built_from; congruence).
      eapply built_well_formed; [exact Hg|]. apply realized_adapter.
    + rewrite (compileWS_v23 a model config 2 w Hv (or_introl eq_refl)) in H.
      apply PipelineProofs.bind_Ok_inv in H as ([initDscrs main] & w1 & _ & H).
      apply PipelineProofs.bind_Ok_inv in H as (init & w2 & _ & H).
      by apply (wrap_init_main_well_formed _ _ _ _ _ _ _ H).
    + rewrite (compileWS_v23 a model config 3 w Hv (or_intror eq_refl)) in H.
      apply PipelineProofs.bind_Ok_inv in H as ([initDscrs main] & w1 & _ & H).
      apply PipelineProofs.bind_Ok_inv in H as (init & w2 & _ & H).
      by apply (wrap_init_main_well_formed _ _ _ _ _ _ _ H).
    + rewrite H in Hv. discriminate.
Qed.

End AdapterLaws.

(** *** The factory and the adapter it builds *)

Module FactoryLaws.
Import PluginGraph Effects EffectFacts GraphSpec GraphProofs
       PluginCompilerAdapter AdapterSpec AdapterProofs.
Import GraphUse GraphLaws AdapterUse AdapterLaws.
Import AdapterConstruction CompilerAdapterFactory FactoryUse.

Lemma PluginCompilerAdapter_new_run platform zeroInitStruct w :
  match loadCompiler platform with
  | Ok compiler =>
      exists w',
        PluginCompilerAdapter_new platform zeroInitStruct w
        = (Ok {| _compiler := compiler;
                 _zeGraphExt := getGraphDdiTable <$> zeroInitStruct |}, w')
        /\ calls w' = calls w
  | Throw e =>
      exists w',
        PluginCompilerAdapter_new platform zeroInitStruct w = (Throw e, w')
        /\ calls w' = calls w
  end.
Proof.
  unfold PluginCompilerAdapter_new, bind, debug, Runtime.info, emit, modify, lift, ret.
  destruct (loadCompiler platform) as [c|e]; [|by eexists].
  destruct zeroInitStruct as [s|]; by eexists.
Qed.

Lemma getCompiler_eq platform engineBackend compilerType :
  valid_type compilerType ->
  getCompiler platform engineBackend compilerType
  = PluginCompilerAdapter_new platform (level_zero engineBackend).
Proof.
  intros [->| ->]; unfold getCompiler, level_zero;
    (destruct engineBackend as [b|]; [|done]);
    by destruct (String.eqb (getName b) "LEVEL0").
Qed.

(** X26.  [CompilerAdapterFactory::getCompiler] returns an adapter if and
    only if the compiler type is MLIR or DRIVER and the compiler library
    loads; both types give the same plugin adapter.  The adapter holds
    the loaded compiler, and holds the graph extension of the driver
    exactly when the backend is present, is named "LEVEL0" and has init
    structs; no driver call is made.  Any other compiler type throws
    "Invalid NPU_COMPILER_TYPE" before anything is logged. *)
Theorem factory_builds_the_plugin_adapter platform engineBackend compilerType w :
  ((exists a w', getCompiler platform engineBackend compilerType w = (Ok a, w'))
   <-> valid_type compilerType /\ exists compiler, loadCompiler platform = Ok compiler)
  /\ (forall a w',
         getCompiler platform engineBackend compilerType w = (Ok a, w') ->
         loadCompiler platform = Ok (_compiler a)
         /\ _zeGraphExt a = getGraphDdiTable <$> level_zero engineBackend
         /\ calls w' = calls w)
  /\ (~ valid_type compilerType ->
      getCompiler platform engineBackend compilerType w
      = (Throw (ov_Exception "Invalid NPU_COMPILER_TYPE" ""), w)).
Proof.
  split_and!.
  - split.
    + intros (a & w' & H). destruct compilerType as [| |n].
      * split; [by left|]. rewrite getCompiler_eq in H by (by left).
        pose proof (PluginCompilerAdapter_new_run platform (level_zero engineBackend) w)
          as Hrun.
        destruct (loadCompiler platform) as [c|e]; [by eexists|].
        destruct Hrun as (w1 & Hrun & _). congruence.
      * split; [by right|]. rewrite getCompiler_eq in H by (by right).
        pose proof (PluginCompilerAdapter_new_run platform (level_zero engineBackend) w)
          as Hrun.
        destruct (loadCompiler platform) as [c|e]; [by eexists|].
        destruct Hrun as (w1 & Hrun & _). congruence.
      * discriminate.
    + intros [Hv (c & Hc)]. rewrite getCompiler_eq by done.
      pose proof (PluginCompilerAdapter_new_run platform (level_zero engineBackend) w)
        as Hrun.
      rewrite Hc in Hrun. destruct Hrun as (w1 & Hrun & _). eauto.
  - intros a w' H.
    assert (Hv : valid_type compilerType).
    { destruct compilerType; [by left | by right | discriminate]. }
    rewrite getCompiler_eq in H by done.
    pose proof (PluginCompilerAdapter_new_run platform (level_zero engineBackend) w)
      as Hrun.
    destruct (loadCompiler platform) as [c|e]; destruct Hrun as (w1 & Hrun & Hc);
      rewrite Hrun in H; [|discriminate].
    injection H as <- <-. done.
  - intros Hn. destruct compilerType as [| |n]; [destruct Hn; by left
                                                | destruct Hn; by right | done].
Qed.

(** X26 at a Level Zero backend. *)
Lemma factory_builds_the_plugin_adapter_witness :
  exists a w',
    getCompiler example_platform (Some example_backend) DRIVER empty_world = (Ok a, w').
Proof.
  apply (proj1 (factory_builds_the_plugin_adapter
                  example_platform (Some example_backend) DRIVER empty_world)).
  split; [by right | by eexists].
Defined.

Lemma export_only_compile a model config w :
  _zeGraphExt a = None ->
  exists g w',
    compile a model config w = (Ok g, w')
    /\ given g = (None, None, metadata (compile_model (_compiler a) model config),
                  compiledNetwork (compile_model (_compiler a) model config))
    /\ calls w' = calls w.
Proof.
  intros Hext. unfold compile, try_getGraphHandle. rewrite Hext.
  unfold bind at 1 2 3, debug, emit, modify. unfold ret at 1.
  set (w0 := {| logged := _; calls := _ |}).
  destruct (PluginGraph_new_no_handle None
              (metadata (compile_model (_compiler a) model config))
              (compiledNetwork (compile_model (_compiler a) model config))
              config w0) as (g & w' & Hg & Hgiven & Hcalls & _).
  exists g, w'. by split_and!.
Qed.

Lemma export_only_parse a network config w :
  _zeGraphExt a = None ->
  exists g w',
    parse a network config w = (Ok g, w')
    /\ given g = (None, None, parse_blob (_compiler a) network config, network)
    /\ calls w' = calls w.
Proof.
  intros Hext. unfold parse. rewrite Hext.
  unfold bind at 1 2 3, debug, emit, modify. unfold ret at 1.
  set (w0 := {| logged := _; calls := _ |}).
  destruct (PluginGraph_new_no_handle None
              (parse_blob (_compiler a) network config) network
              config w0) as (g & w' & Hg & Hgiven & Hcalls & _).
  exists g, w'. by split_and!.
Qed.

Lemma no_adapter_no_argument g argi argv w :
  PluginGraph._zeGraphExt g = None ->
  set_argument_value g argi argv w = (Throw not_initialized, w).
Proof. intros H. unfold set_argument_value. by rewrite H. Qed.

(** X27.  An adapter the factory builds without a Level Zero backend
    (no backend, a backend of another name, or one without init structs)
    never reaches the driver: [compile] and [parse] return for every
    model and blob, the artifact holds the bytes and no handle, no driver
    call is recorded, and [set_argument_value] on the artifact throws
    "Zero compiler adapter wasn't initialized". *)
Theorem without_level_zero_only_exports platform engineBackend compilerType w a w' :
  level_zero engineBackend = None ->
  getCompiler platform engineBackend compilerType w = (Ok a, w') ->
  _zeGraphExt a = None
  /\ (forall model config w0,
         exists g w1,
           compile a model config w0 = (Ok g, w1)
           /\ _handle g = None
           /\ _blobPtr g = compiledNetwork (compile_model (_compiler a) model config)
           /\ calls w1 = calls w0
           /\ forall argi argv w2,
               set_argument_value g argi argv w2 = (Throw not_initialized, w2))
  /\ (forall network config w0,
         exists g w1,
           parse a network config w0 = (Ok g, w1)
           /\ _handle g = None
           /\ _blobPtr g = network
           /\ calls w1 = calls w0
           /\ forall argi argv w2,
               set_argument_value g argi argv w2 = (Throw not_initialized, w2)).
Proof.
  intros Hlz H.
  assert (Hext : _zeGraphExt a = None).
  { assert (Hv : valid_type compilerType).
    { destruct compilerType; [by left | by right | discriminate]. }
    rewrite getCompiler_eq, Hlz in H by done.
    pose proof (PluginCompilerAdapter_new_run platform None w) as Hrun.
    destruct (loadCompiler platform) as [c|e]; destruct Hrun as (w1 & Hrun & Hc);
      rewrite Hrun in H; [|discriminate].
    by injection H as <- _. }
  split; [done|]. split.
  - intros model config w0.
    destruct (export_only_compile a model config w0 Hext)
      as (g & w1 & Hrun & Hgiven & Hcalls).
    exists g, w1. unfold given in Hgiven. injection Hgiven as Hg1 Hg2 Hg3 Hg4.
    split_and!; try done. intros argi argv w2. by apply no_adapter_no_argument.
  - intros network config w0.
    destruct (export_only_parse a network config w0 Hext)
      as (g & w1 & Hrun & Hgiven & Hcalls).
    exists g, w1. unfold given in Hgiven. injection Hgiven as Hg1 Hg2 Hg3 Hg4.
    split_and!; try done. intros argi argv w2. by apply no_adapter_no_argument.
Qed.

(** X27 at the adapter the factory builds for a backend of another
    name. *)
Lemma without_level_zero_only_exports_witness :
  let a := {| _compiler := example_compiler; _zeGraphExt := None |} in
  _zeGraphExt a = None
  /\ (forall model config w0,
         exists g w1,
           compile a model config w0 = (Ok g, w1)
           /\ _handle g = None
           /\ _blobPtr g = compiledNetwork (compile_model (_compiler a) model config)
           /\ calls w1 = calls w0
           /\ forall argi argv w2,
               set_argument_value g argi argv w2 = (Throw not_initialized, w2))
  /\ (forall network config w0,
         exists g w1,
           parse a network config w0 = (Ok g, w1)
           /\ _handle g = None
           /\ _blobPtr g = network
           /\ calls w1 = calls w0
           /\ forall argi argv w2,
               set_argument_value g argi argv w2 = (Throw not_initialized, w2)).
Proof.
  intros a.
  apply (without_level_zero_only_exports example_platform (Some other_backend) MLIR
           empty_world a
           {| logged := [log DEBUG "initialize PluginCompilerAdapter start";
                         log INFO "MLIR compiler will be used."];
              calls := [] |});
    reflexivity.
Defined.

End FactoryLaws.

(** *** [compile] on a driver that makes the handle *)

Module CompileLaws.
Import PluginGraph Effects EffectFacts GraphSpec GraphProofs
       PluginCompilerAdapter AdapterSpec AdapterProofs.
Import GraphUse GraphLaws AdapterUse AdapterLaws.

Lemma getGraphHandle_run ext blob w :
  fst (pfnCreate ext blob) = ZE_RESULT_SUCCESS ->
  getGraphHandle ext blob w
  = (Ok (snd (pfnCreate ext blob)),
     {| logged := logged w; calls := calls w ++ [call_getGraphHandle blob] |}).
Proof.
  intros Hs. unfold getGraphHandle, bind, record, modify, ret. by rewrite Hs.
Qed.

(** X28.  [compile] with an adapter whose driver makes the handle, under
    a configuration that creates the executor at once.  When every
    driver call of the initialization succeeds, [compile] returns the
    artifact with the adapter's driver, the handle, the metadata and the
    bytes of the compiled network, with the descriptors of all arguments
    and the command queue, having called [getGraphHandle] and then
    [initializeGraph] and nothing else.  When one of those calls fails,
    [compile] throws the failure of that call: unlike the failure to
    make the handle it is not caught. *)
Theorem compile_realizes_the_graph a ext model config w :
  let nd := compile_model (_compiler a) model config in
  let h := snd (pfnCreate ext (compiledNetwork nd)) in
  let all := described ext h <$> seq 0 (snd (pfnGetProperties ext h)) in
  _zeGraphExt a = Some ext ->
  fst (pfnCreate ext (compiledNetwork nd)) = ZE_RESULT_SUCCESS ->
  CREATE_EXECUTOR config = true ->
  DEFER_WEIGHTS_LOAD config = false ->
  (driver_accepts ext h config ->
   exists g w',
     compile a model config w = (Ok g, w')
     /\ given g = (Some ext, Some h, metadata nd, compiledNetwork nd)
     /\ _input_descriptors g = filter is_input all
     /\ _output_descriptors g = filter (fun d => ~ is_input d) all
     /\ _command_queue g = Some (created_queue ext config)
     /\ calls w' = calls w ++ [call_getGraphHandle (compiledNetwork nd);
                               call_initializeGraph h (queue_ordinal ext)])
  /\ (~ driver_accepts ext h config ->
      exists call status w',
        compile a model config w = (Throw (ze_failure call status), w')
        /\ call <> "pfnCreate2"%string
        /\ status <> ZE_RESULT_SUCCESS).
Proof.
  intros nd h all Hext Hcreate Hexec Hdefer.
  set (g0 := constructed (Some ext) (Some h) (metadata nd) (compiledNetwork nd) config).
  set (w1 := {| logged := (logged w ++ [log DEBUG "compile start"])
                          ++ [log DEBUG "compile end"];
                calls := calls w ++ [call_getGraphHandle (compiledNetwork nd)] |}).
  assert (Heq : compile a model config w = initialize config g0 w1).
  { unfold compile. fold nd.
    unfold bind at 1 2, debug, emit, modify.
    set (w0 := {| logged := _; calls := _ |}).
    rewrite (bind_Ok _ _ _ _ _ (try_getGraphHandle_Ok a (compiledNetwork nd) w0)).
    unfold realized, after_try. rewrite Hext, Hcreate. fold h.
    unfold PluginGraph_new. rewrite Hexec, Hdefer. reflexivity. }
  rewrite Heq. split.
  - intros Hacc. rewrite (initialize_run config g0 ext h w1 eq_refl eq_refl Hacc).
    eexists _, _. split; [reflexivity|].
    destruct (initialized_fields config ext h g0)
      as (Hgiven & _ & Hin & Hout & _ & Hq & _).
    split_and!; try done.
    simpl. rewrite <- app_assoc. done.
  - intros Hnot.
    destruct (initialize config g0 w1) as [[g|e] w2] eqn:Hinit.
    + destruct Hnot. by eapply (initialize_Ok_accepts config g0 ext h w1 g w2).
    + destruct (initialize_Throw_inv config g0 ext h w1 e w2 eq_refl eq_refl Hinit)
        as (call & status & -> & Hne & _).
      exists call, status, w2. split_and!; try done.
      destruct (initialize_throws config g0 w1 _ w2 Hinit)
        as (call' & status' & [= <- <-] & Hcall). done.
Qed.

(** X28 at a driver that accepts the compiled network. *)
Lemma compile_realizes_the_graph_witness :
  exists g w',
    compile picky_adapter example_model eager_config empty_world = (Ok g, w')
    /\ given g = (Some picky_driver, Some 5%nat, metadata main0, compiledNetwork main0)
    /\ _input_descriptors g
       = filter is_input (described picky_driver 5 <$> seq 0 2)
    /\ _output_descriptors g
       = filter (fun d => ~ is_input d) (described picky_driver 5 <$> seq 0 2)
    /\ _command_queue g = Some (created_queue picky_driver eager_config)
    /\ calls w' = calls empty_world
                  ++ [call_getGraphHandle (compiledNetwork main0);
                      call_initializeGraph 5 (queue_ordinal picky_driver)].
Proof.
  apply (proj1 (compile_realizes_the_graph picky_adapter picky_driver example_model
                  eager_config empty_world eq_refl eq_refl eq_refl eq_refl)).
  split_and!; try reflexivity; intros; reflexivity.
Defined.

End CompileLaws.
